(** * WanderGenie: the trip client, its exports and the itinerary engine

    A shallow embedding of the TypeScript client of the WanderGenie travel
    assistant (services/api.ts, hooks/useTrip.ts, utils/tripConverter.ts,
    utils/calendarExport.ts, utils/travelLinks.ts) and of the itinerary
    packaging and validation engine described by the design document.

    Conventions of the embedding:
    - a JavaScript string is a [string] (a sequence of bytes; the code only
      compares, concatenates and scans strings, so the encoding is immaterial
      except for [toLowerCase], which is modelled on ASCII letters, and for
      the serialisation of URL parameters, which escapes UTF-8 bytes);
    - a JavaScript number that counts something (minutes, milliseconds since
      the epoch, an HTTP status, a loop bound) is a [Z]; a coordinate is a
      binary64 [float]; the value NaN of an integral quantity is [None];
    - an optional or nullable field is an [option];
    - a settled promise is a [Promise]: resolved with a value or rejected
      with an error object;
    - what the JavaScript runtime provides (Date parsing, calendar getters,
      number printing, the clock) is an interface, [JsRuntime]; a statement
      that depends on what the runtime does with a date is read on
      [EcmaDate.runtime], the Date of ECMA-262 in a zone of a fixed
      offset. *)

From Stdlib Require Import ZArith List String Ascii Bool Lia DecimalString Floats.
From Stdlib Require DecimalPos DecimalZ.
Import ListNotations.

Local Open Scope string_scope.
Local Open Scope list_scope.

(** ** JavaScript values the client relies on *)

Module Js.

(** Error objects: [new Error(m)], and the two built-in subclasses the
    platform raises ([response.json()] on a malformed body, [fetch] on a
    network failure). All three are instances of [Error]. *)
Inductive JsError : Type :=
| Error (msg : string)
| SyntaxError (msg : string)
| TypeError (msg : string).

Definition message (e : JsError) : string :=
  match e with
  | Error m | SyntaxError m | TypeError m => m
  end.

(** The outcome of awaiting a promise. *)
Inductive Promise (A : Type) : Type :=
| Resolved (a : A)
| Rejected (e : JsError).
Arguments Resolved {A} a.
Arguments Rejected {A} e.

Definition is_empty (s : string) : bool :=
  match s with
  | EmptyString => true
  | String _ _ => false
  end.

(** [s || fallback] on strings: the empty string is falsy. *)
Definition or_else (s fallback : string) : string :=
  if is_empty s then fallback else s.

(** [xs.join(sep)]. *)
Definition join (sep : string) (xs : list string) : string :=
  String.concat sep xs.

(** [s.replace(/c/g, by)] for a one-character pattern. *)
Fixpoint replace_all (c : ascii) (by_ : string) (s : string) : string :=
  match s with
  | EmptyString => EmptyString
  | String a rest =>
      if Ascii.eqb a c then by_ ++ replace_all c by_ rest
      else String a (replace_all c by_ rest)
  end.

(** [hay.includes(needle)]. *)
Definition includes (hay needle : string) : bool :=
  match String.index 0 needle hay with
  | Some _ => true
  | None => false
  end.

Definition lower_ascii (a : ascii) : ascii :=
  let n := nat_of_ascii a in
  if (Nat.leb 65 n && Nat.leb n 90)%bool then ascii_of_nat (n + 32) else a.

(** [s.toLowerCase()], on ASCII letters. *)
Fixpoint toLowerCase (s : string) : string :=
  match s with
  | EmptyString => EmptyString
  | String a rest => String (lower_ascii a) (toLowerCase rest)
  end.

(** [s.split(sep)] for a one-character separator: always at least one piece. *)
Fixpoint split_on (sep : ascii) (s : string) : list string :=
  match s with
  | EmptyString => [EmptyString]
  | String a rest =>
      if Ascii.eqb a sep then EmptyString :: split_on sep rest
      else match split_on sep rest with
           | [] => [String a EmptyString]
           | piece :: more => String a piece :: more
           end
  end.

(** [s.padStart(n, "0")]. *)
Definition padStart0 (n : nat) (s : string) : string :=
  String.concat "" (repeat "0" (n - String.length s)) ++ s.

(** An integral JavaScript number, or NaN. *)
Definition num : Type := option Z.

(** [n.toString()] for an integral number. *)
Definition num_toString (n : num) : string :=
  match n with
  | Some z => NilZero.string_of_int (Z.to_int z)
  | None => "NaN"
  end.

Definition num_add (a b : num) : num :=
  match a, b with
  | Some x, Some y => Some (x + y)%Z
  | _, _ => None
  end.

Definition num_mul (a b : num) : num :=
  match a, b with
  | Some x, Some y => Some (x * y)%Z
  | _, _ => None
  end.

(** A coordinate used as a condition: 0, -0 and NaN are falsy. *)
Definition truthy (x : float) : bool :=
  (negb (PrimFloat.eqb x 0%float) && PrimFloat.eqb x x)%bool.

Definition isNaN (x : float) : bool := negb (PrimFloat.eqb x x).

(** The time value of a [Date]: milliseconds since the epoch, NaN for an
    invalid date. [new Date(t)] clips its argument to +-8.64e15. *)
Definition TimeValue : Type := num.

Definition timeClip (t : num) : TimeValue :=
  match t with
  | Some z => if (Z.abs z <=? 8640000000000000)%Z then Some z else None
  | None => None
  end.

(** What the runtime provides and the sources only call. *)
Class JsRuntime : Type := {
  (** [new Date(s)] *)
  date_parse : string -> TimeValue;
  (** [d.setHours(h, m, 0, 0)], in the local time zone *)
  date_setHours : TimeValue -> num -> num -> TimeValue;
  (** [Number(s)] on the pieces of a clock time *)
  to_number : string -> num;
  (** calendar getters of a valid date, local time zone *)
  getFullYear : Z -> Z;
  getMonth : Z -> Z;
  getDate : Z -> Z;
  (** calendar getters of a valid date, UTC *)
  getUTCFullYear : Z -> Z;
  getUTCMonth : Z -> Z;
  getUTCDate : Z -> Z;
  getUTCHours : Z -> Z;
  getUTCMinutes : Z -> Z;
  getUTCSeconds : Z -> Z;
  (** [x.toString()] on a coordinate *)
  float_toString : float -> string;
  (** [new Date()] *)
  date_now : TimeValue
}.

(** A getter applied to a possibly invalid date yields NaN on an invalid one. *)
Definition getter (f : Z -> Z) (d : TimeValue) : num := option_map f d.

End Js.

Export Js.

(** ** services/api.ts: wire types *)

Module POI.
Record t : Type := {
  name : string;
  lat : float;
  lon : float;
  tags : list string;
  duration_min : Z;
  booking_required : bool;
  booking_url : option string;
  notes : option string;
  open_hours : option string
}.
End POI.

Module TimeBlock.
Record t : Type := {
  start_time : string;
  end_time : string;
  poi : POI.t;
  travel_from_previous : Z
}.
End TimeBlock.

(** utils/tripConverter.ts: the activity the views render. *)
Inductive ActivityType : Type := attraction | food.

Module FrontendActivity.
Record t : Type := {
  time : string;
  name : string;
  type : ActivityType;
  lat : float;
  lon : float;
  duration_min : Z;
  booking_required : option bool;
  booking_url : option string;
  notes : option string
}.
End FrontendActivity.

(** A day as the server sends it. The interface declares [blocks]; the PATCH
    response carries [activities] instead, which [convertDay] reads through a
    cast, so both fields are optional here. *)
Module Day.
Record t : Type := {
  date : string;
  blocks : option (list TimeBlock.t);
  activities : option (list FrontendActivity.t)
}.
End Day.

Module BookingLinks.
Record t : Type := {
  flights : string;
  hotels : string
}.
End BookingLinks.

(** [status] is declared 'processing' | 'completed' | 'failed' but arrives as
    the string the server wrote; [days] is [None] when the JSON field is not
    an array; [errors] is optional. *)
Module TripResponse.
Record t : Type := {
  trip_id : string;
  status : string;
  city : string;
  origin : string;
  start_date : string;
  end_date : string;
  days : option (list Day.t);
  booking_links : BookingLinks.t;
  errors : option (list string)
}.
End TripResponse.

(** The body createTrip resolves with. *)
Module TripTicket.
Record t : Type := {
  trip_id : string;
  status : string
}.
End TripTicket.

(** ** services/api.ts: requests *)

Module Api.

(** The body of an HTTP response as [response.json()] sees it. *)
Inductive Body (A : Type) : Type :=
| Json (a : A)
| Malformed (msg : string).
Arguments Json {A} a.
Arguments Malformed {A} msg.

Record Response (A : Type) : Type := {
  status : Z;
  statusText : string;
  body : Body A
}.
Arguments status {A} r.
Arguments statusText {A} r.
Arguments body {A} r.

(** [response.ok]: the status is in the range 200-299. *)
Definition ok {A} (r : Response A) : bool :=
  ((200 <=? status r) && (status r <=? 299))%Z.

(** What [await fetch(...)] yields: a response, or a rejection when the
    request could not be made. *)
Inductive Fetched (A : Type) : Type :=
| Reply (r : Response A)
| NetworkError (msg : string).
Arguments Reply {A} r.
Arguments NetworkError {A} msg.

(** [response.json()] *)
Definition json {A} (r : Response A) : Promise A :=
  match body r with
  | Json a => Resolved a
  | Malformed m => Rejected (SyntaxError m)
  end.

Definition createTrip (f : Fetched TripTicket.t) : Promise TripTicket.t :=
  match f with
  | NetworkError m => Rejected (TypeError m)
  | Reply response =>
      if negb (ok response) then
        Rejected (Error ("Failed to create trip: " ++ statusText response))
      else json response
  end.

Definition getTrip (f : Fetched TripResponse.t) : Promise TripResponse.t :=
  match f with
  | NetworkError m => Rejected (TypeError m)
  | Reply response =>
      if negb (ok response) then
        if (status response =? 404)%Z then Rejected (Error "Trip not found")
        else Rejected (Error ("Failed to get trip: " ++ statusText response))
      else json response
  end.

Definition createTripSync (f : Fetched TripResponse.t) : Promise TripResponse.t :=
  match f with
  | NetworkError m => Rejected (TypeError m)
  | Reply response =>
      if negb (ok response) then
        Rejected (Error ("Failed to create trip: " ++ statusText response))
      else json response
  end.

Definition editTrip (f : Fetched TripResponse.t) : Promise TripResponse.t :=
  match f with
  | NetworkError m => Rejected (TypeError m)
  | Reply response =>
      if negb (ok response) then
        if (status response =? 404)%Z then Rejected (Error "Trip not found")
        else if (status response =? 409)%Z then
          Rejected (Error "Trip is still being generated. Please wait.")
        else Rejected (Error ("Failed to edit trip: " ++ statusText response))
      else json response
  end.

(** The server as the polling loop meets it: the outcome of the k-th GET. *)
Definition Server : Type := nat -> Fetched TripResponse.t.

(** One run of the polling loop: how it settled, how many GETs it issued,
    and the statuses it handed to [onProgress], oldest first. *)
Record PollRun : Type := {
  settled : Promise TripResponse.t;
  calls : nat;
  reported : list string
}.

(** [trip.errors?.join(', ') || 'Trip generation failed'] *)
Definition failure_message (trip : TripResponse.t) : string :=
  or_else
    (match TripResponse.errors trip with
     | Some es => join ", " es
     | None => ""
     end)
    "Trip generation failed".

(** The loop of pollTripUntilComplete: [remaining] iterations are left and
    [attempt] GETs were issued so far. *)
Fixpoint poll_loop (server : Server) (remaining attempt : nat)
    (seen : list string) : PollRun :=
  match remaining with
  | O =>
      {| settled := Rejected (Error "Trip generation timed out");
         calls := attempt; reported := seen |}
  | S remaining' =>
      match getTrip (server attempt) with
      | Rejected e =>
          {| settled := Rejected e; calls := S attempt; reported := seen |}
      | Resolved trip =>
          let seen' := seen ++ [TripResponse.status trip] in
          if String.eqb (TripResponse.status trip) "completed" then
            {| settled := Resolved trip; calls := S attempt; reported := seen' |}
          else if String.eqb (TripResponse.status trip) "failed" then
            {| settled := Rejected (Error (failure_message trip));
               calls := S attempt; reported := seen' |}
          else poll_loop server remaining' (S attempt) seen'
      end
  end.

(** [for (attempt = 0; attempt < maxAttempts; attempt++)] runs
    max(0, maxAttempts) times for an integral bound. *)
Definition pollTripUntilComplete (server : Server) (maxAttempts : Z) : PollRun :=
  poll_loop server (Z.to_nat maxAttempts) 0 [].

Definition default_maxAttempts : Z := 60.

End Api.

(** ** utils/tripConverter.ts *)

Module FrontendDay.
Record t : Type := {
  date : string;
  activities : list FrontendActivity.t
}.
End FrontendDay.

Module FrontendTrip.
Record t : Type := {
  trip_id : string;
  status : string;
  city : string;
  origin : string;
  start_date : string;
  end_date : string;
  days : list FrontendDay.t;
  booking_links : BookingLinks.t
}.
End FrontendTrip.

Module TripConverter.

(** The food test of getActivityType. The look at the POI's name sits inside
    the callback of [tags.some], so it only runs when there is a tag. *)
Definition food_tag (poi : POI.t) (tag : string) : bool :=
  (includes tag "food"
   || includes tag "restaurant"
   || includes tag "cafe"
   || includes tag "pizza"
   || includes tag "lunch"
   || includes tag "dinner"
   || includes (toLowerCase (POI.name poi)) "lunch")%bool.

Definition getActivityType (poi : POI.t) : ActivityType :=
  let tags := map toLowerCase (POI.tags poi) in
  if existsb (food_tag poi) tags then food else attraction.

(** [value || undefined] on a nullable string. *)
Definition or_undefined (value : option string) : option string :=
  match value with
  | Some s => if is_empty s then None else Some s
  | None => None
  end.

Definition convertTimeBlockToActivity (block : TimeBlock.t) : FrontendActivity.t :=
  let poi := TimeBlock.poi block in
  {| FrontendActivity.time := TimeBlock.start_time block;
     FrontendActivity.name := POI.name poi;
     FrontendActivity.type := getActivityType poi;
     FrontendActivity.lat := POI.lat poi;
     FrontendActivity.lon := POI.lon poi;
     FrontendActivity.duration_min := POI.duration_min poi;
     FrontendActivity.booking_required := Some (POI.booking_required poi);
     FrontendActivity.booking_url := or_undefined (POI.booking_url poi);
     FrontendActivity.notes := or_undefined (POI.notes poi) |}.

(** An array is truthy even when empty, so a present [blocks] always wins. *)
Definition convertDay (backendDay : Day.t) : FrontendDay.t :=
  match Day.blocks backendDay with
  | Some blocks =>
      {| FrontendDay.date := Day.date backendDay;
         FrontendDay.activities := map convertTimeBlockToActivity blocks |}
  | None =>
      match Day.activities backendDay with
      | Some activities =>
          {| FrontendDay.date := Day.date backendDay;
             FrontendDay.activities := activities |}
      | None =>
          {| FrontendDay.date := Day.date backendDay;
             FrontendDay.activities := [] |}
      end
  end.

Definition convertBackendTripToFrontend (backendTrip : TripResponse.t)
    : FrontendTrip.t :=
  let days :=
    match TripResponse.days backendTrip with
    | Some ds => ds
    | None => []
    end in
  {| FrontendTrip.trip_id := TripResponse.trip_id backendTrip;
     FrontendTrip.status := TripResponse.status backendTrip;
     FrontendTrip.city := TripResponse.city backendTrip;
     FrontendTrip.origin := TripResponse.origin backendTrip;
     FrontendTrip.start_date := TripResponse.start_date backendTrip;
     FrontendTrip.end_date := TripResponse.end_date backendTrip;
     FrontendTrip.days := map convertDay days;
     FrontendTrip.booking_links := TripResponse.booking_links backendTrip |}.

End TripConverter.

(** ** hooks/useTrip.ts *)

Module UseTrip.
Import Api TripConverter.

(** The four pieces of React state the hook owns. *)
Record HookState : Type := {
  trip : option FrontendTrip.t;
  isLoading : bool;
  error : option string;
  progress : option string
}.

Definition initial : HookState :=
  {| trip := None; isLoading := false; error := None; progress := None |}.

(** A call of one of the state setters. *)
Inductive Update : Type :=
| setTrip (t : option FrontendTrip.t)
| setIsLoading (b : bool)
| setError (e : option string)
| setProgress (p : option string).

Definition apply_update (s : HookState) (u : Update) : HookState :=
  match u with
  | setTrip t =>
      {| trip := t; isLoading := isLoading s; error := error s; progress := progress s |}
  | setIsLoading b =>
      {| trip := trip s; isLoading := b; error := error s; progress := progress s |}
  | setError e =>
      {| trip := trip s; isLoading := isLoading s; error := e; progress := progress s |}
  | setProgress p =>
      {| trip := trip s; isLoading := isLoading s; error := error s; progress := p |}
  end.

Definition run (s : HookState) (us : list Update) : HookState :=
  fold_left apply_update us s.

(** The [onProgress] callback both operations pass to the polling loop: it
    sets the progress text on every 'processing' status and ignores others. *)
Definition progress_updates (text : string) (statuses : list string) : list Update :=
  flat_map
    (fun status =>
       if String.eqb status "processing" then [setProgress (Some text)] else [])
    statuses.

(** What the outside world answers during one operation: the reply to the
    POST or PATCH, and the replies to the GETs of the polling loop. *)
Record World (A : Type) : Type := {
  first_reply : Fetched A;
  server : Server
}.
Arguments first_reply {A} w.
Arguments server {A} w.

(** The [catch] block: every thrown value here is an [Error] instance. *)
Definition on_catch (e : JsError) : list Update :=
  [setError (Some (message e)); setProgress None].

(** createNewTrip: the setter calls it makes, in order. *)
Definition createNewTrip (w : World TripTicket.t) : list Update :=
  [setIsLoading true; setError None; setProgress (Some "Creating trip...")]
  ++ match createTrip (first_reply w) with
     | Rejected e => on_catch e
     | Resolved _ =>
         let polled := pollTripUntilComplete (server w) default_maxAttempts in
         setProgress (Some "Generating itinerary...")
         :: progress_updates "Planning your perfect trip..." (reported polled)
         ++ match settled polled with
            | Rejected e => on_catch e
            | Resolved backendTrip =>
                [setTrip (Some (convertBackendTripToFrontend backendTrip));
                 setProgress None]
            end
     end
  ++ [setIsLoading false].

(** The [try] block of modifyTrip. *)
Definition modify_body (w : World TripResponse.t) : list Update :=
  match editTrip (first_reply w) with
  | Rejected e => on_catch e
  | Resolved backendTrip =>
      setProgress (Some "Updating itinerary...")
      :: (if String.eqb (TripResponse.status backendTrip) "processing" then
            let polled := pollTripUntilComplete (server w) default_maxAttempts in
            progress_updates "Applying your changes..." (reported polled)
            ++ match settled polled with
               | Rejected e => on_catch e
               | Resolved completedTrip =>
                   [setTrip (Some (convertBackendTripToFrontend completedTrip));
                    setProgress None]
               end
          else
            [setTrip (Some (convertBackendTripToFrontend backendTrip));
             setProgress None])
  end.

(** modifyTrip, closed over the [trip] of the render it was created in. *)
Definition modifyTrip (s : HookState) (w : World TripResponse.t) : list Update :=
  match trip s with
  | None => [setError (Some "No trip to modify")]
  | Some _ =>
      [setIsLoading true; setError None; setProgress (Some "Modifying trip...")]
      ++ modify_body w
      ++ [setIsLoading false]
  end.

Definition clearTrip : list Update :=
  [setTrip None; setError None; setProgress None].

(** The edit failed: the PATCH call threw, or the polling after it did. *)
Definition edit_throws (w : World TripResponse.t) : option JsError :=
  match editTrip (first_reply w) with
  | Rejected e => Some e
  | Resolved backendTrip =>
      if String.eqb (TripResponse.status backendTrip) "processing" then
        match settled (pollTripUntilComplete (server w) default_maxAttempts) with
        | Rejected e => Some e
        | Resolved _ => None
        end
      else None
  end.

Definition is_setTrip (u : Update) : bool :=
  match u with
  | setTrip _ => true
  | _ => false
  end.

(** The states the hook is in between operations, when they run one after
    the other from the first render. *)
Inductive Reachable : HookState -> Prop :=
| reach_initial : Reachable initial
| reach_create s w : Reachable s -> Reachable (run s (createNewTrip w))
| reach_modify s w : Reachable s -> Reachable (run s (modifyTrip s w))
| reach_clear s : Reachable s -> Reachable (run s clearTrip).

End UseTrip.

(** ** utils/calendarExport.ts *)

Module TripActivity.
Record t : Type := {
  time : string;
  type : string;
  name : string;
  lat : float;
  lon : float;
  duration_min : option Z;
  booking_required : option bool;
  booking_url : option string;
  notes : option string
}.
End TripActivity.

Module TripDay.
Record t : Type := {
  date : string;
  activities : list TripActivity.t
}.
End TripDay.

Module TripLinks.
Record t : Type := {
  flights : option string;
  hotels : option string
}.
End TripLinks.

(** [end_date] is declared a string, but both readers guard it with [??]. *)
Module Trip.
Record t : Type := {
  trip_id : option string;
  status : option string;
  city : string;
  origin : option string;
  start_date : string;
  end_date : option string;
  days : list TripDay.t;
  booking_links : option TripLinks.t
}.
End Trip.

Module CalendarExport.
Section WithRuntime.
Context {runtime : JsRuntime}.

Definition DEFAULT_DURATION_MIN : Z := 90.

Definition newline : string := String (ascii_of_nat 10) EmptyString.

Definition pad (value : num) : string := padStart0 2 (num_toString value).

Definition formatICSDate (date : TimeValue) : string :=
  num_toString (getter getUTCFullYear date)
  ++ pad (num_add (getter getUTCMonth date) (Some 1%Z))
  ++ pad (getter getUTCDate date)
  ++ "T"
  ++ pad (getter getUTCHours date)
  ++ pad (getter getUTCMinutes date)
  ++ pad (getter getUTCSeconds date)
  ++ "Z".

(** The four replacements, in the order the source chains them. *)
Definition sanitize (value : option string) : string :=
  match value with
  | None => ""
  | Some v =>
      if is_empty v then ""
      else
        replace_all (ascii_of_nat 10) "\n"
          (replace_all ";" "\;"
             (replace_all "," "\,"
                (replace_all "\" "\\" v)))
  end.

(** [xs.filter(Boolean)] on strings and nulls: drops null and "". *)
Definition filter_Boolean (xs : list (option string)) : list string :=
  flat_map
    (fun x => match x with
              | Some s => if is_empty s then [] else [s]
              | None => []
              end)
    xs.

Definition nonempty (value : option string) : bool :=
  match value with
  | Some s => negb (is_empty s)
  | None => false
  end.

(** [x ?? fallback] *)
Definition nullish {A} (x : option A) (fallback : A) : A :=
  match x with
  | Some a => a
  | None => fallback
  end.

(** The start of an activity: midnight of the day, local time, moved to the
    hours and minutes of its clock time. *)
Definition event_start (activity : TripActivity.t) (day : TripDay.t) : TimeValue :=
  let parts := map to_number (split_on ":" (TripActivity.time activity)) in
  let hours := nth_error parts 0 in
  let minutes := nth_error parts 1 in
  let start := date_parse (TripDay.date day ++ "T00:00:00") in
  date_setHours start (nullish hours (Some 0%Z)) (nullish minutes (Some 0%Z)).

Definition eventDuration (activity : TripActivity.t) : Z :=
  nullish (TripActivity.duration_min activity) DEFAULT_DURATION_MIN.

(** [new Date(start.getTime() + eventDuration * 60 * 1000)] *)
Definition event_end (activity : TripActivity.t) (day : TripDay.t) : TimeValue :=
  timeClip
    (num_add (event_start activity day)
             (Some (eventDuration activity * 60 * 1000)%Z)).

Definition descriptionParts (activity : TripActivity.t) : list string :=
  filter_Boolean
    [ Some ("Type: " ++ TripActivity.type activity)%string;
      (if nullish (TripActivity.booking_required activity) false
       then Some "Booking required" else None);
      (if nonempty (TripActivity.booking_url activity)
       then Some ("Link: " ++ nullish (TripActivity.booking_url activity) "")%string
       else None);
      TripActivity.notes activity ].

(** The lines of one VEVENT, before they are joined. *)
Definition event_lines (activity : TripActivity.t) (day : TripDay.t)
    (city stamp : string) (index : Z) : list string :=
  filter_Boolean
    [ Some "BEGIN:VEVENT";
      Some ("UID:" ++ stamp ++ "-" ++ num_toString (Some index) ++ "@wandergenie")%string;
      Some ("DTSTAMP:" ++ stamp)%string;
      Some ("DTSTART:" ++ formatICSDate (event_start activity day))%string;
      Some ("DTEND:" ++ formatICSDate (event_end activity day))%string;
      Some ("SUMMARY:" ++ sanitize (Some (TripActivity.name activity)))%string;
      Some ("LOCATION:"
            ++ sanitize (Some (TripActivity.name activity ++ ", " ++ city)))%string;
      (match descriptionParts activity with
       | [] => None
       | parts => Some ("DESCRIPTION:" ++ sanitize (Some (join " | " parts)))%string
       end);
      (if nonempty (TripActivity.booking_url activity)
       then Some ("URL:" ++ sanitize (TripActivity.booking_url activity))%string
       else None);
      Some "END:VEVENT" ].

Definition buildEvent (activity : TripActivity.t) (day : TripDay.t)
    (city stamp : string) (index : Z) : string :=
  join newline (event_lines activity day city stamp index).

(** [xs.map((x, i) => f(x, i))] *)
Fixpoint mapi_from {A B} (i : nat) (f : A -> nat -> B) (xs : list A) : list B :=
  match xs with
  | [] => []
  | x :: rest => f x i :: mapi_from (S i) f rest
  end.

Definition mapi {A B} (f : A -> nat -> B) (xs : list A) : list B :=
  mapi_from 0 f xs.

(** The events of a trip, in the order generateICS splices them. *)
Definition events (trip : Trip.t) (stamp : string) : list string :=
  List.concat
    (mapi
       (fun day dayIndex =>
          mapi
            (fun activity activityIndex =>
               buildEvent activity day (Trip.city trip) stamp
                 (Z.of_nat dayIndex * 100 + Z.of_nat activityIndex)%Z)
            (TripDay.activities day))
       (Trip.days trip)).

Definition generateICS (trip : Trip.t) : string :=
  let stamp := formatICSDate date_now in
  join newline
    ([ "BEGIN:VCALENDAR";
       "VERSION:2.0";
       "PRODID:-//WanderGenie//Trip Export//EN";
       "CALSCALE:GREGORIAN" ]
     ++ events trip stamp
     ++ [ "END:VCALENDAR" ]).

End WithRuntime.
End CalendarExport.

(** ** utils/travelLinks.ts *)

Module TravelLinks.
Section WithRuntime.
Context {runtime : JsRuntime}.

Definition pad (value : num) : string := padStart0 2 (num_toString value).

Definition formatIsoDate (date : TimeValue) : string :=
  (num_toString (getter getFullYear date)
   ++ "-" ++ pad (num_add (getter getMonth date) (Some 1%Z))
   ++ "-" ++ pad (getter getDate date))%string.

Definition getAllActivities (trip : Trip.t) : list TripActivity.t :=
  flat_map TripDay.activities (Trip.days trip).

(** The first activity with two usable coordinates, else the first one. *)
Definition getPrimaryPOI (trip : Trip.t) : option TripActivity.t :=
  match
    find
      (fun activity =>
         (negb (isNaN (TripActivity.lat activity))
          && negb (isNaN (TripActivity.lon activity)))%bool)
      (getAllActivities trip)
  with
  | Some activity => Some activity
  | None => hd_error (getAllActivities trip)
  end.

Definition getStartDate (trip : Trip.t) : TimeValue :=
  date_parse (Trip.start_date trip).

Definition getEndDate (trip : Trip.t) : TimeValue :=
  date_parse
    (match Trip.end_date trip with
     | Some end_date => end_date
     | None => Trip.start_date trip
     end).

(** URLSearchParams: an ordered list of name-value pairs. *)
Definition Params : Type := list (string * string).

Definition get (name : string) (params : Params) : option string :=
  option_map snd (find (fun p => String.eqb (fst p) name) params).

Definition has (name : string) (params : Params) : bool :=
  existsb (fun p => String.eqb (fst p) name) params.

Fixpoint replace_first (name value : string) (params : Params) : Params :=
  match params with
  | [] => []
  | (n, v) :: rest =>
      if String.eqb n name then
        (n, value) :: filter (fun p => negb (String.eqb (fst p) name)) rest
      else (n, v) :: replace_first name value rest
  end.

(** [params.set(name, value)]: overwrite the first pair of that name and drop
    the others, or append. *)
Definition set (name value : string) (params : Params) : Params :=
  if has name params then replace_first name value params
  else params ++ [(name, value)].

Definition hex_digit (n : nat) : string :=
  String.substring n 1 "0123456789ABCDEF".

Definition is_urlencoded_safe (a : ascii) : bool :=
  let n := nat_of_ascii a in
  ((Nat.leb 48 n && Nat.leb n 57)
   || (Nat.leb 65 n && Nat.leb n 90)
   || (Nat.leb 97 n && Nat.leb n 122)
   || Nat.eqb n 42 || Nat.eqb n 45 || Nat.eqb n 46 || Nat.eqb n 95)%bool.

(** The application/x-www-form-urlencoded serialisation of one byte. *)
Definition urlencode_byte (a : ascii) : string :=
  let n := nat_of_ascii a in
  if Nat.eqb n 32 then "+"
  else if is_urlencoded_safe a then String a EmptyString
  else ("%" ++ hex_digit (Nat.div n 16) ++ hex_digit (Nat.modulo n 16))%string.

Fixpoint urlencode (s : string) : string :=
  match s with
  | EmptyString => EmptyString
  | String a rest => (urlencode_byte a ++ urlencode rest)%string
  end.

(** [params.toString()] *)
Definition params_toString (params : Params) : string :=
  join "&" (map (fun p => (urlencode (fst p) ++ "=" ++ urlencode (snd p))%string) params).

Definition anchor_name (anchor : option TripActivity.t) (fallback : string) : string :=
  match anchor with
  | Some activity => TripActivity.name activity
  | None => fallback
  end.

(** [anchor?.lat && anchor?.lon] as a condition. *)
Definition has_coordinates (anchor : option TripActivity.t) : bool :=
  match anchor with
  | Some activity =>
      (truthy (TripActivity.lat activity) && truthy (TripActivity.lon activity))%bool
  | None => false
  end.

(** The search parameters buildHotelsLink assembles. *)
Definition hotel_params (trip : Trip.t) : Params :=
  let anchor := getPrimaryPOI trip in
  let checkin := getStartDate trip in
  let checkout := getEndDate trip in
  let params : Params :=
    [ ("ss", (Trip.city trip ++ " near " ++ anchor_name anchor "city center")%string);
      ("checkin", formatIsoDate checkin);
      ("checkout", formatIsoDate checkout);
      ("group_adults", "2");
      ("no_rooms", "1");
      ("group_children", "0") ] in
  match anchor with
  | Some activity =>
      if has_coordinates anchor then
        set "order" "distance_from_landmark"
          (set "radius" "5"
             (set "selected_longitude" (float_toString (TripActivity.lon activity))
                (set "selected_latitude" (float_toString (TripActivity.lat activity))
                   params)))
      else params
  | None => params
  end.

Definition generatedUrl (trip : Trip.t) : string :=
  ("https://www.booking.com/searchresults.html?"
   ++ params_toString (hotel_params trip))%string.

Record Link : Type := {
  url : string;
  landmark : string
}.

Definition buildHotelsLink (trip : Trip.t) : Link :=
  {| url :=
       match Trip.booking_links trip with
       | Some links =>
           match TripLinks.hotels links with
           | Some hotels => hotels
           | None => generatedUrl trip
           end
       | None => generatedUrl trip
       end;
     landmark := anchor_name (getPrimaryPOI trip) (Trip.city trip) |}.

End WithRuntime.
End TravelLinks.

(** ** The itinerary packaging and validation engine

    The scheduler, the validator and the pipeline that joins them run on the
    server; the client sources above only call them over HTTP. They are
    modelled here from the design document. Times of day are minutes since
    midnight and dates are day numbers, both in [Z]. *)

Module Engine.
Local Open Scope Z_scope.

(** Modelled from the spec: the opening hours of a POI on one weekday,
    unknown or a window (sections 3 and 9). *)
Inductive Hours : Type :=
| Unknown
| Window (opens closes : Z).

(** Modelled from the spec: the pace of the constraints (section 3). *)
Inductive Pace : Type := relaxed | moderate | packed.

(** Modelled from the spec: the status of a Trip (section 3). *)
Inductive Status : Type := processing | completed | failed.

(** Modelled from the spec: the POI record of the data model (section 3);
    coordinates and provenance are only read by the travel-time estimator and
    by discovery, which stay outside; popularity, a value between 0 and 1,
    is kept in thousandths. *)
Record POI : Type := {
  poi_id : Z;
  poi_name : string;
  poi_tags : list string;
  poi_duration_min : option Z;
  poi_popularity : Z;
  poi_booking_required : bool;
  poi_hours : Z -> Hours
}.

(** Modelled from the spec: TripConstraints (section 3). *)
Record TripConstraints : Type := {
  start_date : Z;
  end_date : Z;
  origin : string;
  preferred_tags : list string;
  avoided_tags : list string;
  pace : Pace;
  activity_cap : nat
}.

(** Modelled from the spec: TimeBlock (section 3). *)
Record TimeBlock : Type := {
  day_index : nat;
  start : Z;
  finish : Z;
  poi : POI;
  travel_from_previous : Z;
  low_confidence : option string
}.

(** Modelled from the spec: Day (section 3). *)
Record Day : Type := {
  date : Z;
  blocks : list TimeBlock
}.

(** Modelled from the spec: Trip (section 3). *)
Record Trip : Type := {
  trip_id : string;
  status : Status;
  city : string;
  constraints : TripConstraints;
  days : list Day;
  validation_errors : list string
}.

(** Modelled from the spec: what the design leaves to configuration or to
    collaborators: the travel-time estimator (section 4.2), the weights of
    the score and the fixed gap between activities (section 4.3), the day
    window and activity count a pace stands for and the default duration
    (section 4.1), and the booking lead-time test (section 4.4, check d). *)
Record Settings : Type := {
  travel_time : option POI -> POI -> Z;
  w1 : Z;
  w2 : Z;
  w3 : Z;
  gap : Z;
  window_of : Pace -> Z * Z;
  count_of : Pace -> nat;
  default_duration : Z;
  lead_time_ok : TripConstraints -> TimeBlock -> bool
}.

Section WithSettings.
Variable cfg : Settings.

(** *** 4.1 Constraint Resolver *)

(** Modelled from the spec: the resolver fills a missing duration_min with a
    default (section 4.1). *)
Definition duration (p : POI) : Z :=
  match poi_duration_min p with
  | Some d => d
  | None => default_duration cfg
  end.

(** Modelled from the spec: the per-day activity budget, the count the pace
    stands for capped by the per-day activity cap of the constraints. *)
Definition day_budget (c : TripConstraints) : nat :=
  Nat.min (count_of cfg (pace c)) (activity_cap c).

(** Modelled from the spec: the deterministic tie-break of the resolver,
    popularity descending, then id ascending (section 4.1). *)
Definition before (p q : POI) : bool :=
  (poi_popularity q <? poi_popularity p)
  || ((poi_popularity p =? poi_popularity q) && (poi_id p <=? poi_id q)).

(** Modelled from the spec: insertion into a pool kept in priority order
    (section 4.1). *)
Fixpoint insert_by_priority (p : POI) (ps : list POI) : list POI :=
  match ps with
  | [] => [p]
  | q :: rest => if before p q then p :: q :: rest else q :: insert_by_priority p rest
  end.

(** Modelled from the spec: the priority ordering of the pool (section 4.1),
    must-include candidates first by the deterministic tie-break. *)
Definition prioritise (pool : list POI) : list POI :=
  fold_right insert_by_priority [] pool.

(** *** 4.3 Day Scheduler *)

(** Modelled from the spec: step 2a, an opening window, if known, contains a
    slot; unknown hours are permissive. *)
Definition within (h : Hours) (from to : Z) : bool :=
  match h with
  | Unknown => true
  | Window opens closes => (opens <=? from) && (to <=? closes)
  end.

(** Modelled from the spec: two POIs of the same category, read as sharing a
    tag (step 2b). *)
Definition shares_tag (p q : POI) : bool :=
  existsb (fun t => existsb (String.eqb t) (poi_tags q)) (poi_tags p).

(** Modelled from the spec: step 2b. The repeat penalty applies to a
    candidate that shares a tag with the POI under the cursor, unless every
    remaining candidate does. *)
Definition category_repeat_penalty (cursor_poi : option POI) (remaining : list POI)
    (candidate : POI) : Z :=
  match cursor_poi with
  | None => 0
  | Some p =>
      if shares_tag p candidate && negb (forallb (shares_tag p) remaining)
      then 1 else 0
  end.

(** Modelled from the spec: step 2b, w1 * popularity - w2 * travel_time - w3
    * category_repeat_penalty. *)
Definition score (cursor_poi : option POI) (remaining : list POI) (candidate : POI) : Z :=
  w1 cfg * poi_popularity candidate
  - w2 cfg * travel_time cfg cursor_poi candidate
  - w3 cfg * category_repeat_penalty cursor_poi remaining candidate.

(** Modelled from the spec: step 2a and 2e. A candidate fits when its opening
    window, if known, contains the slot at the cursor and the block would end
    before the day window closes. *)
Definition fits (weekday closes cursor : Z) (cursor_poi : option POI) (p : POI) : bool :=
  within (poi_hours p weekday) cursor (cursor + duration p)
  && (cursor + travel_time cfg cursor_poi p + duration p <=? closes).

(** Modelled from the spec: step 2c, the best score, ties to the smaller id. *)
Definition better (cursor_poi : option POI) (remaining : list POI) (p q : POI) : bool :=
  (score cursor_poi remaining q <? score cursor_poi remaining p)
  || ((score cursor_poi remaining p =? score cursor_poi remaining q)
      && (poi_id p <? poi_id q)).

(** Modelled from the spec: step 2c, the candidate of the best score among
    those that fit. *)
Fixpoint pick (cursor_poi : option POI) (remaining : list POI) (fitting : list POI)
    : option POI :=
  match fitting with
  | [] => None
  | p :: rest =>
      match pick cursor_poi remaining rest with
      | None => Some p
      | Some q => if better cursor_poi remaining q p then Some q else Some p
      end
  end.

(** Modelled from the spec: a candidate is unused when its id is not among
    used_ids (section 4.3). *)
Definition unused (used_ids : list Z) (p : POI) : bool :=
  negb (existsb (Z.eqb (poi_id p)) used_ids).

(** Modelled from the spec: the per-day loop of section 4.3 over the state
    cursor_time, remaining_budget, used_ids. It returns the blocks of the day
    and the ids used so far. *)
Fixpoint day_loop (index : nat) (weekday closes : Z) (pool : list POI)
    (remaining_budget : nat) (cursor_time : Z) (cursor_poi : option POI)
    (used_ids : list Z) : list TimeBlock * list Z :=
  match remaining_budget with
  | O => ([], used_ids)
  | S budget' =>
      let remaining := filter (unused used_ids) pool in
      match pick cursor_poi remaining
              (filter (fits weekday closes cursor_time cursor_poi) remaining) with
      | None => ([], used_ids)
      | Some p =>
          let travel := travel_time cfg cursor_poi p in
          let block :=
            {| day_index := index;
               start := cursor_time + travel;
               finish := cursor_time + travel + duration p;
               poi := p;
               travel_from_previous := travel;
               low_confidence :=
                 match poi_hours p weekday with
                 | Unknown => Some "opening hours unknown"
                 | Window _ _ => None
                 end |} in
          let '(later, used) :=
            day_loop index weekday closes pool budget'
              (finish block + gap cfg) (Some p) (poi_id p :: used_ids) in
          (block :: later, used)
      end
  end.

(** Modelled from the spec: one run of the per-day loop, from the start of
    the day window, with the budget of the day (section 4.3, step 1). *)
Definition schedule_day (c : TripConstraints) (pool : list POI) (index : nat)
    (day : Z) (used_ids : list Z) : Day * list Z :=
  let '(opens, closes) := window_of cfg (pace c) in
  let '(bs, used) :=
    day_loop index (day mod 7) closes pool (day_budget c) opens None used_ids in
  ({| date := day; blocks := bs |}, used).

(** Modelled from the spec: one day per calendar date of the range, in
    order; the pool is shared and what a day leaves unused rolls over to the
    next day (step 3). *)
Fixpoint schedule_days (c : TripConstraints) (pool : list POI) (index : nat)
    (day : Z) (count : nat) (used_ids : list Z) : list Day :=
  match count with
  | O => []
  | S count' =>
      let '(d, used) := schedule_day c pool index day used_ids in
      d :: schedule_days c pool (S index) (day + 1) count' used
  end.

(** Modelled from the spec: the calendar span of the date range (section 3). *)
Definition calendar_span (c : TripConstraints) : nat :=
  Z.to_nat (end_date c - start_date c + 1).

(** Modelled from the spec: an empty day is valid output, recorded in
    validation_errors (sections 4.1 and 4.3). *)
Definition empty_day_notes (ds : list Day) : list string :=
  flat_map
    (fun d => match blocks d with
              | [] => ["empty day"%string]
              | _ :: _ => []
              end)
    ds.

(** *** 4.4 Schema Validator and Auto-Patcher *)

(** Modelled from the spec: the kinds of violation the ordered checks (a) to
    (f) report (section 4.4). *)
Inductive Violation : Type :=
| Overlap (day : nat)
| OverCap (day : nat)
| OutsideHours (day block : nat)
| LeadTime (day block : nat)
| DuplicatePoi (id : Z)
| MissingField (field : string).

(** Modelled from the spec: the result of auto-patch, Patched or Unpatchable
    (sections 4.4 and 9). *)
Inductive PatchResult : Type :=
| Patched (t : Trip)
| Unpatchable (reason : string).

(** Modelled from the spec: check (a). Each block must start no earlier than
    the end of its predecessor plus its own travel time (sections 4.4 and
    8). *)
Fixpoint ordered_from (previous_finish : Z) (bs : list TimeBlock) : bool :=
  match bs with
  | [] => true
  | b :: rest =>
      (previous_finish + travel_from_previous b <=? start b)
      && ordered_from (finish b) rest
  end.

(** Modelled from the spec: check (a) on a day; its first block has no
    predecessor. *)
Definition non_overlapping (bs : list TimeBlock) : bool :=
  match bs with
  | [] => true
  | b :: rest => ordered_from (finish b) rest
  end.

(** Modelled from the spec: the elements of a list with their positions, to
    name a day or a block in a violation. *)
Definition indexed {A} (xs : list A) : list (nat * A) :=
  combine (seq 0 (List.length xs)) xs.

(** Modelled from the spec: check (a), over the days of the trip. *)
Definition check_overlap (t : Trip) : list Violation :=
  flat_map
    (fun '(i, d) => if non_overlapping (blocks d) then [] else [Overlap i])
    (indexed (days t)).

(** Modelled from the spec: check (b), the per-day activity cap. *)
Definition check_cap (t : Trip) : list Violation :=
  flat_map
    (fun '(i, d) =>
       if Nat.leb (List.length (blocks d)) (activity_cap (constraints t)) then []
       else [OverCap i])
    (indexed (days t)).

(** Modelled from the spec: check (c), a block's start lies inside the
    opening window, when known (section 3). *)
Definition in_hours (d : Day) (b : TimeBlock) : bool :=
  match poi_hours (poi b) (date d mod 7) with
  | Unknown => true
  | Window opens closes => (opens <=? start b) && (start b <=? closes)
  end.

(** Modelled from the spec: check (c), over the blocks of the trip. *)
Definition check_hours (t : Trip) : list Violation :=
  flat_map
    (fun '(i, d) =>
       flat_map
         (fun '(j, b) => if in_hours d b then [] else [OutsideHours i j])
         (indexed (blocks d)))
    (indexed (days t)).

(** Modelled from the spec: check (d), booking lead-time compliance. *)
Definition check_lead_time (t : Trip) : list Violation :=
  flat_map
    (fun '(i, d) =>
       flat_map
         (fun '(j, b) =>
            if lead_time_ok cfg (constraints t) b then [] else [LeadTime i j])
         (indexed (blocks d)))
    (indexed (days t)).

(** Modelled from the spec: the POI ids of a trip, day by day (check e). *)
Definition all_ids (t : Trip) : list Z :=
  flat_map (fun d => map (fun b => poi_id (poi b)) (blocks d)) (days t).

(** Modelled from the spec: check (e), the ids that occur again later in the
    trip, each reported once. *)
Fixpoint repeated (ids : list Z) : list Z :=
  match ids with
  | [] => []
  | i :: rest =>
      if existsb (Z.eqb i) rest
      then i :: filter (fun j => negb (Z.eqb i j)) (repeated rest)
      else repeated rest
  end.

(** Modelled from the spec: check (e), duplicate POI ids trip-wide. *)
Definition check_duplicates (t : Trip) : list Violation :=
  map DuplicatePoi (repeated (all_ids t)).

(** Modelled from the spec: check (f), of the serialised shape, the fields a
    typed Trip can lack. *)
Definition check_required (t : Trip) : list Violation :=
  (if is_empty (trip_id t) then [MissingField "trip_id"] else [])
  ++ (if is_empty (city t) then [MissingField "city"] else []).

(** Modelled from the spec: the ordered checks (a) to (f) of section 4.4. *)
Definition violations (t : Trip) : list Violation :=
  check_overlap t ++ check_cap t ++ check_hours t ++ check_lead_time t
  ++ check_duplicates t ++ check_required t.

(** Modelled from the spec: the overlap patch, shift later blocks forward,
    keeping their length (section 4.4). *)
Fixpoint shift_from (previous_finish : Z) (bs : list TimeBlock) : list TimeBlock :=
  match bs with
  | [] => []
  | b :: rest =>
      let earliest := previous_finish + travel_from_previous b in
      let delta := Z.max 0 (earliest - start b) in
      let b' :=
        {| day_index := day_index b;
           start := start b + delta;
           finish := finish b + delta;
           poi := poi b;
           travel_from_previous := travel_from_previous b;
           low_confidence := low_confidence b |} in
      b' :: shift_from (finish b') rest
  end.

(** Modelled from the spec: the overlap patch on a day; its first block
    stays. *)
Definition shift_forward (bs : list TimeBlock) : list TimeBlock :=
  match bs with
  | [] => []
  | b :: rest => b :: shift_from (finish b) rest
  end.

(** Modelled from the spec: a new Trip with other days: a Trip is replaced,
    never mutated in place (section 3). *)
Definition with_days (t : Trip) (ds : list Day) : Trip :=
  {| trip_id := trip_id t; status := status t; city := city t;
     constraints := constraints t; days := ds;
     validation_errors := validation_errors t |}.

(** Modelled from the spec: a patch that touches the blocks of one day only. *)
Definition patch_day (i : nat) (f : list TimeBlock -> list TimeBlock) (t : Trip) : Trip :=
  with_days t
    (map (fun '(j, d) =>
            if Nat.eqb i j then {| date := date d; blocks := f (blocks d) |} else d)
         (indexed (days t))).

(** Modelled from the spec: the duplicate patch within a day, drop the later
    of two duplicate ids (section 4.4). *)
Fixpoint drop_later_blocks (id : Z) (seen : bool) (bs : list TimeBlock)
    : list TimeBlock * bool :=
  match bs with
  | [] => ([], seen)
  | b :: rest =>
      if Z.eqb (poi_id (poi b)) id then
        let '(kept, _) := drop_later_blocks id true rest in
        (if seen then kept else b :: kept, true)
      else
        let '(kept, seen') := drop_later_blocks id seen rest in
        (b :: kept, seen')
  end.

(** Modelled from the spec: the duplicate patch across the days in order;
    the first block with the id stays. *)
Fixpoint drop_later_days (id : Z) (seen : bool) (ds : list Day) : list Day :=
  match ds with
  | [] => []
  | d :: rest =>
      let '(kept, seen') := drop_later_blocks id seen (blocks d) in
      {| date := date d; blocks := kept |} :: drop_later_days id seen' rest
  end.

(** Modelled from the spec: auto-patch is a total function per violation
    kind; a fix is given for an overlap and for a duplicate id, the other
    kinds have none. *)
Definition auto_patch (v : Violation) (t : Trip) : PatchResult :=
  match v with
  | Overlap i => Patched (patch_day i shift_forward t)
  | DuplicatePoi id => Patched (with_days t (drop_later_days id false (days t)))
  | OverCap _ => Unpatchable "per-day cap exceeded"
  | OutsideHours _ _ => Unpatchable "outside opening hours"
  | LeadTime _ _ => Unpatchable "booking lead time not met"
  | MissingField field => Unpatchable ("missing field " ++ field)
  end.

(** Modelled from the spec: what a run of the validator reports, the trip it
    returns, the violations it patched and the reasons it could not patch; a
    patch is never invisible to the caller (section 4.4). *)
Record Report : Type := {
  result : Trip;
  patched : list Violation;
  unpatchable : list string
}.

(** Modelled from the spec: one step of the patch pass, auto-patch on the
    trip as patched so far. *)
Definition patch_step (r : Report) (v : Violation) : Report :=
  match auto_patch v (result r) with
  | Patched t' =>
      {| result := t'; patched := patched r ++ [v]; unpatchable := unpatchable r |}
  | Unpatchable reason =>
      {| result := result r; patched := patched r;
         unpatchable := unpatchable r ++ [reason] |}
  end.

(** Modelled from the spec: the text a violation is recorded with in
    validation_errors. *)
Definition describe (v : Violation) : string :=
  match v with
  | Overlap _ => "overlap"
  | OverCap _ => "per-day cap exceeded"
  | OutsideHours _ _ => "outside opening hours"
  | LeadTime _ _ => "booking lead time not met"
  | DuplicatePoi _ => "duplicate POI"
  | MissingField field => "missing field " ++ field
  end.

(** Modelled from the spec: zero violations. *)
Definition no_violation (vs : list Violation) : bool :=
  match vs with
  | [] => true
  | _ :: _ => false
  end.

(** Modelled from the spec: section 4.4. One patch pass over the violations
    found, in the order of the checks; every patch and every unpatchable
    violation is recorded in validation_errors; the checks run once more on
    the patched trip, and the trip is completed only when nothing was
    unpatchable and nothing is left unresolved. *)
Definition validate (t : Trip) : Report :=
  let pass :=
    fold_left patch_step (violations t)
      {| result := t; patched := []; unpatchable := [] |} in
  let unresolved := violations (result pass) in
  let verdict :=
    match unpatchable pass, unresolved with
    | [], [] => completed
    | _, _ => failed
    end in
  {| result :=
       {| trip_id := trip_id (result pass);
          status := verdict;
          city := city (result pass);
          constraints := constraints (result pass);
          days := days (result pass);
          validation_errors :=
            validation_errors (result pass)
            ++ map (fun v => ("patched: " ++ describe v)%string) (patched pass)
            ++ unpatchable pass
            ++ map (fun v => ("unresolved: " ++ describe v)%string) unresolved |};
     patched := patched pass;
     unpatchable := unpatchable pass |}.

(** Modelled from the spec: what create answers, a Trip or an InputError
    (sections 6 and 7). *)
Inductive Created : Type :=
| Ok (t : Trip)
| InputError (reason : string).

(** Modelled from the spec: create (sections 2 and 6). Malformed constraints
    are rejected before scheduling; otherwise the pool is ordered, every date
    of the range is scheduled, and the raw schedule goes through the
    validator. *)
Definition create (id city_name : string) (c : TripConstraints) (poiPool : list POI)
    : Created :=
  if end_date c <? start_date c then InputError "end date before start date"
  else
    let ds :=
      schedule_days c (prioritise poiPool) 0 (start_date c) (calendar_span c) [] in
    Ok (result
          (validate
             {| trip_id := id; status := processing; city := city_name;
                constraints := c; days := ds;
                validation_errors := empty_day_notes ds |})).

End WithSettings.
End Engine.

(** ** The edit engine

    Like the scheduler and the validator, the edit engine runs on the
    server and is modelled from the design document. *)

Module EditEngine.
Import Engine.
Local Open Scope Z_scope.

(** Modelled from the spec: the action of an EditOperation (section 3). *)
Inductive Action : Type := add | remove | replace | move.

(** Modelled from the spec: the payload of an EditOperation, a POI
    reference or a search hint (section 3). *)
Inductive Payload : Type :=
| PoiReference (p : POI)
| SearchHint (tag : string).

(** Modelled from the spec: EditOperation (section 3). A slot is named by
    the start time of its block, as in 'day 2 slot 14:00' (section 8). *)
Record EditOperation : Type := {
  target_day : option nat;
  target_slot : option Z;
  action : Action;
  payload : Payload
}.

(** Modelled from the spec: edit(trip, operation) -> Trip' | Failure(reason)
    (section 6); the failure is an EditConflict and comes with the prior
    snapshot (sections 4.5 and 7). *)
Inductive Outcome : Type :=
| Edited (t : Trip)
| EditConflict (reason : string) (prior : Trip).

Section WithSettings.
Variable cfg : Settings.

(** Modelled from the spec: the candidate pool of an operation, the POI
    referred to or the POIs of the pool that carry the hint (section 4.5,
    replace). *)
Definition candidates (pool : list POI) (p : Payload) : list POI :=
  match p with
  | PoiReference q => [q]
  | SearchHint tag => filter (fun q => existsb (String.eqb tag) (poi_tags q)) pool
  end.

(** Modelled from the spec: the Day Scheduler's single-slot routine, one
    turn of the per-day loop from a cursor in a window that closes at
    [limit] (section 4.5, replace). *)
Definition single_slot (index : nat) (weekday limit : Z) (cands : list POI)
    (cursor : Z) (cursor_poi : option POI) (used_ids : list Z) : option TimeBlock :=
  hd_error (fst (day_loop cfg index weekday limit cands 1 cursor cursor_poi used_ids)).

(** Modelled from the spec: a block moved backward by the freed time
    (section 4.5, remove). *)
Definition shift_back (freed : Z) (b : TimeBlock) : TimeBlock :=
  {| day_index := day_index b;
     start := start b - freed;
     finish := finish b - freed;
     poi := poi b;
     travel_from_previous := travel_from_previous b;
     low_confidence := low_confidence b |}.

(** Modelled from the spec: remove, delete the block and compress later
    blocks backward by the freed time (section 4.5). The answer is the block
    deleted and the blocks left, or nothing when no block starts at the
    slot. *)
Fixpoint remove_block (slot : Z) (bs : list TimeBlock)
    : option (TimeBlock * list TimeBlock) :=
  match bs with
  | [] => None
  | b :: rest =>
      if start b =? slot then Some (b, map (shift_back (finish b - start b)) rest)
      else
        match remove_block slot rest with
        | Some (removed, rest') => Some (removed, b :: rest')
        | None => None
        end
  end.

(** Modelled from the spec: replace, remove the target block and refill
    that slot by the single-slot routine, restricted to the window of the
    slot and to the candidates of the hint (section 4.5). *)
Fixpoint replace_block (index : nat) (weekday : Z) (cands : list POI)
    (used_ids : list Z) (slot : Z) (previous : option POI) (bs : list TimeBlock)
    : option (list TimeBlock) :=
  match bs with
  | [] => None
  | b :: rest =>
      if start b =? slot then
        match
          single_slot index weekday (finish b) cands
            (start b - travel_from_previous b) previous used_ids
        with
        | Some new => Some (new :: rest)
        | None => None
        end
      else
        match replace_block index weekday cands used_ids slot (Some (poi b)) rest with
        | Some rest' => Some (b :: rest')
        | None => None
        end
  end.

(** Modelled from the spec: a gap of a day, where a block could be inserted
    (section 4.5, add): its position among the blocks, the cursor it opens
    at, the POI under the cursor and the time it closes at. *)
Record Gap : Type := {
  position : nat;
  opens_at : Z;
  after : option POI;
  closes_at : Z
}.

(** Modelled from the spec: the gaps of a day, before each block and after
    the last one, until the day window closes (section 4.5, add). *)
Fixpoint gaps_from (pos : nat) (cursor : Z) (cursor_poi : option POI) (closes : Z)
    (bs : list TimeBlock) : list Gap :=
  match bs with
  | [] =>
      [ {| position := pos; opens_at := cursor; after := cursor_poi;
           closes_at := closes |} ]
  | b :: rest =>
      {| position := pos; opens_at := cursor; after := cursor_poi;
         closes_at := start b - travel_from_previous b - gap cfg |}
      :: gaps_from (S pos) (finish b + gap cfg) (Some (poi b)) closes rest
  end.

(** Modelled from the spec: the gaps a candidate fits in, each with the
    block the single-slot routine puts there (section 4.5, add). *)
Definition placements (index : nat) (weekday : Z) (cands : list POI)
    (used_ids : list Z) (gaps : list Gap) : list (Gap * TimeBlock) :=
  flat_map
    (fun g =>
       match
         single_slot index weekday (closes_at g) cands (opens_at g) (after g) used_ids
       with
       | Some b => [(g, b)]
       | None => []
       end)
    gaps.

(** Modelled from the spec: the time a placement leaves over in its gap. *)
Definition slack (placement : Gap * TimeBlock) : Z :=
  closes_at (fst placement) - finish (snd placement).

(** Modelled from the spec: the best-fitting gap, read as the one with the
    least time left over, the earliest of equals (section 4.5, add). *)
Fixpoint best_fit (ps : list (Gap * TimeBlock)) : option (Gap * TimeBlock) :=
  match ps with
  | [] => None
  | p :: rest =>
      match best_fit rest with
      | None => Some p
      | Some q => if slack q <? slack p then Some q else Some p
      end
  end.

(** Modelled from the spec: the least-popular block of a day, the earliest
    of equals (section 4.5, add). *)
Fixpoint least_popular (bs : list TimeBlock) : option TimeBlock :=
  match bs with
  | [] => None
  | b :: rest =>
      match least_popular rest with
      | None => Some b
      | Some q =>
          if poi_popularity (poi q) <? poi_popularity (poi b) then Some q else Some b
      end
  end.

(** Modelled from the spec: add, insert into the best-fitting gap of the
    day; if the activity cap of the day is exceeded, evict the least-popular
    existing block and report it (section 4.5). The answer is the new blocks
    and what is reported, or nothing when no gap takes a candidate. *)
Definition add_block (c : TripConstraints) (index : nat) (weekday : Z)
    (cands : list POI) (used_ids : list Z) (bs : list TimeBlock)
    : option (list TimeBlock * list string) :=
  let '(opens, closes) := window_of cfg (pace c) in
  match best_fit (placements index weekday cands used_ids (gaps_from 0 opens None closes bs)) with
  | None => None
  | Some (g, new) =>
      let inserted := firstn (position g) bs ++ new :: skipn (position g) bs in
      if Nat.leb (List.length inserted) (activity_cap c) then Some (inserted, [])
      else
        match least_popular bs with
        | None => None
        | Some victim =>
            Some (filter (fun b => negb (poi_id (poi b) =? poi_id (poi victim))) inserted,
                  [("evicted: " ++ poi_name (poi victim))%string])
        end
  end.

(** Modelled from the spec: the four actions on the blocks of one day
    (section 4.5); move is remove and re-add under the rules of add. An
    action that names no slot, or a slot no block starts at, finds nothing
    to act on. *)
Definition edit_day (pool : list POI) (t : Trip) (op : EditOperation) (i : nat) (d : Day)
    : option (list TimeBlock * list string) :=
  let weekday := date d mod 7 in
  let used_ids := all_ids t in
  match action op, target_slot op with
  | add, _ =>
      add_block (constraints t) i weekday (candidates pool (payload op)) used_ids
        (blocks d)
  | remove, Some slot =>
      match remove_block slot (blocks d) with
      | Some (_, rest) => Some (rest, [])
      | None => None
      end
  | replace, Some slot =>
      match
        replace_block i weekday (candidates pool (payload op)) used_ids slot None
          (blocks d)
      with
      | Some bs => Some (bs, [])
      | None => None
      end
  | move, Some slot =>
      match remove_block slot (blocks d) with
      | Some (removed, rest) =>
          add_block (constraints t) i weekday [poi removed]
            (filter (fun id => negb (id =? poi_id (poi removed))) used_ids) rest
      | None => None
      end
  | _, None => None
  end.

(** Modelled from the spec: the target day, or the days to choose from when
    the operation names none (sections 3 and 4.5). *)
Definition target_days (t : Trip) (op : EditOperation) : list nat :=
  match target_day op with
  | Some i => [i]
  | None => seq 0 (List.length (days t))
  end.

(** Modelled from the spec: the first of the days in question that takes
    the edit, with its new blocks and what is reported. *)
Fixpoint first_edit (pool : list POI) (t : Trip) (op : EditOperation) (indices : list nat)
    : option (nat * (list TimeBlock * list string)) :=
  match indices with
  | [] => None
  | i :: rest =>
      match nth_error (days t) i with
      | Some d =>
          match edit_day pool t op i d with
          | Some r => Some (i, r)
          | None => first_edit pool t op rest
          end
      | None => first_edit pool t op rest
      end
  end.

(** Modelled from the spec: a violation of the checks (a) to (d) on one
    day; only the touched day is re-validated (section 4.5). *)
Definition concerns (i : nat) (v : Violation) : bool :=
  match v with
  | Overlap d | OverCap d | OutsideHours d _ | LeadTime d _ => Nat.eqb d i
  | DuplicatePoi _ | MissingField _ => false
  end.

(** Modelled from the spec: the validator scoped to one day (sections 2
    and 4.5): the patch pass and the re-check of section 4.4 over the
    violations of that day. *)
Definition validate_day (i : nat) (t : Trip) : Report :=
  let pass :=
    fold_left patch_step (filter (concerns i) (violations cfg t))
      {| result := t; patched := []; unpatchable := [] |} in
  let unresolved := filter (concerns i) (violations cfg (result pass)) in
  let verdict :=
    match unpatchable pass, unresolved with
    | [], [] => completed
    | _, _ => failed
    end in
  {| result :=
       {| trip_id := trip_id (result pass);
          status := verdict;
          city := city (result pass);
          constraints := constraints (result pass);
          days := days (result pass);
          validation_errors :=
            validation_errors (result pass)
            ++ map (fun v => ("patched: " ++ describe v)%string) (patched pass)
            ++ unpatchable pass
            ++ map (fun v => ("unresolved: " ++ describe v)%string) unresolved |};
     patched := patched pass;
     unpatchable := unpatchable pass |}.

(** Modelled from the spec: a new Trip with the blocks of one day replaced
    and what the edit reports recorded; the other days are carried over
    unchanged and the prior snapshot is not touched (section 4.5). *)
Definition with_day (t : Trip) (i : nat) (bs : list TimeBlock) (notes : list string) : Trip :=
  {| trip_id := trip_id t; status := status t; city := city t;
     constraints := constraints t;
     days := days (patch_day i (fun _ => bs) t);
     validation_errors := validation_errors t ++ notes |}.

(** Modelled from the spec: edit (sections 4.5 and 6). It operates on a
    prior completed Trip; the touched day is rescheduled and re-validated;
    when no slot can accommodate the edit, or the edit is infeasible, the
    operation is rejected with an EditConflict and the prior snapshot is
    returned unchanged. *)
Definition edit (pool : list POI) (t : Trip) (op : EditOperation) : Outcome :=
  match status t with
  | completed =>
      match first_edit pool t op (target_days t op) with
      | None => EditConflict "no slot can accommodate the edit" t
      | Some (i, (bs, notes)) =>
          let report := validate_day i (with_day t i bs notes) in
          match status (result report) with
          | completed => Edited (result report)
          | _ => EditConflict "the edit is infeasible" t
          end
      end
  | _ => EditConflict "the trip is not completed" t
  end.

(** Modelled from the spec: the lifecycle of a Trip (section 3): created
    once by the Day Scheduler pipeline, subsequently only replaced by
    successful edits. *)
Inductive Produced : Trip -> Prop :=
| produced_by_create (id city_name : string) (c : TripConstraints) (poiPool : list POI)
    (t : Trip) :
    create cfg id city_name c poiPool = Ok t -> Produced t
| produced_by_edit (pool : list POI) (t : Trip) (op : EditOperation) (t' : Trip) :
    Produced t -> edit pool t op = Edited t' -> Produced t'.

End WithSettings.
End EditEngine.

(** ** Vocabulary of the statements *)

Module Vocabulary.
Import Api.

(** [needle] occurs in [hay]. *)
Definition contains (hay needle : string) : Prop :=
  exists before after, hay = (before ++ needle ++ after)%string.

(** How a single GET settles the polling loop, if it does: [None] when the
    loop goes on to the next attempt. *)
Definition decides (f : Fetched TripResponse.t) : option (Promise TripResponse.t) :=
  match getTrip f with
  | Rejected e => Some (Rejected e)
  | Resolved trip =>
      if String.eqb (TripResponse.status trip) "completed" then Some (Resolved trip)
      else if String.eqb (TripResponse.status trip) "failed" then
        Some (Rejected (Error (failure_message trip)))
      else None
  end.

(** The first [k] GETs all leave the loop running. *)
Definition undecided_before (server : Server) (k : nat) : Prop :=
  forall j, (j < k)%nat -> decides (server j) = None.

(** A trip the server may send once generation is over: no [errors] field. *)
Definition finished_trip : TripResponse.t :=
  {| TripResponse.trip_id := "trip_12345";
     TripResponse.status := "completed";
     TripResponse.city := "New York";
     TripResponse.origin := "Buffalo";
     TripResponse.start_date := "2025-12-20";
     TripResponse.end_date := "2025-12-24";
     TripResponse.days := Some [];
     TripResponse.booking_links :=
       {| BookingLinks.flights := "https://www.google.com/travel/flights";
          BookingLinks.hotels := "https://www.booking.com" |};
     TripResponse.errors := None |}.

Definition reply_with (code : Z) (text : string) (trip : TripResponse.t)
    : Fetched TripResponse.t :=
  Reply {| status := code; statusText := text; body := Json trip |}.

Definition with_status (s : string) (trip : TripResponse.t) : TripResponse.t :=
  {| TripResponse.trip_id := TripResponse.trip_id trip;
     TripResponse.status := s;
     TripResponse.city := TripResponse.city trip;
     TripResponse.origin := TripResponse.origin trip;
     TripResponse.start_date := TripResponse.start_date trip;
     TripResponse.end_date := TripResponse.end_date trip;
     TripResponse.days := TripResponse.days trip;
     TripResponse.booking_links := TripResponse.booking_links trip;
     TripResponse.errors := TripResponse.errors trip |}.

Definition busy_message : string := "Trip is still being generated. Please wait.".

End Vocabulary.

(** Vocabulary of the statements about the exports. *)

Module ExportVocabulary.

(** The escape of one character in iCalendar text. *)
Definition escape_char (a : ascii) : string :=
  if Ascii.eqb a "\" then "\\"
  else if Ascii.eqb a "," then "\,"
  else if Ascii.eqb a ";" then "\;"
  else if Ascii.eqb a (ascii_of_nat 10) then "\n"
  else String a EmptyString.

(** A text with every backslash, comma, semicolon and newline escaped. *)
Fixpoint escape (s : string) : string :=
  match s with
  | EmptyString => EmptyString
  | String a rest => (escape_char a ++ escape rest)%string
  end.

(** Reading an escaped text back. *)
Fixpoint unescape (s : string) : string :=
  match s with
  | EmptyString => EmptyString
  | String a rest =>
      if Ascii.eqb a "\" then
        match rest with
        | EmptyString => String a EmptyString
        | String b rest' =>
            String (if Ascii.eqb b "n" then ascii_of_nat 10 else b) (unescape rest')
        end
      else String a (unescape rest)
  end.

(** The activities of a trip with the day each belongs to and the index
    generateICS numbers it with, day by day and in the order of each day. *)
Fixpoint numbered_from (dayIndex : nat) (days : list TripDay.t)
    : list (TripDay.t * TripActivity.t * Z) :=
  match days with
  | [] => []
  | day :: rest =>
      CalendarExport.mapi
        (fun activity activityIndex =>
           (day, activity, (Z.of_nat dayIndex * 100 + Z.of_nat activityIndex)%Z))
        (TripDay.activities day)
      ++ numbered_from (S dayIndex) rest
  end.

Definition numbered (trip : Trip.t) : list (TripDay.t * TripActivity.t * Z) :=
  numbered_from 0 (Trip.days trip).

(** The activities of a trip, in day order then activity order. *)
Definition all_activities (trip : Trip.t) : list TripActivity.t :=
  flat_map TripDay.activities (Trip.days trip).

(** The four chained replacements of sanitize. *)
Definition chain (v : string) : string :=
  replace_all (ascii_of_nat 10) "\n"
    (replace_all ";" "\;" (replace_all "," "\," (replace_all "\" "\\" v))).

(** The event of one numbered activity. *)
Definition build {runtime : JsRuntime} (city stamp : string)
    (e : TripDay.t * TripActivity.t * Z) : string :=
  let '(day, activity, index) := e in
  CalendarExport.buildEvent activity day city stamp index.

End ExportVocabulary.

(** Vocabulary of the statements about the engine, and a sample planning
    session: the pool and the day window of the scenario of section 8. *)

Module EngineVocabulary.
Import Engine.
Local Open Scope Z_scope.

(** Within a day, every block starts no earlier than the end of the block
    before it plus its own travel time. *)
Definition travel_buffered (bs : list TimeBlock) : Prop :=
  forall i b1 b2,
    nth_error bs i = Some b1 -> nth_error bs (S i) = Some b2 ->
    finish b1 + travel_from_previous b2 <= start b2.

(** The dates from [day] on, [count] of them. *)
Fixpoint dates_from (day : Z) (count : nat) : list Z :=
  match count with
  | O => []
  | S count' => day :: dates_from (day + 1) count'
  end.

(** The patch pass of the validator: the state after the violations found
    were handed to auto-patch, before the checks run once more. *)
Definition pass (cfg : Settings) (t : Trip) : Report :=
  fold_left patch_step (violations cfg t)
    {| result := t; patched := []; unpatchable := [] |}.

Definition sample_settings : Settings :=
  {| travel_time := fun cursor_poi _ =>
                      match cursor_poi with
                      | None => 0
                      | Some _ => 15
                      end;
     w1 := 10; w2 := 1; w3 := 5; gap := 10;
     window_of := fun _ => (540, 1200);
     count_of := fun _ => 2%nat;
     default_duration := 60;
     lead_time_ok := fun _ _ => true |}.

Definition poi_A : POI :=
  {| poi_id := 1; poi_name := "A"; poi_tags := ["view"%string];
     poi_duration_min := Some 60; poi_popularity := 900;
     poi_booking_required := false;
     poi_hours := fun _ => Window 480 1320 |}.

Definition poi_B : POI :=
  {| poi_id := 2; poi_name := "B"; poi_tags := ["museum"%string];
     poi_duration_min := Some 90; poi_popularity := 700;
     poi_booking_required := false;
     poi_hours := fun _ => Window 600 720 |}.

Definition sample_constraints : TripConstraints :=
  {| start_date := 20442; end_date := 20443; origin := "Buffalo";
     preferred_tags := []; avoided_tags := [];
     pace := moderate; activity_cap := 3 |}.

(** The raw schedule of the sample session, before validation. *)
Definition sample_raw : Trip :=
  let ds :=
    schedule_days sample_settings sample_constraints
      (prioritise [poi_B; poi_A]) 0 (start_date sample_constraints)
      (calendar_span sample_constraints) [] in
  {| trip_id := "trip_1"; status := processing; city := "New York";
     constraints := sample_constraints; days := ds;
     validation_errors := empty_day_notes ds |}.

Definition sample_trip : Trip := result (validate sample_settings sample_raw).

Definition sample_day : Day :=
  {| date := 20442;
     blocks :=
       [ {| day_index := 0; start := 540; finish := 600; poi := poi_A;
            travel_from_previous := 0; low_confidence := None |};
         {| day_index := 0; start := 625; finish := 715; poi := poi_B;
            travel_from_previous := 15; low_confidence := None |} ] |}.

End EngineVocabulary.

(** Vocabulary of the statements about edits. *)

Module EditVocabulary.
Import Engine EditEngine EngineVocabulary.
Local Open Scope Z_scope.

(** The removal of B, the block that starts at 10:25 on the first day of the
    sample session. *)
Definition sample_removal : EditOperation :=
  {| target_day := Some 0%nat; target_slot := Some 625; action := remove;
     payload := PoiReference poi_B |}.

(** The sample session after that removal. *)
Definition sample_edited : Trip :=
  match edit sample_settings [poi_B; poi_A] sample_trip sample_removal with
  | Edited t => t
  | EditConflict _ prior => prior
  end.

(** A replacement by a museum, asked of a pool without one (section 8). *)
Definition museum_replacement : EditOperation :=
  {| target_day := Some 0%nat; target_slot := Some 625; action := replace;
     payload := SearchHint "museum" |}.

End EditVocabulary.

(** Sample inputs the statements are evaluated on. *)

Module Samples.
Import Api Vocabulary.

(** A server that answers 'processing' twice and then [last]. *)
Definition server_after_two (last : TripResponse.t) : Server :=
  fun attempt =>
    match attempt with
    | 0%nat | 1%nat => reply_with 200 "OK" (with_status "processing" finished_trip)
    | _ => reply_with 200 "OK" last
    end.

Definition failed_trip : TripResponse.t :=
  {| TripResponse.trip_id := "trip_12345";
     TripResponse.status := "failed";
     TripResponse.city := "New York";
     TripResponse.origin := "Buffalo";
     TripResponse.start_date := "2025-12-20";
     TripResponse.end_date := "2025-12-24";
     TripResponse.days := None;
     TripResponse.booking_links :=
       {| BookingLinks.flights := ""; BookingLinks.hotels := "" |};
     TripResponse.errors := Some ["no POIs found"; "planner timed out"] |}.

Definition digit_value (a : ascii) : option Z :=
  let n := nat_of_ascii a in
  if (Nat.leb 48 n && Nat.leb n 57)%bool then Some (Z.of_nat (n - 48)) else None.

Fixpoint digits_value (acc : Z) (s : string) : option Z :=
  match s with
  | EmptyString => Some acc
  | String a rest =>
      match digit_value a with
      | Some d => digits_value (acc * 10 + d)%Z rest
      | None => None
      end
  end.

(** A stand-in for the runtime, for evaluation only: every date string names
    midnight of 20 December 2025, local time is UTC, and [Number] reads
    decimal digits. *)
Definition sample_runtime : JsRuntime :=
  {| date_parse := fun s => if is_empty s then None else Some 0%Z;
     date_setHours := fun d h m =>
       num_add d (num_add (num_mul h (Some 3600000%Z)) (num_mul m (Some 60000%Z)));
     to_number := digits_value 0;
     getFullYear := fun _ => 2025%Z;
     getMonth := fun _ => 11%Z;
     getDate := fun t => (20 + t / 86400000)%Z;
     getUTCFullYear := fun _ => 2025%Z;
     getUTCMonth := fun _ => 11%Z;
     getUTCDate := fun t => (20 + t / 86400000)%Z;
     getUTCHours := fun t => ((t / 3600000) mod 24)%Z;
     getUTCMinutes := fun t => ((t / 60000) mod 60)%Z;
     getUTCSeconds := fun t => ((t / 1000) mod 60)%Z;
     float_toString := fun _ => "40.7223";
     date_now := Some 0%Z |}.

Definition pizza : TripActivity.t :=
  {| TripActivity.time := "09:30";
     TripActivity.type := "food";
     TripActivity.name := "Joe's Pizza, SoHo";
     TripActivity.lat := 40.5%float;
     TripActivity.lon := (-74)%float;
     TripActivity.duration_min := None;
     TripActivity.booking_required := Some true;
     TripActivity.booking_url := Some "https://example.com/a;b";
     TripActivity.notes := None |}.

Definition first_day : TripDay.t :=
  {| TripDay.date := "2025-12-20"; TripDay.activities := [pizza] |}.

Definition weekend : Trip.t :=
  {| Trip.trip_id := None; Trip.status := None; Trip.city := "New York";
     Trip.origin := None; Trip.start_date := "2025-12-20"; Trip.end_date := None;
     Trip.days := [first_day]; Trip.booking_links := None |}.

End Samples.

(** ** The Date of the runtime, as ECMAScript defines it

    The sources leave dates to the runtime. Where a statement depends on
    what the runtime does with them, this is the instance it is read on: the
    time values, the calendar and the date-time string format of ECMA-262
    (section 21.4.1), in a time zone of a fixed offset. *)

Module EcmaDate.
Local Open Scope Z_scope.

Definition msPerDay : Z := 86400000.

(** [Day(t)] and the local time of a time value; [tza] is the offset of
    the local zone in milliseconds, negative west of Greenwich. *)
Definition Day (t : Z) : Z := t / msPerDay.

Definition LocalTime (tza t : Z) : Z := t + tza.

Definition UTC (tza t : Z) : Z := t - tza.

(** The number of the first day of a year, [DayFromYear(y)]. *)
Definition DayFromYear (y : Z) : Z :=
  365 * (y - 1970) + (y - 1969) / 4 - (y - 1901) / 100 + (y - 1601) / 400.

(** The year, the month from 1 and the day of the month of a day number, in
    the proleptic Gregorian calendar, by the usual closed form over eras of
    400 years that start on 1 March. *)
Definition civil (day : Z) : Z * Z * Z :=
  let z := day + 719468 in
  let era := z / 146097 in
  let doe := z - era * 146097 in
  let yoe := (doe - doe / 1460 + doe / 36524 - doe / 146096) / 365 in
  let doy := doe - (365 * yoe + yoe / 4 - yoe / 100) in
  let mp := (5 * doy + 2) / 153 in
  let d := doy - (153 * mp + 2) / 5 + 1 in
  let m := if mp <? 10 then mp + 3 else mp - 9 in
  let y := yoe + era * 400 in
  (if m <=? 2 then y + 1 else y, m, d).

(** [MakeDay(year, month, date)], the month from 0. *)
Definition MakeDay (year month date : Z) : Z :=
  let m := month + 1 in
  let y := if m <=? 2 then year - 1 else year in
  let era := y / 400 in
  let yoe := y - era * 400 in
  let mp := if 2 <? m then m - 3 else m + 9 in
  let doy := (153 * mp + 2) / 5 + date - 1 in
  let doe := yoe * 365 + yoe / 4 - yoe / 100 + doy in
  era * 146097 + doe - 719468.

Definition MakeTime (hour min sec ms : Z) : Z :=
  hour * 3600000 + min * 60000 + sec * 1000 + ms.

Definition MakeDate (day time : Z) : Z := day * msPerDay + time.

Definition YearFromTime (t : Z) : Z := fst (fst (civil (Day t))).

(** [MonthFromTime(t)], from 0. *)
Definition MonthFromTime (t : Z) : Z := snd (fst (civil (Day t))) - 1.

Definition DateFromTime (t : Z) : Z := snd (civil (Day t)).

Definition HourFromTime (t : Z) : Z := (t / 3600000) mod 24.

Definition MinFromTime (t : Z) : Z := (t / 60000) mod 60.

Definition SecFromTime (t : Z) : Z := (t / 1000) mod 60.

Definition digit (a : ascii) : option Z :=
  let n := nat_of_ascii a in
  if (Nat.leb 48 n && Nat.leb n 57)%bool then Some (Z.of_nat (n - 48)) else None.

Fixpoint number (acc : Z) (s : string) : option Z :=
  match s with
  | EmptyString => Some acc
  | String a rest =>
      match digit a with
      | Some d => number (acc * 10 + d) rest
      | None => None
      end
  end.

(** The decimal number in the [len] characters of [s] from [from] on. *)
Definition field (s : string) (from len : nat) : option Z :=
  let piece := String.substring from len s in
  if Nat.eqb (String.length piece) len then number 0 piece else None.

Definition mark (s : string) (position : nat) (c : ascii) : bool :=
  match String.get position s with
  | Some a => Ascii.eqb a c
  | None => false
  end.

(** The date of the string format, [YYYY-MM-DD]; a day beyond the end of
    its month counts on into the next. *)
Definition parse_date (s : string) : option Z :=
  match field s 0 4, field s 5 2, field s 8 2 with
  | Some y, Some m, Some d =>
      if (mark s 4 "-" && mark s 7 "-"
          && (1 <=? m) && (m <=? 12) && (1 <=? d) && (d <=? 31))%bool
      then Some (MakeDay y (m - 1) d)
      else None
  | _, _, _ => None
  end.

(** The time of the string format, [THH:mm:ss] after the date. *)
Definition parse_time (s : string) : option Z :=
  match field s 11 2, field s 14 2, field s 17 2 with
  | Some h, Some m, Some sec =>
      if (mark s 10 "T" && mark s 13 ":" && mark s 16 ":"
          && (h <=? 23) && (m <=? 59) && (sec <=? 59))%bool
      then Some (MakeTime h m sec 0)
      else None
  | _, _, _ => None
  end.

(** [Date.parse(s)] on the two forms the sources build: with no offset
    written, a date-only form is a UTC time and a date-time form is a local
    time. Any other text is an invalid date here. *)
Definition parse (tza : Z) (s : string) : TimeValue :=
  if Nat.eqb (String.length s) 10 then
    match parse_date s with
    | Some day => timeClip (Some (MakeDate day 0))
    | None => None
    end
  else if Nat.eqb (String.length s) 19 then
    match parse_date s, parse_time s with
    | Some day, Some time => timeClip (Some (UTC tza (MakeDate day time)))
    | _, _ => None
    end
  else None.

(** [d.setHours(h, m, 0, 0)]: the same local day, at another time. *)
Definition setHours (tza : Z) (d : TimeValue) (h m : num) : TimeValue :=
  match d, h, m with
  | Some t, Some hour, Some min =>
      timeClip (Some (UTC tza (MakeDate (Day (LocalTime tza t)) (MakeTime hour min 0 0))))
  | _, _, _ => None
  end.

(** The runtime in a zone of offset [tza]; the printing of coordinates and
    the clock are not dates and are taken as they come. *)
Definition runtime (tza : Z) (print : float -> string) (now : TimeValue) : JsRuntime :=
  {| date_parse := parse tza;
     date_setHours := setHours tza;
     to_number := number 0;
     getFullYear := fun t => YearFromTime (LocalTime tza t);
     getMonth := fun t => MonthFromTime (LocalTime tza t);
     getDate := fun t => DateFromTime (LocalTime tza t);
     getUTCFullYear := YearFromTime;
     getUTCMonth := MonthFromTime;
     getUTCDate := DateFromTime;
     getUTCHours := HourFromTime;
     getUTCMinutes := MinFromTime;
     getUTCSeconds := SecFromTime;
     float_toString := print;
     date_now := now |}.

End EcmaDate.

(** Vocabulary of the statements about time zones. *)

Module ZoneVocabulary.
Import EcmaDate.
Local Open Scope Z_scope.

(** The text of a calendar day, year, month and day of the month: the ISO
    form for the years of four digits. *)
Definition day_text (day : Z) : string :=
  let '(y, m, d) := civil day in
  (num_toString (Some y) ++ "-" ++ padStart0 2 (num_toString (Some m))
   ++ "-" ++ padStart0 2 (num_toString (Some d)))%string.

(** The days from 1 January 2020 to 31 December 2039, by their numbers. *)
Definition first_checked : Z := 18262.

Definition last_checked : Z := 25566.

Definition checked_days : list Z :=
  map (fun k => first_checked + Z.of_nat k)
    (seq 0 (Z.to_nat (last_checked - first_checked + 1))).

(** New York in winter, five hours west of Greenwich. *)
Definition new_york : Z := -5 * 3600000.

(** A trip from 20 to 24 December 2025 with no link of its own. *)
Definition december_trip : Trip.t :=
  {| Trip.trip_id := Some "trip_12345"; Trip.status := Some "completed";
     Trip.city := "New York"; Trip.origin := Some "Buffalo";
     Trip.start_date := "2025-12-20"; Trip.end_date := Some "2025-12-24";
     Trip.days := []; Trip.booking_links := None |}.

Definition no_print : float -> string := fun _ => "0".

End ZoneVocabulary.

(** ** More of the client: what the pages and the other exports add *)

(** utils/travelLinks.ts: the flights link. *)
Module FlightsLink.

(** [date.toLocaleDateString("en-US", { month: "short", day: "numeric" })],
    which the runtime provides. *)
Class JsLocale : Type := {
  toLocaleDateString : TimeValue -> string
}.

Section WithRuntime.
Context {runtime : JsRuntime} {locale : JsLocale}.

(** The en dash of the range label, as its three UTF-8 bytes. *)
Definition en_dash : string :=
  String (ascii_of_nat 226) (String (ascii_of_nat 128)
    (String (ascii_of_nat 147) EmptyString)).

Definition formatRangeLabel (start finish : TimeValue) : string :=
  (toLocaleDateString start ++ " " ++ en_dash ++ " " ++ toLocaleDateString finish)%string.

(** The characters encodeURIComponent leaves as they are. *)
Definition is_unreserved (a : ascii) : bool :=
  let n := nat_of_ascii a in
  ((Nat.leb 48 n && Nat.leb n 57)
   || (Nat.leb 65 n && Nat.leb n 90)
   || (Nat.leb 97 n && Nat.leb n 122)
   || Nat.eqb n 45 || Nat.eqb n 95 || Nat.eqb n 46 || Nat.eqb n 33
   || Nat.eqb n 126 || Nat.eqb n 42 || Nat.eqb n 39 || Nat.eqb n 40
   || Nat.eqb n 41)%bool.

Definition encode_byte (a : ascii) : string :=
  let n := nat_of_ascii a in
  if is_unreserved a then String a EmptyString
  else ("%" ++ TravelLinks.hex_digit (Nat.div n 16)
        ++ TravelLinks.hex_digit (Nat.modulo n 16))%string.

(** [encodeURIComponent(s)], on the UTF-8 bytes of [s]. *)
Fixpoint encodeURIComponent (s : string) : string :=
  match s with
  | EmptyString => EmptyString
  | String a rest => (encode_byte a ++ encodeURIComponent rest)%string
  end.

Definition flights_window (trip : Trip.t) : string :=
  formatRangeLabel (TravelLinks.getStartDate trip) (TravelLinks.getEndDate trip).

Definition flights_query (trip : Trip.t) : string :=
  ("Flights to " ++ Trip.city trip ++ " " ++ flights_window trip)%string.

Definition generatedUrl (trip : Trip.t) : string :=
  ("https://www.google.com/travel/flights?q="
   ++ encodeURIComponent (flights_query trip))%string.

Record Link : Type := {
  url : string;
  window : string
}.

Definition buildFlightsLink (trip : Trip.t) : Link :=
  {| url :=
       match Trip.booking_links trip with
       | Some links =>
           match TripLinks.flights links with
           | Some flights => flights
           | None => generatedUrl trip
           end
       | None => generatedUrl trip
       end;
     window := flights_window trip |}.

End WithRuntime.
End FlightsLink.

(** components/ItineraryTimeline.tsx: the label of a duration. *)
Module DurationLabel.

(** [Math.floor(duration / 60)] is the floor quotient; [duration % 60] keeps
    the sign of the duration. A number is falsy when it is 0. *)
Definition durationLabel (duration : option Z) : option string :=
  match duration with
  | None => None
  | Some d =>
      if (d =? 0)%Z then None
      else
        let hours := (d / 60)%Z in
        let minutes := Z.rem d 60 in
        if (negb (hours =? 0)%Z && negb (minutes =? 0)%Z)%bool then
          Some (num_toString (Some hours) ++ "h "
                ++ num_toString (Some minutes) ++ "m")%string
        else if negb (hours =? 0)%Z then Some (num_toString (Some hours) ++ "h")%string
        else Some (num_toString (Some minutes) ++ "m")%string
  end.

End DurationLabel.

(** components/ChatPanel.tsx: the submit handler. *)
Module ChatPanel.

(** The props of the panel; a handler is either passed or not. *)
Record Props : Type := {
  onPlan : bool;
  onModify : bool;
  isPlanning : option bool;
  hasExistingTrip : option bool
}.

(** A call of one of the two handlers. *)
Inductive Call : Type :=
| plan (prompt : string)
| modify (instruction : string).

Section WithTrim.
(** [s.trim()], which the runtime provides. *)
Variable trim : string -> string.

Definition isDisabled (prompt : string) : bool :=
  Nat.eqb (String.length (trim prompt)) 0.

(** handleSubmit: the handler calls it makes and the prompt it leaves. *)
Definition handleSubmit (props : Props) (prompt : string) : list Call * string :=
  if isDisabled prompt then ([], prompt)
  else
    ((if (CalendarExport.nullish (hasExistingTrip props) false && onModify props)%bool
      then [modify (trim prompt)]
      else if onPlan props then [plan (trim prompt)] else []),
     ""%string).

End WithTrim.
End ChatPanel.

(** pages/Home.tsx: how the page wires the hook to the panel. *)
Module HomePage.
Import UseTrip.

(** [trip !== null && trip.status === 'completed'] *)
Definition hasPlan (s : HookState) : bool :=
  match trip s with
  | Some t => String.eqb (FrontendTrip.status t) "completed"
  | None => false
  end.

(** The props the page hands to the chat panel. *)
Definition panel_props (s : HookState) : ChatPanel.Props :=
  {| ChatPanel.onPlan := true;
     ChatPanel.onModify := true;
     ChatPanel.isPlanning := Some (isLoading s);
     ChatPanel.hasExistingTrip := Some (hasPlan s) |}.

End HomePage.

(** Vocabulary of the further statements. *)
Module CoverageVocabulary.
Import Api UseTrip.

(** The statuses of the trips the first [n] GETs resolve with, in order. *)
Definition resolved_statuses (server : Server) (n : nat) : list string :=
  flat_map
    (fun k => match getTrip (server k) with
              | Resolved trip => [TripResponse.status trip]
              | Rejected _ => []
              end)
    (seq 0 n).

(** The creation failed: the POST threw, or the polling after it did. *)
Definition create_throws (w : World TripTicket.t) : option JsError :=
  match createTrip (first_reply w) with
  | Rejected e => Some e
  | Resolved _ =>
      match settled (pollTripUntilComplete (server w) default_maxAttempts) with
      | Rejected e => Some e
      | Resolved _ => None
      end
  end.

(** An activity with two coordinates that are numbers. *)
Definition usable (activity : TripActivity.t) : bool :=
  (negb (isNaN (TripActivity.lat activity))
   && negb (isNaN (TripActivity.lon activity)))%bool.

(** What the serialisation of URLSearchParams emits for a name or a value:
    an ASCII letter or digit, one of the marks it leaves as they are, the
    plus sign of a space, or the percent sign of an escape. *)
Definition form_char (a : ascii) : bool :=
  (TravelLinks.is_urlencoded_safe a || Ascii.eqb a "+" || Ascii.eqb a "%")%bool.

(** The same, or one of the two separators of a serialised query. *)
Definition form_query_char (a : ascii) : bool :=
  (form_char a || Ascii.eqb a "&" || Ascii.eqb a "=")%bool.

(** What encodeURIComponent emits: a character it leaves as it is, or the
    percent sign of an escape. *)
Definition component_char (a : ascii) : bool :=
  (FlightsLink.is_unreserved a || Ascii.eqb a "%")%bool.

(** Every character of [s] passes [allowed]. *)
Definition made_of (allowed : ascii -> bool) (s : string) : Prop :=
  forall a, In a (list_ascii_of_string s) -> allowed a = true.

(** The characters that would end or split a query, or need escaping in
    one: space, double quote, number sign, slash, the angle brackets and the
    question mark. *)
Definition breaking : list ascii :=
  [" "%char; ascii_of_nat 34; "#"%char; "/"%char; "<"%char; ">"%char; "?"%char].

(** The marks encodeURIComponent leaves as they are and the serialisation
    of URLSearchParams escapes. *)
Definition sub_delims : list ascii := ["!"%char; "'"%char; "("%char; ")"%char; "~"%char].

(** A text without the four characters sanitize escapes. *)
Definition plain (s : string) : Prop :=
  forall a, In a (list_ascii_of_string s) ->
    a <> "\"%char /\ a <> ","%char /\ a <> ";"%char /\ a <> ascii_of_nat 10.

(** The UID line of a numbered activity. *)
Definition uid_line (stamp : string) (index : Z) : string :=
  ("UID:" ++ stamp ++ "-" ++ num_toString (Some index) ++ "@wandergenie")%string.

End CoverageVocabulary.

(** ** Facts about strings *)

Module StringFacts.

Lemma append_nil_r (s : string) : (s ++ "")%string = s.
Proof. induction s as [|a s IH]; simpl; [reflexivity|now rewrite IH]. Qed.

Lemma append_assoc (a b c : string) : ((a ++ b) ++ c)%string = (a ++ b ++ c)%string.
Proof. induction a as [|x a IH]; simpl; [reflexivity|now rewrite IH]. Qed.

Lemma length_append (a b : string) :
  String.length (a ++ b) = (String.length a + String.length b)%nat.
Proof. induction a as [|x a IH]; simpl; [reflexivity|now rewrite IH]. Qed.

Lemma append_empty_l (a b : string) : (a ++ b)%string = ""%string -> a = ""%string.
Proof. destruct a; [reflexivity|discriminate]. Qed.

End StringFacts.

(** ** Facts about services/api.ts *)

Module ApiFacts.
Import Api Vocabulary StringFacts.

Lemma decides_none_status f :
  decides f = None ->
  exists trip, getTrip f = Resolved trip
    /\ TripResponse.status trip <> "completed"
    /\ TripResponse.status trip <> "failed".
Proof.
  unfold decides. destruct (getTrip f) as [trip|e]; [|discriminate].
  destruct (String.eqb_spec (TripResponse.status trip) "completed"); [discriminate|].
  destruct (String.eqb_spec (TripResponse.status trip) "failed"); [discriminate|].
  intros _. now exists trip.
Qed.

(** The loop never issues more GETs than it has iterations left. *)
Lemma poll_loop_calls server remaining :
  forall attempt seen,
    (attempt <= calls (poll_loop server remaining attempt seen) <= attempt + remaining)%nat.
Proof.
  induction remaining as [|n IH]; intros attempt seen; simpl.
  - lia.
  - destruct (getTrip (server attempt)) as [trip|e]; simpl; [|lia].
    destruct (String.eqb _ "completed"); simpl; [lia|].
    destruct (String.eqb _ "failed"); simpl; [lia|].
    specialize (IH (S attempt) (seen ++ [TripResponse.status trip])). lia.
Qed.

(** The first GET that decides settles the loop, after exactly that many GETs. *)
Lemma poll_loop_decided server k :
  forall remaining attempt seen outcome,
    (k < remaining)%nat ->
    (forall j, (j < k)%nat -> decides (server (attempt + j)%nat) = None) ->
    decides (server (attempt + k)%nat) = Some outcome ->
    settled (poll_loop server remaining attempt seen) = outcome
    /\ calls (poll_loop server remaining attempt seen) = S (attempt + k).
Proof.
  induction k as [|k IH]; intros remaining attempt seen outcome Hlt Hbefore Hk.
  - destruct remaining as [|n]; [lia|]. simpl.
    rewrite Nat.add_0_r in Hk. unfold decides in Hk.
    destruct (getTrip (server attempt)) as [trip|e]; simpl.
    + destruct (String.eqb _ "completed"); simpl.
      * inversion Hk. split; [reflexivity|lia].
      * destruct (String.eqb _ "failed"); simpl; [|discriminate].
        inversion Hk. split; [reflexivity|lia].
    + inversion Hk. split; [reflexivity|lia].
  - destruct remaining as [|n]; [lia|]. simpl.
    assert (H0 : decides (server attempt) = None).
    { specialize (Hbefore 0%nat). rewrite Nat.add_0_r in Hbefore. apply Hbefore. lia. }
    unfold decides in H0.
    destruct (getTrip (server attempt)) as [trip|e]; [|discriminate].
    destruct (String.eqb _ "completed"); [discriminate|].
    destruct (String.eqb _ "failed"); [discriminate|].
    destruct (IH n (S attempt) (seen ++ [TripResponse.status trip]) outcome) as [Hs Hc].
    + lia.
    + intros j Hj. replace (S attempt + j)%nat with (attempt + S j)%nat by lia.
      apply Hbefore. lia.
    + replace (S attempt + k)%nat with (attempt + S k)%nat by lia. exact Hk.
    + split; [exact Hs|]. rewrite Hc. lia.
Qed.

(** When no GET decides, the loop uses all its iterations and times out. *)
Lemma poll_loop_exhausted server remaining :
  forall attempt seen,
    (forall j, (j < remaining)%nat -> decides (server (attempt + j)%nat) = None) ->
    settled (poll_loop server remaining attempt seen)
      = Rejected (Error "Trip generation timed out")
    /\ calls (poll_loop server remaining attempt seen) = (attempt + remaining)%nat.
Proof.
  induction remaining as [|n IH]; intros attempt seen Hnone; simpl.
  - split; [reflexivity|lia].
  - assert (H0 : decides (server attempt) = None).
    { specialize (Hnone 0%nat). rewrite Nat.add_0_r in Hnone. apply Hnone. lia. }
    unfold decides in H0.
    destruct (getTrip (server attempt)) as [trip|e]; [|discriminate].
    destruct (String.eqb _ "completed"); [discriminate|].
    destruct (String.eqb _ "failed"); [discriminate|].
    destruct (IH (S attempt) (seen ++ [TripResponse.status trip])) as [Hs Hc].
    + intros j Hj. replace (S attempt + j)%nat with (attempt + S j)%nat by lia.
      apply Hnone. lia.
    + split; [exact Hs|]. rewrite Hc. lia.
Qed.

(** Whatever the loop resolves with was sent by the server with the status
    'completed', within the GETs the loop issued. *)
Lemma poll_loop_resolved server remaining :
  forall attempt seen trip,
    settled (poll_loop server remaining attempt seen) = Resolved trip ->
    TripResponse.status trip = "completed"
    /\ exists k, (attempt <= k < attempt + remaining)%nat
         /\ getTrip (server k) = Resolved trip.
Proof.
  induction remaining as [|n IH]; intros attempt seen trip; simpl.
  - discriminate.
  - destruct (getTrip (server attempt)) as [t|e] eqn:Hget; simpl; [|discriminate].
    destruct (String.eqb_spec (TripResponse.status t) "completed") as [Hc|Hc]; simpl.
    + intros H. inversion H; subst. split; [exact Hc|].
      exists attempt. split; [lia|exact Hget].
    + destruct (String.eqb _ "failed"); simpl; [discriminate|].
      intros H. destruct (IH _ _ _ H) as [Hs [k [Hk Hg]]].
      split; [exact Hs|]. exists k. split; [lia|exact Hg].
Qed.

Lemma contains_refl s : contains s s.
Proof. exists ""%string, ""%string. simpl. now rewrite append_nil_r. Qed.

Lemma contains_empty s : contains s "".
Proof. exists ""%string, s. reflexivity. Qed.

Lemma contains_append_l s pre needle : contains s needle -> contains (pre ++ s) needle.
Proof.
  intros [b [a ->]]. exists (pre ++ b)%string, a.
  now rewrite append_assoc.
Qed.

Lemma contains_append_r s post needle : contains s needle -> contains (s ++ post) needle.
Proof.
  intros [b [a ->]]. exists b, (a ++ post)%string.
  now rewrite !append_assoc.
Qed.

(** Every joined piece occurs in the joined string. *)
Lemma join_contains sep xs e : In e xs -> contains (join sep xs) e.
Proof.
  unfold join. induction xs as [|x rest IH]; intros Hin; [contradiction|].
  destruct Hin as [->|Hin].
  - destruct rest as [|y rest']; simpl.
    + apply contains_refl.
    + apply contains_append_r, contains_refl.
  - destruct rest as [|y rest']; [contradiction|].
    change (String.concat sep (x :: y :: rest'))
      with (x ++ sep ++ String.concat sep (y :: rest'))%string.
    apply contains_append_l, contains_append_l, IH, Hin.
Qed.

(** A join with a non-empty separator is empty only when every piece is. *)
Lemma join_empty xs e : join ", " xs = ""%string -> In e xs -> e = ""%string.
Proof.
  unfold join. destruct xs as [|x rest]; intros Hj Hin; [contradiction|].
  destruct rest as [|y rest'].
  - simpl in Hj. destruct Hin as [<-|[]]. exact Hj.
  - change (String.concat ", " (x :: y :: rest'))
      with (x ++ ", " ++ String.concat ", " (y :: rest'))%string in Hj.
    destruct x; simpl in Hj; discriminate.
Qed.

(** The message thrown for a failed trip contains each of its errors. *)
Lemma failure_message_contains trip es e :
  TripResponse.errors trip = Some es -> In e es ->
  contains (failure_message trip) e.
Proof.
  intros Hes Hin. unfold failure_message, or_else. rewrite Hes.
  destruct (join ", " es) eqn:Hj; simpl.
  - rewrite (join_empty es e Hj Hin). apply contains_empty.
  - rewrite <- Hj. now apply join_contains.
Qed.

End ApiFacts.

Module ApiClaims.
Import Api Vocabulary StringFacts ApiFacts UseTrip TripConverter.

Lemma undecided_shift (server : Server) (k : nat) :
  undecided_before server k ->
  forall j, (j < k)%nat -> decides (server (0 + j)%nat) = None.
Proof. intros H j Hj. apply H, Hj. Qed.

Lemma progress_updates_no_setTrip text statuses t :
  ~ In (setTrip t) (progress_updates text statuses).
Proof.
  unfold progress_updates. rewrite in_flat_map. intros [s [_ Hin]].
  destruct (String.eqb s "processing"); simpl in Hin; [|contradiction].
  destruct Hin as [Hin|[]]. discriminate.
Qed.

(** C3. pollTripUntilComplete terminates on every sequence of getTrip
    outcomes: it issues at most maxAttempts GETs (at most 60 by default);
    the first outcome that is not a pending trip settles it, by returning
    that trip when its status is 'completed', by throwing an error whose
    message contains every error of the trip when its status is 'failed',
    and by rethrowing when the GET itself threw; and when maxAttempts GETs
    go by without a decision it throws 'Trip generation timed out', having
    issued exactly maxAttempts GETs. *)
Theorem pollTripUntilComplete_terminates (server : Server) (maxAttempts : Z) :
  (calls (pollTripUntilComplete server maxAttempts) <= Z.to_nat maxAttempts)%nat
  /\ (calls (pollTripUntilComplete server default_maxAttempts) <= 60)%nat
  /\ (forall k trip,
        (k < Z.to_nat maxAttempts)%nat -> undecided_before server k ->
        getTrip (server k) = Resolved trip ->
        TripResponse.status trip = "completed" ->
        settled (pollTripUntilComplete server maxAttempts) = Resolved trip
        /\ calls (pollTripUntilComplete server maxAttempts) = S k)
  /\ (forall k trip,
        (k < Z.to_nat maxAttempts)%nat -> undecided_before server k ->
        getTrip (server k) = Resolved trip ->
        TripResponse.status trip = "failed" ->
        settled (pollTripUntilComplete server maxAttempts)
          = Rejected (Error (failure_message trip))
        /\ calls (pollTripUntilComplete server maxAttempts) = S k
        /\ (forall es e, TripResponse.errors trip = Some es -> In e es ->
              contains (failure_message trip) e))
  /\ (forall k e,
        (k < Z.to_nat maxAttempts)%nat -> undecided_before server k ->
        getTrip (server k) = Rejected e ->
        settled (pollTripUntilComplete server maxAttempts) = Rejected e
        /\ calls (pollTripUntilComplete server maxAttempts) = S k)
  /\ (undecided_before server (Z.to_nat maxAttempts) ->
        settled (pollTripUntilComplete server maxAttempts)
          = Rejected (Error "Trip generation timed out")
        /\ calls (pollTripUntilComplete server maxAttempts) = Z.to_nat maxAttempts).
Proof.
  unfold pollTripUntilComplete.
  split; [|split; [|split; [|split; [|split]]]].
  - pose proof (poll_loop_calls server (Z.to_nat maxAttempts) 0 []). lia.
  - pose proof (poll_loop_calls server (Z.to_nat default_maxAttempts) 0 []) as H.
    change (Z.to_nat default_maxAttempts) with 60%nat in *. lia.
  - intros k trip Hk Hbefore Hget Hstatus.
    apply (poll_loop_decided server k (Z.to_nat maxAttempts) 0 [] (Resolved trip) Hk
             (undecided_shift server k Hbefore)).
    simpl. unfold decides. rewrite Hget, Hstatus. reflexivity.
  - intros k trip Hk Hbefore Hget Hstatus.
    destruct (poll_loop_decided server k (Z.to_nat maxAttempts) 0 []
                (Rejected (Error (failure_message trip))) Hk
                (undecided_shift server k Hbefore)) as [Hs Hc].
    + simpl. unfold decides. rewrite Hget, Hstatus. reflexivity.
    + split; [exact Hs|]. split; [exact Hc|].
      intros es e. apply failure_message_contains.
  - intros k e Hk Hbefore Hget.
    apply (poll_loop_decided server k (Z.to_nat maxAttempts) 0 [] (Rejected e) Hk
             (undecided_shift server k Hbefore)).
    simpl. unfold decides. rewrite Hget. reflexivity.
  - intros Hbefore.
    apply (poll_loop_exhausted server (Z.to_nat maxAttempts) 0 []).
    intros j Hj. apply Hbefore, Hj.
Qed.

(** What the client delivers. Whatever pollTripUntilComplete returns is a
    trip the server sent with the status 'completed' (so never 'processing',
    and never 'failed': a failed trip is thrown, not returned). createTrip
    resolves with the ticket of an ok response as the server wrote it, its
    status string included; and the only trips createNewTrip installs are
    conversions of such completed trips. *)
Lemma delivered_trip_is_completed :
  (forall (server : Server) (maxAttempts : Z) (trip : TripResponse.t),
     settled (pollTripUntilComplete server maxAttempts) = Resolved trip ->
     TripResponse.status trip = "completed"
     /\ exists k, (k < Z.to_nat maxAttempts)%nat /\ getTrip (server k) = Resolved trip)
  /\ (forall (r : Response TripTicket.t) (ticket : TripTicket.t),
        ok r = true -> body r = Json ticket ->
        createTrip (Reply r) = Resolved ticket)
  /\ (forall (w : World TripTicket.t) (t : option FrontendTrip.t),
        In (setTrip t) (createNewTrip w) ->
        exists backendTrip,
          t = Some (convertBackendTripToFrontend backendTrip)
          /\ FrontendTrip.status (convertBackendTripToFrontend backendTrip) = "completed"
          /\ settled (pollTripUntilComplete (server w) default_maxAttempts)
             = Resolved backendTrip).
Proof.
  split; [|split].
  - intros server maxAttempts trip H. unfold pollTripUntilComplete in H.
    destruct (poll_loop_resolved server _ _ _ _ H) as [Hs [k [Hk Hg]]].
    split; [exact Hs|]. exists k. split; [lia|exact Hg].
  - intros r ticket Hok Hbody. unfold createTrip, json. now rewrite Hok, Hbody.
  - intros w t Hin. unfold createNewTrip in Hin.
    apply in_app_or in Hin. destruct Hin as [Hin|Hin].
    { simpl in Hin. repeat (destruct Hin as [Hin|Hin]; [discriminate|]). contradiction. }
    apply in_app_or in Hin. destruct Hin as [Hin|Hin].
    2:{ simpl in Hin. destruct Hin as [Hin|[]]. discriminate. }
    destruct (createTrip (first_reply w)) as [ticket|e].
    2:{ simpl in Hin. repeat (destruct Hin as [Hin|Hin]; [discriminate|]). contradiction. }
    destruct Hin as [Hin|Hin]; [discriminate|].
    apply in_app_or in Hin. destruct Hin as [Hin|Hin].
    { exfalso. exact (progress_updates_no_setTrip _ _ _ Hin). }
    destruct (settled (pollTripUntilComplete (server w) default_maxAttempts))
      as [backendTrip|e] eqn:Hsettled.
    2:{ simpl in Hin. repeat (destruct Hin as [Hin|Hin]; [discriminate|]). contradiction. }
    simpl in Hin. destruct Hin as [Hin|[Hin|[]]]; [|discriminate].
    inversion Hin; subst. exists backendTrip.
    split; [reflexivity|]. split; [|reflexivity].
    unfold pollTripUntilComplete in Hsettled.
    destruct (poll_loop_resolved _ _ _ _ _ Hsettled) as [Hs _]. exact Hs.
Qed.

(** C8. editTrip throws the error 'Trip is still being generated. Please
    wait.' exactly when the server answers 409, and it returns a trip only
    from an ok response: on a response that is not ok it always throws. *)
Theorem editTrip_busy_exactly_on_409 :
  (forall f : Fetched TripResponse.t,
     editTrip f = Rejected (Error busy_message)
     <-> exists r, f = Reply r /\ status r = 409%Z)
  /\ (forall (r : Response TripResponse.t) (trip : TripResponse.t),
        ok r = false -> editTrip (Reply r) <> Resolved trip)
  /\ (forall (f : Fetched TripResponse.t) (trip : TripResponse.t),
        editTrip f = Resolved trip ->
        exists r, f = Reply r /\ ok r = true /\ body r = Json trip).
Proof.
  split; [|split].
  - intros f. split.
    + destruct f as [r|m]; simpl; [|discriminate].
      destruct (ok r) eqn:Hok; simpl.
      * unfold json. destruct (body r); discriminate.
      * destruct (Z.eqb_spec (status r) 404); [discriminate|].
        destruct (Z.eqb_spec (status r) 409) as [H409|]; [|discriminate].
        intros _. now exists r.
    + intros [r [-> H409]]. simpl. unfold ok. rewrite H409. reflexivity.
  - intros r trip Hok. simpl. rewrite Hok. simpl.
    destruct (status r =? 404)%Z; [discriminate|].
    destruct (status r =? 409)%Z; discriminate.
  - intros f trip. destruct f as [r|m]; simpl; [|discriminate].
    destruct (ok r) eqn:Hok; simpl.
    + unfold json. destruct (body r) as [a|m] eqn:Hbody; [|discriminate].
      intros H. inversion H; subst. now exists r.
    + destruct (status r =? 404)%Z; [discriminate|].
      destruct (status r =? 409)%Z; discriminate.
Qed.

End ApiClaims.

(** ** Facts about hooks/useTrip.ts *)

Module UseTripFacts.
Import Api Vocabulary UseTrip TripConverter.

Lemma run_app s us vs : run (run s us) vs = run s (us ++ vs).
Proof. unfold run. now rewrite fold_left_app. Qed.

(** Only setTrip touches the trip. *)
Lemma run_keeps_trip us :
  forall s, existsb is_setTrip us = false -> trip (run s us) = trip s.
Proof.
  induction us as [|u us IH]; intros s H; [reflexivity|].
  simpl in H. apply orb_false_iff in H. destruct H as [Hu Hus].
  change (run s (u :: us)) with (run (apply_update s u) us).
  rewrite (IH _ Hus). destruct u; simpl in *; congruence.
Qed.

Lemma firstn_no_setTrip us :
  forall n, existsb is_setTrip us = false -> existsb is_setTrip (firstn n us) = false.
Proof.
  induction us as [|u us IH]; intros [|n] H; try reflexivity.
  simpl in *. apply orb_false_iff in H. destruct H as [Hu Hus].
  now rewrite Hu, (IH n Hus).
Qed.

Lemma progress_updates_only_progress text statuses :
  exists ps, progress_updates text statuses = map setProgress ps.
Proof.
  unfold progress_updates. induction statuses as [|st rest [ps IH]].
  - now exists [].
  - simpl. rewrite IH. destruct (String.eqb st "processing").
    + now exists (Some text :: ps).
    + now exists ps.
Qed.

(** A failing edit runs only progress updates and then the catch block. *)
Lemma modify_body_on_failure w e :
  edit_throws w = Some e ->
  exists ps, modify_body w = map setProgress ps ++ on_catch e.
Proof.
  unfold edit_throws, modify_body.
  destruct (editTrip (first_reply w)) as [backendTrip|e0].
  - destruct (String.eqb (TripResponse.status backendTrip) "processing"); [|discriminate].
    destruct (settled (pollTripUntilComplete (server w) default_maxAttempts))
      as [t|e1]; [discriminate|].
    intros H. inversion H; subst.
    destruct (progress_updates_only_progress "Applying your changes..."
                (reported (pollTripUntilComplete (server w) default_maxAttempts)))
      as [ps Hps].
    exists (Some "Updating itinerary..." :: ps). rewrite Hps. reflexivity.
  - intros H. inversion H; subst. now exists [].
Qed.

Lemma map_setProgress_no_setTrip ps : existsb is_setTrip (map setProgress ps) = false.
Proof. induction ps; simpl; auto. Qed.

Lemma run_map_setProgress ps :
  forall s, exists p,
    run s (map setProgress ps)
    = {| trip := trip s; isLoading := isLoading s; error := error s; progress := p |}.
Proof.
  induction ps as [|q ps IH]; intros s.
  - exists (progress s). now destruct s.
  - change (run s (map setProgress (q :: ps)))
      with (run (apply_update s (setProgress q)) (map setProgress ps)).
    destruct (IH (apply_update s (setProgress q))) as [p Hp].
    exists p. rewrite Hp. reflexivity.
Qed.

Lemma run_ends_loading s us b : isLoading (run s (us ++ [setIsLoading b])) = b.
Proof. now rewrite <- run_app. Qed.

(** Between operations the loading flag is down. *)
Lemma reachable_idle s : Reachable s -> isLoading s = false.
Proof.
  induction 1 as [|s w _ IH|s w _ IH|s _ IH].
  - reflexivity.
  - unfold createNewTrip. rewrite app_assoc. apply run_ends_loading.
  - unfold modifyTrip. destruct (trip s).
    + rewrite app_assoc. apply run_ends_loading.
    + exact IH.
  - exact IH.
Qed.

End UseTripFacts.

Module UseTripClaims.
Import Api Vocabulary UseTrip TripConverter UseTripFacts.

(** C2. When an edit fails, that is when the PATCH call or the polling after
    it throws, modifyTrip makes no call of setTrip: the trip is the one from
    before the call after every single state update and at the end. With a
    trip loaded the hook ends with that trip, the message of the error, no
    progress text and the loading flag down; in every state the hook reaches
    between operations the flag is down already, so there only the error and
    the progress fields change; without a trip only the error is set. *)
Theorem modifyTrip_failure_keeps_trip
    (s : HookState) (w : World TripResponse.t) (e : JsError) :
  edit_throws w = Some e ->
  existsb is_setTrip (modifyTrip s w) = false
  /\ (forall n, trip (run s (firstn n (modifyTrip s w))) = trip s)
  /\ trip (run s (modifyTrip s w)) = trip s
  /\ (trip s <> None ->
        run s (modifyTrip s w)
        = {| trip := trip s; isLoading := false;
             error := Some (message e); progress := None |})
  /\ (trip s = None ->
        run s (modifyTrip s w)
        = {| trip := None; isLoading := isLoading s;
             error := Some "No trip to modify"; progress := progress s |})
  /\ (Reachable s -> trip s <> None ->
        run s (modifyTrip s w)
        = {| trip := trip s; isLoading := isLoading s;
             error := Some (message e); progress := None |}).
Proof.
  intros Hfail.
  destruct (modify_body_on_failure w e Hfail) as [ps Hbody].
  assert (Hnone : existsb is_setTrip (modifyTrip s w) = false).
  { unfold modifyTrip. destruct (trip s); [|reflexivity].
    rewrite Hbody, !existsb_app, map_setProgress_no_setTrip. reflexivity. }
  split; [exact Hnone|].
  split; [intros n; apply run_keeps_trip, firstn_no_setTrip, Hnone|].
  split; [apply run_keeps_trip, Hnone|].
  assert (Hend : trip s <> None ->
                 run s (modifyTrip s w)
                 = {| trip := trip s; isLoading := false;
                      error := Some (message e); progress := None |}).
  { intros Hsome. unfold modifyTrip.
    destruct (trip s) as [t|] eqn:Ht; [|congruence].
    rewrite Hbody, <- !run_app.
    destruct (run_map_setProgress ps
                (run s [setIsLoading true; setError None;
                        setProgress (Some "Modifying trip...")])) as [p Hp].
    rewrite Hp. simpl. rewrite Ht. reflexivity. }
  split; [exact Hend|]. split.
  - intros Ht. unfold modifyTrip. rewrite Ht. simpl. now rewrite Ht.
  - intros Hreach Hsome. rewrite (reachable_idle s Hreach). now apply Hend.
Qed.

(** A state with a trip loaded, and a server that answers the PATCH with 409. *)
Lemma modifyTrip_failure_witness :
  edit_throws
    {| first_reply := reply_with 409 "Conflict" finished_trip;
       server := fun _ => reply_with 200 "OK" finished_trip |}
  = Some (Error busy_message)
  /\ run {| trip := Some (convertBackendTripToFrontend finished_trip);
            isLoading := false; error := None; progress := None |}
         (modifyTrip
            {| trip := Some (convertBackendTripToFrontend finished_trip);
               isLoading := false; error := None; progress := None |}
            {| first_reply := reply_with 409 "Conflict" finished_trip;
               server := fun _ => reply_with 200 "OK" finished_trip |})
     = {| trip := Some (convertBackendTripToFrontend finished_trip);
          isLoading := false;
          error := Some busy_message; progress := None |}.
Proof.
  split; [reflexivity|].
  refine (proj1 (proj2 (proj2 (proj2
    (modifyTrip_failure_keeps_trip
       {| trip := Some (convertBackendTripToFrontend finished_trip);
          isLoading := false; error := None; progress := None |}
       {| first_reply := reply_with 409 "Conflict" finished_trip;
          server := fun _ => reply_with 200 "OK" finished_trip |}
       (Error busy_message) eq_refl)))) _).
  discriminate.
Defined.

End UseTripClaims.

(** ** Facts about utils/tripConverter.ts *)

Module ConverterClaims.
Import TripConverter.

(** C7. convertDay is total and keeps the date of the day; the activities
    are the converted blocks when blocks are present, else the activities
    the day already has when those are present, else the empty list.
    convertBackendTripToFrontend yields no days when the days field is not an
    array, and otherwise converts every day at its own position, so an empty
    or missing day leaves the other days as they are. *)
Theorem convertDay_never_aborts :
  (forall backendDay : Day.t,
     FrontendDay.date (convertDay backendDay) = Day.date backendDay
     /\ (forall blocks, Day.blocks backendDay = Some blocks ->
           FrontendDay.activities (convertDay backendDay)
           = map convertTimeBlockToActivity blocks)
     /\ (forall activities,
           Day.blocks backendDay = None ->
           Day.activities backendDay = Some activities ->
           FrontendDay.activities (convertDay backendDay) = activities)
     /\ (Day.blocks backendDay = None -> Day.activities backendDay = None ->
           FrontendDay.activities (convertDay backendDay) = []))
  /\ (forall backendTrip : TripResponse.t,
        TripResponse.days backendTrip = None ->
        FrontendTrip.days (convertBackendTripToFrontend backendTrip) = [])
  /\ (forall (backendTrip : TripResponse.t) (days : list Day.t),
        TripResponse.days backendTrip = Some days ->
        List.length (FrontendTrip.days (convertBackendTripToFrontend backendTrip))
        = List.length days
        /\ forall i backendDay,
             nth_error days i = Some backendDay ->
             nth_error (FrontendTrip.days (convertBackendTripToFrontend backendTrip)) i
             = Some (convertDay backendDay)).
Proof.
  split; [|split].
  - intros backendDay. unfold convertDay.
    destruct (Day.blocks backendDay) as [bs|]; simpl.
    + repeat split; try discriminate. intros blocks H. now inversion H.
    + destruct (Day.activities backendDay) as [acts|]; simpl.
      * repeat split; try discriminate. intros activities _ H. now inversion H.
      * repeat split; discriminate.
  - intros backendTrip H. unfold convertBackendTripToFrontend. now rewrite H.
  - intros backendTrip days H. unfold convertBackendTripToFrontend. rewrite H. simpl.
    split; [apply length_map|].
    intros i backendDay Hi. now rewrite nth_error_map, Hi.
Qed.

End ConverterClaims.

(** ** Facts about utils/travelLinks.ts *)

Module LinksFacts.
Import TravelLinks Vocabulary StringFacts ApiFacts.

(** A pair of the parameters shows in their serialisation. *)
Lemma params_toString_contains (params : Params) name value :
  In (name, value) params ->
  contains (params_toString params) (urlencode name ++ "=" ++ urlencode value).
Proof.
  intros Hin. unfold params_toString. apply join_contains.
  apply in_map_iff. now exists (name, value).
Qed.

Lemma replace_first_keeps name value n v (params : Params) :
  n <> name -> In (n, v) params -> In (n, v) (replace_first name value params).
Proof.
  intros Hne. induction params as [|[n0 v0] rest IH]; intros Hin; [contradiction|].
  simpl. destruct (String.eqb_spec n0 name) as [->|Hn0].
  - destruct Hin as [Heq|Hin]; [inversion Heq; congruence|].
    right. apply filter_In. split; [exact Hin|]. simpl.
    destruct (String.eqb_spec n name); [contradiction|reflexivity].
  - destruct Hin as [Heq|Hin]; [now left|right; auto].
Qed.

(** Setting one name leaves the pairs of the other names in place. *)
Lemma set_keeps name value n v (params : Params) :
  n <> name -> In (n, v) params -> In (n, v) (set name value params).
Proof.
  intros Hne Hin. unfold set. destruct (has name params).
  - now apply replace_first_keeps.
  - apply in_or_app. now left.
Qed.

End LinksFacts.

Module LinksClaims.
Import TravelLinks Vocabulary LinksFacts.
Section WithRuntime.
Context {runtime : JsRuntime}.

(** In any runtime: buildHotelsLink returns the hotels link of the trip as
    it is whenever that field is defined, and the generated booking.com
    search address otherwise. In the generated address the checkin
    parameter is the print of the Date made from start_date and the checkout
    parameter the print of the Date made from end_date; both show in the
    address; and with end_date absent the checkout equals the checkin. *)
Lemma buildHotelsLink_dates (trip : Trip.t) :
  (forall links hotels,
     Trip.booking_links trip = Some links -> TripLinks.hotels links = Some hotels ->
     url (buildHotelsLink trip) = hotels)
  /\ (Trip.booking_links trip = None -> url (buildHotelsLink trip) = generatedUrl trip)
  /\ (forall links,
        Trip.booking_links trip = Some links -> TripLinks.hotels links = None ->
        url (buildHotelsLink trip) = generatedUrl trip)
  /\ generatedUrl trip
     = ("https://www.booking.com/searchresults.html?"
        ++ params_toString (hotel_params trip))%string
  /\ get "checkin" (hotel_params trip)
     = Some (formatIsoDate (date_parse (Trip.start_date trip)))
  /\ contains (generatedUrl trip)
       ("checkin=" ++ urlencode (formatIsoDate (date_parse (Trip.start_date trip))))
  /\ (forall end_date,
        Trip.end_date trip = Some end_date ->
        get "checkout" (hotel_params trip) = Some (formatIsoDate (date_parse end_date))
        /\ contains (generatedUrl trip)
             ("checkout=" ++ urlencode (formatIsoDate (date_parse end_date))))
  /\ (Trip.end_date trip = None ->
        getEndDate trip = getStartDate trip
        /\ get "checkout" (hotel_params trip) = get "checkin" (hotel_params trip)).
Proof.
  assert (Hin : In ("checkin", formatIsoDate (getStartDate trip)) (hotel_params trip)
                /\ In ("checkout", formatIsoDate (getEndDate trip)) (hotel_params trip)).
  { unfold hotel_params.
    destruct (getPrimaryPOI trip) as [activity|];
      [destruct (has_coordinates (Some activity))|].
    - split; repeat (apply set_keeps; [discriminate|]); simpl; auto.
    - split; simpl; auto.
    - split; simpl; auto. }
  assert (Hget : get "checkin" (hotel_params trip) = Some (formatIsoDate (getStartDate trip))
                 /\ get "checkout" (hotel_params trip)
                    = Some (formatIsoDate (getEndDate trip))).
  { unfold hotel_params.
    destruct (getPrimaryPOI trip) as [activity|];
      [destruct (has_coordinates (Some activity))|]; split; reflexivity. }
  destruct Hin as [Hin1 Hin2]. destruct Hget as [Hget1 Hget2].
  split; [|split; [|split; [|split; [|split; [|split; [|split]]]]]].
  - intros links hotels Hl Hh. unfold buildHotelsLink. simpl. now rewrite Hl, Hh.
  - intros Hl. unfold buildHotelsLink. simpl. now rewrite Hl.
  - intros links Hl Hh. unfold buildHotelsLink. simpl. now rewrite Hl, Hh.
  - reflexivity.
  - exact Hget1.
  - unfold generatedUrl. apply ApiFacts.contains_append_l.
    apply (params_toString_contains _ "checkin" _ Hin1).
  - intros end_date He. split.
    + rewrite Hget2. unfold getEndDate. now rewrite He.
    + unfold generatedUrl. apply ApiFacts.contains_append_l.
      pose proof (params_toString_contains _ "checkout" _ Hin2) as H.
      unfold getEndDate in H. now rewrite He in H.
  - intros He. split.
    + unfold getEndDate, getStartDate. now rewrite He.
    + rewrite Hget1, Hget2. unfold getEndDate, getStartDate. now rewrite He.
Qed.

End WithRuntime.
End LinksClaims.

(** ** utils/travelLinks.ts across time zones *)

Module ZoneFacts.
Import EcmaDate ZoneVocabulary TravelLinks.
Local Open Scope Z_scope.

(** West of Greenwich the local day of a UTC midnight is the day before. *)
Lemma Day_west n tza :
  - msPerDay <= tza < 0 -> Day (LocalTime tza (n * msPerDay)) = n - 1.
Proof.
  unfold Day, LocalTime, msPerDay. intros H. symmetry.
  apply (Z.div_unique _ _ _ (tza + 86400000)); lia.
Qed.

Lemma Day_east n tza :
  0 <= tza < msPerDay -> Day (LocalTime tza (n * msPerDay)) = n.
Proof.
  unfold Day, LocalTime, msPerDay. intros H. symmetry.
  apply (Z.div_unique _ _ _ tza); lia.
Qed.

(** formatIsoDate prints the local day of a time value. *)
Lemma formatIsoDate_local tza print now t :
  @formatIsoDate (runtime tza print now) (Some t) = day_text (Day (LocalTime tza t)).
Proof.
  unfold formatIsoDate, day_text, pad, getter.
  cbn [date_parse getFullYear getMonth getDate runtime option_map num_add].
  unfold YearFromTime, MonthFromTime, DateFromTime.
  destruct (civil (Day (LocalTime tza t))) as [[y m] d]. cbn [fst snd].
  now rewrite Z.sub_add.
Qed.

Lemma checked_days_In n : first_checked <= n <= last_checked -> In n checked_days.
Proof.
  unfold checked_days, first_checked, last_checked. intros H.
  apply in_map_iff. exists (Z.to_nat (n - 18262)). split; [lia|].
  apply in_seq. lia.
Qed.

(** A date-only text is read the same in every zone. *)
Lemma parse_date_only tza s :
  String.length s = 10%nat -> parse tza s = parse 0 s.
Proof. intros H. unfold parse. now rewrite H. Qed.

(** On the checked days the text of a day is ten characters long, reads
    back as the UTC midnight of that day, and differs from the text of the
    day before. *)
Lemma day_text_checked n :
  first_checked <= n <= last_checked ->
  String.length (day_text n) = 10%nat
  /\ parse 0 (day_text n) = Some (n * msPerDay)
  /\ day_text (n - 1) <> day_text n.
Proof.
  intros H. apply checked_days_In in H.
  assert (Hall :
    forallb
      (fun n =>
         Nat.eqb (String.length (day_text n)) 10
         && match parse 0 (day_text n) with
            | Some t => t =? n * msPerDay
            | None => false
            end
         && negb (String.eqb (day_text (n - 1)) (day_text n)))%bool
      checked_days = true) by (vm_compute; reflexivity).
  pose proof (proj1 (forallb_forall _ _) Hall n H) as Hn. cbv beta in Hn.
  apply andb_true_iff in Hn. destruct Hn as [Hn Hne].
  apply andb_true_iff in Hn. destruct Hn as [Hlen Hparse].
  split; [now apply Nat.eqb_eq|]. split.
  - destruct (parse 0 (day_text n)) as [t|]; [|discriminate].
    apply Z.eqb_eq in Hparse. now subst.
  - intros Heq. rewrite Heq, String.eqb_refl in Hne. discriminate.
Qed.

(** On the checked days the closed form of the calendar names the year the
    day lies in, as YearFromTime is defined. *)
Lemma YearFromTime_checked n :
  first_checked <= n <= last_checked ->
  DayFromYear (YearFromTime (n * msPerDay)) <= n
  < DayFromYear (YearFromTime (n * msPerDay) + 1).
Proof.
  intros H. apply checked_days_In in H.
  assert (Hall :
    forallb
      (fun n =>
         let y := YearFromTime (n * msPerDay) in
         (DayFromYear y <=? n) && (n <? DayFromYear (y + 1)))%bool
      checked_days = true) by (vm_compute; reflexivity).
  pose proof (proj1 (forallb_forall _ _) Hall n H) as Hn. cbv beta zeta in Hn.
  apply andb_true_iff in Hn. destruct Hn as [Hlo Hhi].
  apply Z.leb_le in Hlo. apply Z.ltb_lt in Hhi. lia.
Qed.

(** The print of the Date made from the text of a checked day, in a zone. *)
Lemma formatIsoDate_of_day_text tza print now n :
  first_checked <= n <= last_checked ->
  @formatIsoDate (runtime tza print now)
    (@date_parse (runtime tza print now) (day_text n))
  = day_text (Day (LocalTime tza (n * msPerDay))).
Proof.
  intros H. destruct (day_text_checked n H) as [Hlen [Hparse _]].
  change (@date_parse (runtime tza print now) (day_text n))
    with (parse tza (day_text n)).
  rewrite (parse_date_only tza _ Hlen), Hparse.
  apply formatIsoDate_local.
Qed.

End ZoneFacts.

Module ZoneClaims.
Import EcmaDate ZoneVocabulary ZoneFacts TravelLinks.
Local Open Scope Z_scope.

(** C10. What buildHotelsLink does with the dates of a trip. In every
    runtime it returns the hotels link of the trip as it is whenever that
    field is defined, and with end_date absent the checkout of the generated
    address equals its checkin. The checkin is the trip's start_date only at
    or east of Greenwich: a date-only text is read as UTC midnight and
    printed with the local getters, so in every zone west of Greenwich the
    checkin is the day before start_date and the checkout the day before
    end_date, for every date from 2020 to 2039. For a trip from 2025-12-20
    to 2025-12-24 opened in New York the address asks for 2025-12-19 to
    2025-12-23. *)
Theorem buildHotelsLink_checkin_by_zone :
  (forall (runtime : JsRuntime) (trip : Trip.t),
     (forall links hotels,
        Trip.booking_links trip = Some links -> TripLinks.hotels links = Some hotels ->
        url (buildHotelsLink trip) = hotels)
     /\ (Trip.end_date trip = None ->
         get "checkout" (hotel_params trip) = get "checkin" (hotel_params trip)))
  /\ (forall (tza : Z) (print : float -> string) (now : TimeValue) (trip : Trip.t) (n : Z),
        first_checked <= n <= last_checked ->
        Trip.start_date trip = day_text n ->
        (- msPerDay <= tza < 0 ->
           get "checkin" (@hotel_params (runtime tza print now) trip)
           = Some (day_text (n - 1))
           /\ day_text (n - 1) <> Trip.start_date trip)
        /\ (0 <= tza < msPerDay ->
             get "checkin" (@hotel_params (runtime tza print now) trip)
             = Some (Trip.start_date trip)))
  /\ (forall (tza : Z) (print : float -> string) (now : TimeValue) (trip : Trip.t) (n : Z),
        first_checked <= n <= last_checked ->
        Trip.end_date trip = Some (day_text n) ->
        (- msPerDay <= tza < 0 ->
           get "checkout" (@hotel_params (runtime tza print now) trip)
           = Some (day_text (n - 1))
           /\ day_text (n - 1) <> day_text n)
        /\ (0 <= tza < msPerDay ->
             get "checkout" (@hotel_params (runtime tza print now) trip)
             = Some (day_text n)))
  /\ Trip.start_date december_trip = "2025-12-20"%string
  /\ Trip.end_date december_trip = Some "2025-12-24"%string
  /\ url (@buildHotelsLink (runtime new_york no_print None) december_trip)
     = ("https://www.booking.com/searchresults.html?ss=New+York+near+city+center"
        ++ "&checkin=2025-12-19&checkout=2025-12-23"
        ++ "&group_adults=2&no_rooms=1&group_children=0")%string
  /\ url (@buildHotelsLink (runtime 0 no_print None) december_trip)
     = ("https://www.booking.com/searchresults.html?ss=New+York+near+city+center"
        ++ "&checkin=2025-12-20&checkout=2025-12-24"
        ++ "&group_adults=2&no_rooms=1&group_children=0")%string.
Proof.
  split; [|split; [|split; [|split; [|split; [|split]]]]].
  - intros runtime trip.
    destruct (@LinksClaims.buildHotelsLink_dates runtime trip)
      as [Hlink [_ [_ [_ [_ [_ [_ Hend]]]]]]].
    split; [exact Hlink|]. intros He. exact (proj2 (Hend He)).
  - intros tza print now trip n Hn Hs.
    destruct (@LinksClaims.buildHotelsLink_dates (runtime tza print now) trip)
      as [_ [_ [_ [_ [Hget _]]]]].
    rewrite Hget, Hs, (formatIsoDate_of_day_text tza print now n Hn).
    split; intros Hz.
    + rewrite (Day_west n tza Hz). split; [reflexivity|].
      exact (proj2 (proj2 (day_text_checked n Hn))).
    + now rewrite (Day_east n tza Hz).
  - intros tza print now trip n Hn He.
    destruct (@LinksClaims.buildHotelsLink_dates (runtime tza print now) trip)
      as [_ [_ [_ [_ [_ [_ [Hout _]]]]]]].
    destruct (Hout _ He) as [Hget _].
    rewrite Hget, (formatIsoDate_of_day_text tza print now n Hn).
    split; intros Hz.
    + rewrite (Day_west n tza Hz). split; [reflexivity|].
      exact (proj2 (proj2 (day_text_checked n Hn))).
    + now rewrite (Day_east n tza Hz).
  - reflexivity.
  - reflexivity.
  - vm_compute. reflexivity.
  - vm_compute. reflexivity.
Qed.

End ZoneClaims.

(** ** Facts about utils/calendarExport.ts *)

Module CalendarFacts.
Import CalendarExport ExportVocabulary StringFacts.

Lemma chain_cons a v : chain (String a v) = (escape_char a ++ chain v)%string.
Proof.
  unfold chain, escape_char.
  destruct (Ascii.eqb_spec a "\") as [->|Hb]; [reflexivity|].
  cbn [replace_all]. destruct (Ascii.eqb_spec a "\"); [contradiction|].
  destruct (Ascii.eqb_spec a ",") as [->|Hc]; [reflexivity|].
  cbn [replace_all]. destruct (Ascii.eqb_spec a ","); [contradiction|].
  destruct (Ascii.eqb_spec a ";") as [->|Hs]; [reflexivity|].
  cbn [replace_all]. destruct (Ascii.eqb_spec a ";"); [contradiction|].
  destruct (Ascii.eqb_spec a (ascii_of_nat 10)) as [->|Hn]; [reflexivity|].
  cbn [replace_all]. destruct (Ascii.eqb_spec a (ascii_of_nat 10)); [contradiction|].
  reflexivity.
Qed.

(** sanitize escapes character by character. *)
Lemma sanitize_escape v : sanitize (Some v) = escape v.
Proof.
  unfold sanitize. destruct v as [|a v]; [reflexivity|].
  change (is_empty (String a v)) with false. cbv iota.
  fold (chain (String a v)).
  generalize (String a v) as s. clear a v.
  induction s as [|a s IH]; [reflexivity|].
  rewrite chain_cons. simpl. now rewrite IH.
Qed.

Lemma unescape_escape v : unescape (escape v) = v.
Proof.
  induction v as [|a v IH]; [reflexivity|].
  simpl. unfold escape_char.
  destruct (Ascii.eqb_spec a "\") as [->|Hb]; [simpl; now rewrite IH|].
  destruct (Ascii.eqb_spec a ",") as [->|Hc]; [simpl; now rewrite IH|].
  destruct (Ascii.eqb_spec a ";") as [->|Hs]; [simpl; now rewrite IH|].
  destruct (Ascii.eqb_spec a (ascii_of_nat 10)) as [->|Hn]; [simpl; now rewrite IH|].
  simpl. destruct (Ascii.eqb_spec a "\"); [contradiction|]. now rewrite IH.
Qed.

Lemma list_ascii_append (x y : string) :
  list_ascii_of_string (x ++ y) = list_ascii_of_string x ++ list_ascii_of_string y.
Proof. induction x as [|a x IH]; simpl; [reflexivity|now rewrite IH]. Qed.

(** No raw newline survives the escape. *)
Lemma escape_no_newline v : ~ In (ascii_of_nat 10) (list_ascii_of_string (escape v)).
Proof.
  induction v as [|a v IH]; simpl; [tauto|].
  rewrite list_ascii_append, in_app_iff. intros [H|H]; [|tauto].
  unfold escape_char in H.
  destruct (Ascii.eqb_spec a "\"); [simpl in H; intuition discriminate|].
  destruct (Ascii.eqb_spec a ","); [simpl in H; intuition discriminate|].
  destruct (Ascii.eqb_spec a ";"); [simpl in H; intuition discriminate|].
  destruct (Ascii.eqb_spec a (ascii_of_nat 10)); [simpl in H; intuition discriminate|].
  simpl in H. destruct H as [H|[]]. congruence.
Qed.

Lemma map_mapi_from {A B C} (g : B -> C) (f : A -> nat -> B) xs :
  forall i, map g (mapi_from i f xs) = mapi_from i (fun x k => g (f x k)) xs.
Proof. induction xs as [|x xs IH]; intros i; simpl; [reflexivity|now rewrite IH]. Qed.

Lemma mapi_from_id {A} (xs : list A) :
  forall i, mapi_from i (fun x _ => x) xs = xs.
Proof. induction xs as [|x xs IH]; intros i; simpl; [reflexivity|now rewrite IH]. Qed.

Section WithRuntime.
Context {runtime : JsRuntime}.

(** The events are built from the numbered activities, one each, in order. *)
Lemma events_from city stamp days :
  forall i,
    List.concat
      (mapi_from i
         (fun day dayIndex =>
            mapi
              (fun activity activityIndex =>
                 buildEvent activity day city stamp
                   (Z.of_nat dayIndex * 100 + Z.of_nat activityIndex)%Z)
              (TripDay.activities day))
         days)
    = map (build city stamp) (numbered_from i days).
Proof.
  induction days as [|day rest IH]; intros i; simpl; [reflexivity|].
  rewrite map_app, IH. f_equal.
  unfold mapi. now rewrite map_mapi_from.
Qed.

Lemma numbered_from_activities days :
  forall i,
    map (fun e : TripDay.t * TripActivity.t * Z => snd (fst e)) (numbered_from i days)
    = flat_map TripDay.activities days.
Proof.
  induction days as [|day rest IH]; intros i; simpl; [reflexivity|].
  rewrite map_app, IH. f_equal.
  unfold mapi. rewrite map_mapi_from. simpl. apply mapi_from_id.
Qed.

(** The description always has its type part, so it is never left out. *)
Lemma descriptionParts_type activity :
  exists more,
    descriptionParts activity = ("Type: " ++ TripActivity.type activity)%string :: more.
Proof. unfold descriptionParts, filter_Boolean. simpl. eexists. reflexivity. Qed.

End WithRuntime.
End CalendarFacts.

Module CalendarClaims.
Import CalendarExport ExportVocabulary StringFacts CalendarFacts.
Section WithRuntime.
Context {runtime : JsRuntime}.

(** C9. generateICS emits one VEVENT per activity of the trip, in day order
    then activity order, between the calendar header and footer. Each event
    opens with BEGIN:VEVENT and closes with END:VEVENT; its DTEND is the
    date made from the time of its DTSTART plus duration_min minutes, 90
    when duration_min is absent; and the texts of SUMMARY, LOCATION and
    DESCRIPTION have every backslash, comma, semicolon and newline escaped:
    the escaped text holds no raw newline and reads back to the original. *)
Theorem generateICS_one_event_per_activity (trip : Trip.t) (stamp : string) :
  events trip stamp = map (build (Trip.city trip) stamp) (numbered trip)
  /\ map (fun e : TripDay.t * TripActivity.t * Z => snd (fst e)) (numbered trip)
     = all_activities trip
  /\ List.length (events trip stamp) = List.length (all_activities trip)
  /\ generateICS trip
     = join newline
         ([ "BEGIN:VCALENDAR"; "VERSION:2.0";
            "PRODID:-//WanderGenie//Trip Export//EN"; "CALSCALE:GREGORIAN" ]
          ++ events trip (formatICSDate date_now)
          ++ [ "END:VCALENDAR" ])
  /\ (forall activity day city index,
        buildEvent activity day city stamp index
        = join newline
            ([ "BEGIN:VEVENT";
               ("UID:" ++ stamp ++ "-" ++ num_toString (Some index)
                ++ "@wandergenie")%string;
               ("DTSTAMP:" ++ stamp)%string;
               ("DTSTART:" ++ formatICSDate (event_start activity day))%string;
               ("DTEND:"
                ++ formatICSDate
                     (timeClip
                        (num_add (event_start activity day)
                           (Some (match TripActivity.duration_min activity with
                                  | Some minutes => minutes
                                  | None => 90
                                  end * 60 * 1000)%Z))))%string;
               ("SUMMARY:" ++ escape (TripActivity.name activity))%string;
               ("LOCATION:"
                ++ escape (TripActivity.name activity ++ ", " ++ city))%string;
               ("DESCRIPTION:"
                ++ escape (join " | " (descriptionParts activity)))%string ]
             ++ (if nonempty (TripActivity.booking_url activity)
                 then [ ("URL:" ++ sanitize (TripActivity.booking_url activity))%string ]
                 else [])
             ++ [ "END:VEVENT" ]))
  /\ (forall text,
        sanitize (Some text) = escape text
        /\ unescape (escape text) = text
        /\ ~ In (ascii_of_nat 10) (list_ascii_of_string (escape text))).
Proof.
  assert (Hevents : events trip stamp = map (build (Trip.city trip) stamp) (numbered trip)).
  { unfold events, numbered, mapi. apply (events_from (Trip.city trip) stamp). }
  assert (Hacts : map (fun e : TripDay.t * TripActivity.t * Z => snd (fst e)) (numbered trip)
                  = all_activities trip).
  { unfold numbered, all_activities. apply numbered_from_activities. }
  split; [exact Hevents|]. split; [exact Hacts|].
  split; [now rewrite Hevents, <- Hacts, !length_map|].
  split; [reflexivity|].
  split.
  - intros activity day city index. unfold buildEvent. f_equal.
    unfold event_lines, event_end, eventDuration, nullish, DEFAULT_DURATION_MIN.
    destruct (descriptionParts_type activity) as [more Hparts].
    rewrite Hparts. cbv iota beta. rewrite !sanitize_escape.
    unfold filter_Boolean.
    destruct (nonempty (TripActivity.booking_url activity)); reflexivity.
  - intros text. split; [apply sanitize_escape|].
    split; [apply unescape_escape|apply escape_no_newline].
Qed.

End WithRuntime.
End CalendarClaims.

(** ** Facts about the engine *)

Module EngineFacts.
Import Engine EngineVocabulary.
Local Open Scope Z_scope.

Lemma ordered_from_buffered bs :
  forall previous_finish,
    ordered_from previous_finish bs = true ->
    (forall b, nth_error bs 0 = Some b ->
       previous_finish + travel_from_previous b <= start b)
    /\ travel_buffered bs.
Proof.
  induction bs as [|b rest IH]; intros pf H.
  - split; [discriminate|]. intros [|i] b1 b2 H1; discriminate.
  - simpl in H. apply andb_true_iff in H. destruct H as [Hb Hrest].
    apply Z.leb_le in Hb. destruct (IH _ Hrest) as [Hfirst Hbuf].
    split.
    + intros b0 H0. inversion H0; subst. exact Hb.
    + intros [|i] b1 b2 H1 H2.
      * inversion H1; subst. apply Hfirst. exact H2.
      * apply (Hbuf i b1 b2 H1 H2).
Qed.

(** Check (a) decides the travel-buffered order of a day. *)
Lemma non_overlapping_buffered bs :
  non_overlapping bs = true -> travel_buffered bs.
Proof.
  destruct bs as [|b rest]; intros H.
  - intros [|i] b1 b2 H1; discriminate.
  - simpl in H. destruct (ordered_from_buffered rest _ H) as [Hfirst Hbuf].
    intros [|i] b1 b2 H1 H2.
    + inversion H1; subst. apply Hfirst. exact H2.
    + apply (Hbuf i b1 b2 H1 H2).
Qed.

Lemma buffered_ordered_from bs :
  forall previous_finish,
    (forall b, nth_error bs 0 = Some b ->
       previous_finish + travel_from_previous b <= start b) ->
    travel_buffered bs ->
    ordered_from previous_finish bs = true.
Proof.
  induction bs as [|b rest IH]; intros pf Hfirst Hbuf; [reflexivity|].
  simpl. apply andb_true_iff. split.
  - apply Z.leb_le. now apply Hfirst.
  - apply IH.
    + intros b2 H2. apply (Hbuf 0%nat b b2); [reflexivity|exact H2].
    + intros i b1 b2 H1 H2. apply (Hbuf (S i) b1 b2 H1 H2).
Qed.

Lemma buffered_non_overlapping bs :
  travel_buffered bs -> non_overlapping bs = true.
Proof.
  destruct bs as [|b rest]; intros Hbuf; [reflexivity|].
  simpl. apply buffered_ordered_from.
  - intros b2 H2. apply (Hbuf 0%nat b b2); [reflexivity|exact H2].
  - intros i b1 b2 H1 H2. apply (Hbuf (S i) b1 b2 H1 H2).
Qed.

Lemma flat_map_nil {A B} (f : A -> list B) xs :
  flat_map f xs = [] -> forall x, In x xs -> f x = [].
Proof.
  induction xs as [|y xs IH]; intros H x Hin; [contradiction|].
  simpl in H. apply app_eq_nil in H. destruct H as [Hy Hxs].
  destruct Hin as [<-|Hin]; [exact Hy|now apply IH].
Qed.

Lemma indexed_length {A} (xs : list A) : List.length (indexed xs) = List.length xs.
Proof. unfold indexed. rewrite length_combine, length_seq. apply Nat.min_id. Qed.

Lemma indexed_from_In {A} (xs : list A) :
  forall from x, In x xs -> exists i, In (i, x) (combine (seq from (List.length xs)) xs).
Proof.
  induction xs as [|y xs IH]; intros from x Hin; [contradiction|].
  simpl. destruct Hin as [<-|Hin].
  - exists from. now left.
  - destruct (IH (S from) x Hin) as [i Hi]. exists i. now right.
Qed.

Lemma indexed_In {A} (xs : list A) x : In x xs -> exists i, In (i, x) (indexed xs).
Proof. apply indexed_from_In. Qed.

Lemma map_snd_indexed_from {A} (xs : list A) :
  forall from, map snd (combine (seq from (List.length xs)) xs) = xs.
Proof. induction xs as [|y xs IH]; intros from; simpl; [reflexivity|now rewrite IH]. Qed.

Section WithSettings.
Variable cfg : Settings.

(** A trip without violations has every day in travel-buffered order. *)
Lemma no_violation_buffered t :
  violations cfg t = [] -> forall d, In d (days t) -> travel_buffered (blocks d).
Proof.
  unfold violations. intros H d Hin.
  apply app_eq_nil in H. destruct H as [Ha _].
  destruct (indexed_In (days t) d Hin) as [i Hi].
  pose proof (flat_map_nil _ _ Ha (i, d) Hi) as Hd. simpl in Hd.
  apply non_overlapping_buffered.
  destruct (non_overlapping (blocks d)); [reflexivity|discriminate].
Qed.

(** The checks read the days, the constraints, the id and the city only. *)
Lemma violations_ext t t' :
  days t = days t' -> constraints t = constraints t' ->
  trip_id t = trip_id t' -> city t = city t' ->
  violations cfg t = violations cfg t'.
Proof.
  intros Hd Hc Hi Hy.
  unfold violations, check_overlap, check_cap, check_hours, check_lead_time,
    check_duplicates, check_required, all_ids.
  now rewrite Hd, Hc, Hi, Hy.
Qed.

Lemma validate_completed t :
  status (result (validate cfg t)) = completed ->
  unpatchable (pass cfg t) = [] /\ violations cfg (result (pass cfg t)) = [].
Proof.
  unfold validate. fold (pass cfg t). simpl.
  destruct (unpatchable (pass cfg t)); [|discriminate].
  destruct (violations cfg (result (pass cfg t))); [|discriminate].
  now split.
Qed.

Lemma validate_days t : days (result (validate cfg t)) = days (result (pass cfg t)).
Proof. reflexivity. Qed.

(** A completed trip without violations goes through the validator as it is. *)
Lemma validate_valid_unchanged t :
  status t = completed -> violations cfg t = [] ->
  validate cfg t = {| result := t; patched := []; unpatchable := [] |}.
Proof.
  intros Hs Hv. unfold validate. rewrite Hv. simpl. rewrite Hv. simpl.
  rewrite app_nil_r, <- Hs. now destruct t.
Qed.

End WithSettings.
End EngineFacts.

Module SchedulerFacts.
Import Engine EngineVocabulary EngineFacts.
Local Open Scope Z_scope.

Section WithSettings.
Variable cfg : Settings.

(** The loop of the day scheduler lays its blocks out in order: each starts
    at the cursor plus its travel time, and the cursor never moves back. *)
Lemma day_loop_ordered index weekday closes pool budget :
  0 <= gap cfg ->
  forall cursor_time cursor_poi used_ids previous_finish,
    previous_finish <= cursor_time ->
    ordered_from previous_finish
      (fst (day_loop cfg index weekday closes pool budget cursor_time cursor_poi used_ids))
    = true.
Proof.
  intros Hgap. induction budget as [|budget IH];
    intros cursor_time cursor_poi used_ids pf Hpf; [reflexivity|].
  simpl.
  destruct (pick cfg cursor_poi _ _) as [p|]; [|reflexivity].
  specialize (IH (cursor_time + travel_time cfg cursor_poi p + duration cfg p + gap cfg)
                 (Some p) (poi_id p :: used_ids)
                 (cursor_time + travel_time cfg cursor_poi p + duration cfg p)).
  destruct (day_loop cfg index weekday closes pool budget _ (Some p) _) as [later used].
  simpl in *. apply andb_true_iff. split.
  - apply Z.leb_le. lia.
  - apply IH. lia.
Qed.

(** Every day the scheduler emits is travel-buffered by construction. *)
Lemma schedule_day_buffered c pool index day used_ids :
  0 <= gap cfg ->
  travel_buffered (blocks (fst (schedule_day cfg c pool index day used_ids))).
Proof.
  intros Hgap. unfold schedule_day.
  destruct (window_of cfg (pace c)) as [opens closes].
  destruct (day_budget cfg c) as [|budget].
  - simpl. intros [|i] b1 b2 H; discriminate.
  - simpl. destruct (pick cfg None _ _) as [p|].
    + pose proof (day_loop_ordered index (day mod 7) closes pool budget Hgap
                    (opens + travel_time cfg None p + duration cfg p + gap cfg)
                    (Some p) (poi_id p :: used_ids)
                    (opens + travel_time cfg None p + duration cfg p)) as H.
      destruct (day_loop cfg index (day mod 7) closes pool budget _ (Some p) _)
        as [later used].
      simpl in *. apply non_overlapping_buffered. simpl. apply H. lia.
    + simpl. intros [|i] b1 b2 H; discriminate.
Qed.

(** One day per date, in order, for as many dates as asked. *)
Lemma schedule_days_dates c pool count :
  forall index day used_ids,
    map date (schedule_days cfg c pool index day count used_ids) = dates_from day count.
Proof.
  induction count as [|count IH]; intros index day used_ids; [reflexivity|].
  simpl. unfold schedule_day at 1.
  destruct (window_of cfg (pace c)) as [opens closes].
  destruct (day_loop cfg index (day mod 7) closes pool (day_budget cfg c) opens None used_ids)
    as [bs used].
  simpl. now rewrite IH.
Qed.

End WithSettings.

Lemma dates_from_length day count : List.length (dates_from day count) = count.
Proof.
  revert day. induction count as [|count IH]; intros day; simpl; [reflexivity|].
  now rewrite IH.
Qed.

(** The overlap patch leaves an ordered day in order, whatever it was given. *)
Lemma shift_from_ordered bs :
  forall previous_finish, ordered_from previous_finish (shift_from previous_finish bs) = true.
Proof.
  induction bs as [|b rest IH]; intros pf; [reflexivity|].
  simpl. apply andb_true_iff. split; [apply Z.leb_le; lia|apply IH].
Qed.

Lemma shift_forward_non_overlapping bs : non_overlapping (shift_forward bs) = true.
Proof. destruct bs as [|b rest]; [reflexivity|]. simpl. apply shift_from_ordered. Qed.

(** The patches keep the dates of the days, so also their number. *)
Lemma patch_day_dates i f t : map date (days (patch_day i f t)) = map date (days t).
Proof.
  unfold patch_day, with_days, indexed. simpl. rewrite map_map.
  rewrite <- (map_snd_indexed_from (days t) 0) at 3. rewrite map_map.
  apply map_ext. intros [j d]. simpl. now destruct (Nat.eqb i j).
Qed.

Lemma drop_later_days_dates id ds :
  forall seen, map date (drop_later_days id seen ds) = map date ds.
Proof.
  induction ds as [|d rest IH]; intros seen; [reflexivity|].
  simpl. destruct (drop_later_blocks id seen (blocks d)) as [kept seen'].
  simpl. now rewrite IH.
Qed.

Lemma patch_step_dates r v :
  map date (days (result (patch_step r v))) = map date (days (result r)).
Proof.
  unfold patch_step. destruct v; simpl; try reflexivity.
  - apply patch_day_dates.
  - apply drop_later_days_dates.
Qed.

Lemma patch_pass_dates vs :
  forall r, map date (days (result (fold_left patch_step vs r))) = map date (days (result r)).
Proof.
  induction vs as [|v vs IH]; intros r; [reflexivity|].
  simpl. now rewrite IH, patch_step_dates.
Qed.

Lemma validate_dates cfg t :
  map date (days (result (validate cfg t))) = map date (days t).
Proof. unfold validate. simpl. apply patch_pass_dates. Qed.

End SchedulerFacts.

Module EngineClaims.
Import Engine EngineVocabulary EngineFacts SchedulerFacts.
Local Open Scope Z_scope.

(** What create returns is what the validator reports on the raw schedule,
    so every fact about validated trips holds of created trips. *)
Lemma created_is_validated cfg id city_name c poiPool t :
  create cfg id city_name c poiPool = Ok t ->
  start_date c <= end_date c
  /\ exists raw,
       t = result (validate cfg raw)
       /\ map date (days raw) = dates_from (start_date c) (calendar_span c).
Proof.
  unfold create.
  destruct (Z.ltb_spec (end_date c) (start_date c)) as [Hlt|Hle]; [discriminate|].
  intros Hok. inversion Hok. split; [lia|].
  eexists. split; [reflexivity|]. simpl. apply schedule_days_dates.
Qed.

(** A created trip is completed or failed, never still processing. *)
Lemma created_status cfg id city_name c poiPool t :
  create cfg id city_name c poiPool = Ok t ->
  status t = completed \/ status t = failed.
Proof.
  intros H. destruct (created_is_validated _ _ _ _ _ _ H) as [_ [raw [-> _]]].
  unfold validate. simpl.
  destruct (unpatchable _); [|now right].
  destruct (violations cfg _); [now left|now right].
Qed.

(** C4. In every trip the validator reports completed, each day is
    travel-buffered: a block starts no earlier than the end of the block
    before it plus its own travel time. *)
Theorem completed_trip_is_travel_buffered (cfg : Settings) (t : Trip) (d : Day) :
  status (result (validate cfg t)) = completed ->
  In d (days (result (validate cfg t))) ->
  travel_buffered (blocks d).
Proof.
  intros Hs Hin. destruct (validate_completed cfg t Hs) as [_ Hv].
  rewrite validate_days in Hin.
  exact (no_violation_buffered cfg _ Hv d Hin).
Qed.

(** The first day of the sample session: A from 09:00, B after 15 minutes
    of travel. *)
Lemma completed_trip_witness :
  status (result (validate sample_settings sample_raw)) = completed
  /\ In sample_day (days (result (validate sample_settings sample_raw)))
  /\ travel_buffered (blocks sample_day).
Proof.
  split; [reflexivity|]. split; [left; reflexivity|].
  apply (completed_trip_is_travel_buffered sample_settings sample_raw sample_day).
  - reflexivity.
  - left. reflexivity.
Defined.

(** A trip create returns has one day per calendar date of its range,
    first to last: the number of days is end_date - start_date + 1. *)
Lemma created_days_span_dates
    (cfg : Settings) (id city_name : string) (c : TripConstraints)
    (poiPool : list POI) (t : Trip) :
  create cfg id city_name c poiPool = Ok t ->
  Z.of_nat (List.length (days t)) = end_date c - start_date c + 1
  /\ List.length (days t) = calendar_span c
  /\ map date (days t) = dates_from (start_date c) (calendar_span c).
Proof.
  intros H. destruct (created_is_validated _ _ _ _ _ _ H) as [Hle [raw [-> Hraw]]].
  assert (Hdates : map date (days (result (validate cfg raw)))
                   = dates_from (start_date c) (calendar_span c)).
  { now rewrite validate_dates. }
  assert (Hlen : List.length (days (result (validate cfg raw))) = calendar_span c).
  { rewrite <- (length_map date), Hdates. apply dates_from_length. }
  split; [|split; [exact Hlen|exact Hdates]].
  rewrite Hlen. unfold calendar_span. lia.
Qed.

(** C6. Running the validator again on a trip it reported completed patches
    nothing and returns that trip as it is. *)
Theorem validator_is_idempotent (cfg : Settings) (t : Trip) :
  status (result (validate cfg t)) = completed ->
  validate cfg (result (validate cfg t))
  = {| result := result (validate cfg t); patched := []; unpatchable := [] |}.
Proof.
  intros Hs. apply validate_valid_unchanged; [exact Hs|].
  destruct (validate_completed cfg t Hs) as [_ Hv].
  rewrite <- Hv. now apply violations_ext.
Qed.

Lemma validator_idempotent_witness :
  status (result (validate sample_settings sample_raw)) = completed
  /\ patched (validate sample_settings (result (validate sample_settings sample_raw))) = []
  /\ result (validate sample_settings (result (validate sample_settings sample_raw)))
     = result (validate sample_settings sample_raw).
Proof.
  split; [reflexivity|].
  rewrite (validator_is_idempotent sample_settings sample_raw eq_refl).
  split; reflexivity.
Defined.

End EngineClaims.

(** ** Facts about the edit engine and the lifecycle of a trip *)

Module EditFacts.
Import Engine EditEngine EngineVocabulary EngineFacts SchedulerFacts.
Local Open Scope Z_scope.

Lemma patch_step_constraints r v :
  constraints (result (patch_step r v)) = constraints (result r).
Proof. unfold patch_step. destruct v; reflexivity. Qed.

Lemma patch_pass_constraints vs :
  forall r, constraints (result (fold_left patch_step vs r)) = constraints (result r).
Proof.
  induction vs as [|v vs IH]; intros r; [reflexivity|].
  simpl. now rewrite IH, patch_step_constraints.
Qed.

(** The validator keeps the constraints snapshot of the trip. *)
Lemma validate_constraints cfg t : constraints (result (validate cfg t)) = constraints t.
Proof. unfold validate. simpl. apply patch_pass_constraints. Qed.

(** A trip the validator marks failed says why. *)
Lemma validate_failed_recorded cfg t :
  status (result (validate cfg t)) = failed ->
  validation_errors (result (validate cfg t)) <> [].
Proof.
  unfold validate. cbn [result status validation_errors].
  set (p := fold_left patch_step (violations cfg t) _).
  destruct (unpatchable p) as [|reason reasons].
  - destruct (violations cfg (result p)) as [|v vs]; [discriminate|].
    intros _ H. apply app_eq_nil in H. destruct H as [_ H].
    apply app_eq_nil in H. destruct H as [_ H]. discriminate.
  - intros _ H. apply app_eq_nil in H. destruct H as [_ H].
    apply app_eq_nil in H. destruct H as [_ H]. discriminate.
Qed.

Lemma patch_step_errors r v :
  validation_errors (result (patch_step r v)) = validation_errors (result r).
Proof. unfold patch_step. destruct v; reflexivity. Qed.

Lemma patch_pass_errors vs :
  forall r,
    validation_errors (result (fold_left patch_step vs r)) = validation_errors (result r).
Proof.
  induction vs as [|v vs IH]; intros r; [reflexivity|].
  simpl. now rewrite IH, patch_step_errors.
Qed.

(** What a trip the validator reports completed carries: the notes it came
    with and a record of every patch. *)
Lemma validate_completed_records cfg t :
  status (result (validate cfg t)) = completed ->
  forall e, In e (validation_errors (result (validate cfg t))) ->
    In e (validation_errors t)
    \/ exists v, e = ("patched: " ++ describe v)%string.
Proof.
  unfold validate. cbn [result status validation_errors].
  set (p := fold_left patch_step (violations cfg t) _).
  destruct (unpatchable p) as [|reason reasons]; [|discriminate].
  destruct (violations cfg (result p)) as [|v vs]; [|discriminate].
  intros _ e Hin. simpl in Hin. rewrite app_nil_r in Hin.
  apply in_app_or in Hin. destruct Hin as [Hin|Hin].
  - left. unfold p in Hin. now rewrite patch_pass_errors in Hin.
  - right. apply in_map_iff in Hin. destruct Hin as [v [<- _]]. now exists v.
Qed.

Lemma empty_day_notes_In ds e : In e (empty_day_notes ds) -> e = "empty day"%string.
Proof.
  unfold empty_day_notes. rewrite in_flat_map. intros [d [_ Hin]].
  destruct (blocks d); [|contradiction].
  destruct Hin as [<-|[]]. reflexivity.
Qed.

Section WithSettings.
Variable cfg : Settings.

(** The scoped validator keeps the dates and the constraints as well. *)
Lemma validate_day_dates i t :
  map date (days (result (validate_day cfg i t))) = map date (days t).
Proof. unfold validate_day. simpl. apply patch_pass_dates. Qed.

Lemma validate_day_constraints i t :
  constraints (result (validate_day cfg i t)) = constraints t.
Proof. unfold validate_day. simpl. apply patch_pass_constraints. Qed.

(** What an edit answers: a rejected edit comes with the prior snapshot as
    it was; an accepted one is a completed trip made from a completed trip,
    with the same dates, day for day, and the same constraints. *)
Lemma edit_outcome pool t op :
  (forall reason prior, edit cfg pool t op = EditConflict reason prior -> prior = t)
  /\ (forall t', edit cfg pool t op = Edited t' ->
        status t = completed /\ status t' = completed
        /\ map date (days t') = map date (days t)
        /\ constraints t' = constraints t).
Proof.
  unfold edit. split.
  - intros reason prior.
    destruct (status t); try (intros H; inversion H; reflexivity).
    destruct (first_edit cfg pool t op (target_days t op)) as [[i [bs notes]]|];
      [|intros H; inversion H; reflexivity].
    destruct (status (result (validate_day cfg i (with_day t i bs notes))));
      intros H; inversion H; reflexivity.
  - intros t'.
    destruct (status t) eqn:Hs; try discriminate.
    destruct (first_edit cfg pool t op (target_days t op)) as [[i [bs notes]]|];
      [|discriminate].
    destruct (status (result (validate_day cfg i (with_day t i bs notes)))) eqn:Hv;
      try discriminate.
    intros H. injection H as Ht. subst t'.
    split; [reflexivity|]. split; [exact Hv|]. split.
    + change (map date (days (result (validate_day cfg i (with_day t i bs notes))))
              = map date (days t)).
      rewrite validate_day_dates. unfold with_day. cbn [days].
      apply patch_day_dates.
    + change (constraints (result (validate_day cfg i (with_day t i bs notes)))
              = constraints t).
      rewrite validate_day_constraints. reflexivity.
Qed.

Lemma nth_error_indexed_map {A B} (g : nat * A -> B) (xs : list A) :
  forall from j,
    nth_error (map g (combine (seq from (List.length xs)) xs)) j
    = option_map (fun x => g ((from + j)%nat, x)) (nth_error xs j).
Proof.
  induction xs as [|x xs IH]; intros from [|j]; simpl; try reflexivity.
  - now rewrite Nat.add_0_r.
  - rewrite IH. now rewrite Nat.add_succ_r.
Qed.

(** A patch of one day leaves every other day as it is. *)
Lemma patch_day_other i f t j :
  j <> i -> nth_error (days (patch_day i f t)) j = nth_error (days t) j.
Proof.
  intros Hj. unfold patch_day, with_days, indexed. cbn [days].
  rewrite nth_error_indexed_map. cbn [Nat.add].
  destruct (nth_error (days t) j) as [d|]; simpl; [|reflexivity].
  destruct (Nat.eqb_spec i j); [congruence|reflexivity].
Qed.

Lemma patch_step_other i r v j :
  concerns i v = true -> j <> i ->
  nth_error (days (result (patch_step r v))) j = nth_error (days (result r)) j.
Proof.
  unfold patch_step. destruct v; simpl; intros Hc Hj; try reflexivity; try discriminate.
  apply Nat.eqb_eq in Hc. subst. now apply patch_day_other.
Qed.

Lemma scoped_pass_other i j vs :
  (forall v, In v vs -> concerns i v = true) -> j <> i ->
  forall r,
    nth_error (days (result (fold_left patch_step vs r))) j
    = nth_error (days (result r)) j.
Proof.
  intros Hvs Hj. induction vs as [|v vs IH]; intros r; [reflexivity|].
  simpl. rewrite IH by (intros w Hw; apply Hvs; now right).
  apply (patch_step_other i); [apply Hvs; now left|exact Hj].
Qed.

(** The validator scoped to a day leaves every other day as it is. *)
Lemma validate_day_other i t j :
  j <> i -> nth_error (days (result (validate_day cfg i t))) j = nth_error (days t) j.
Proof.
  intros Hj. unfold validate_day. cbn [result days].
  apply (scoped_pass_other i); [|exact Hj].
  intros v Hv. apply filter_In in Hv. exact (proj2 Hv).
Qed.

(** An accepted edit touches one day: the others are carried over
    unchanged (section 4.5). *)
Lemma edit_carries_other_days pool t op t' :
  edit cfg pool t op = Edited t' ->
  exists i, forall j, j <> i -> nth_error (days t') j = nth_error (days t) j.
Proof.
  unfold edit.
  destruct (status t); try discriminate.
  destruct (first_edit cfg pool t op (target_days t op)) as [[i [bs notes]]|];
    [|discriminate].
  destruct (status (result (validate_day cfg i (with_day t i bs notes))));
    try discriminate.
  intros H. injection H as Ht. subst t'. exists i. intros j Hj.
  change (nth_error (days (result (validate_day cfg i (with_day t i bs notes)))) j
          = nth_error (days t) j).
  rewrite (validate_day_other i _ j Hj). unfold with_day. cbn [days].
  now apply patch_day_other.
Qed.

(** A replacement asked of a pool in which no POI carries the hint is
    rejected, whatever the trip (section 8). *)
Lemma replace_without_candidates pool t day slot tag :
  (forall p, In p pool -> existsb (String.eqb tag) (poi_tags p) = false) ->
  exists reason,
    edit cfg pool t
      {| target_day := day; target_slot := slot; action := replace;
         payload := SearchHint tag |}
    = EditConflict reason t.
Proof.
  intros Hnone.
  assert (Hc : candidates pool (SearchHint tag) = []).
  { unfold candidates. induction pool as [|p pool IH]; [reflexivity|].
    simpl. rewrite (Hnone p (or_introl eq_refl)). apply IH.
    intros q Hq. apply Hnone. now right. }
  assert (Hrep : forall index weekday used s previous bs,
             replace_block cfg index weekday [] used s previous bs = None).
  { intros index weekday used s previous bs. revert previous.
    induction bs as [|b rest IH]; intros previous; [reflexivity|].
    simpl. destruct (start b =? s); [reflexivity|]. now rewrite IH. }
  assert (Hday : forall i d,
             edit_day cfg pool t
               {| target_day := day; target_slot := slot; action := replace;
                  payload := SearchHint tag |} i d = None).
  { intros i d. unfold edit_day. cbn [action target_slot payload].
    destruct slot as [s|]; [|reflexivity]. now rewrite Hc, Hrep. }
  assert (Hfirst : forall is_,
             first_edit cfg pool t
               {| target_day := day; target_slot := slot; action := replace;
                  payload := SearchHint tag |} is_ = None).
  { induction is_ as [|i rest IH]; [reflexivity|].
    simpl. destruct (nth_error (days t) i) as [d|]; [|exact IH].
    now rewrite Hday. }
  unfold edit. destruct (status t); try (eexists; reflexivity).
  rewrite Hfirst. eexists; reflexivity.
Qed.

(** Create answers a trip with the constraints it was given, which are
    well formed. *)
Lemma created_constraints id city_name c poiPool t :
  create cfg id city_name c poiPool = Ok t ->
  constraints t = c /\ start_date c <= end_date c.
Proof.
  unfold create.
  destruct (Z.ltb_spec (end_date c) (start_date c)) as [Hlt|Hle]; [discriminate|].
  intros H. injection H as <-. split; [|exact Hle].
  apply (validate_constraints cfg).
Qed.

(** The invariant of the lifecycle: the days of a trip are the dates of the
    range of its constraints, one each, in order. *)
Lemma produced_dates t :
  Produced cfg t ->
  start_date (constraints t) <= end_date (constraints t)
  /\ map date (days t)
     = dates_from (start_date (constraints t)) (calendar_span (constraints t)).
Proof.
  induction 1 as [id city_name c poiPool t Hc|pool t op t' Hp IH He].
  - destruct (created_constraints _ _ _ _ _ Hc) as [-> Hle].
    split; [exact Hle|].
    destruct (EngineClaims.created_is_validated _ _ _ _ _ _ Hc) as [_ [raw [-> Hraw]]].
    now rewrite validate_dates.
  - destruct (proj2 (edit_outcome pool t op) t' He) as [_ [_ [Hd Hk]]].
    rewrite Hd, Hk. exact IH.
Qed.

End WithSettings.

(** The removal of B from the sample session leaves A alone on the first
    day. *)
Example sample_removal_outcome :
  map (fun d => map (fun b => (poi_name (poi b), start b, finish b)) (blocks d))
    (days EditVocabulary.sample_edited)
  = [[("A"%string, 540, 600)]; []].
Proof. reflexivity. Qed.

(** A museum asked of a pool without one: the edit is rejected and the
    trip comes back as it was (section 8). *)
Example museum_replacement_conflict :
  edit sample_settings [poi_A] sample_trip EditVocabulary.museum_replacement
  = EditConflict "no slot can accommodate the edit" sample_trip.
Proof. reflexivity. Qed.

(** Removing B and adding it again restores the sample session
    (section 8). *)
Example remove_then_add_restores :
  edit sample_settings [poi_B; poi_A] EditVocabulary.sample_edited
    {| target_day := Some 0%nat; target_slot := None; action := add;
       payload := PoiReference poi_B |}
  = Edited sample_trip.
Proof. reflexivity. Qed.

End EditFacts.

Module LifecycleClaims.
Import Engine EditEngine EngineVocabulary EditVocabulary EngineFacts SchedulerFacts EditFacts.
Local Open Scope Z_scope.

(** C5. Every trip of the lifecycle, that is every trip create returns and
    every trip a successful edit replaces one by, has one day per calendar
    date of the range of its constraints, first to last: the number of its
    days is end_date - start_date + 1. So has every completed trip. Create
    schedules the dates of the range; the validator and its patches, whole
    or scoped to a day, never add or remove a day; and an edit touches the
    blocks of days that are there. *)
Theorem produced_trip_days_span (cfg : Settings) :
  (forall t : Trip,
     Produced cfg t ->
     Z.of_nat (List.length (days t))
     = end_date (constraints t) - start_date (constraints t) + 1
     /\ List.length (days t) = calendar_span (constraints t)
     /\ map date (days t)
        = dates_from (start_date (constraints t)) (calendar_span (constraints t)))
  /\ (forall t : Trip,
        List.length (days (result (validate cfg t))) = List.length (days t)
        /\ constraints (result (validate cfg t)) = constraints t)
  /\ (forall (pool : list POI) (t : Trip) (op : EditOperation) (t' : Trip),
        edit cfg pool t op = Edited t' ->
        status t' = completed
        /\ List.length (days t') = List.length (days t)
        /\ map date (days t') = map date (days t)
        /\ constraints t' = constraints t
        /\ exists i, forall j, j <> i -> nth_error (days t') j = nth_error (days t) j).
Proof.
  split; [|split].
  - intros t Hp. destruct (produced_dates cfg t Hp) as [Hle Hdates].
    assert (Hlen : List.length (days t) = calendar_span (constraints t)).
    { rewrite <- (length_map date), Hdates. apply dates_from_length. }
    split; [|split; [exact Hlen|exact Hdates]].
    rewrite Hlen. unfold calendar_span. lia.
  - intros t. split; [|apply validate_constraints].
    rewrite <- (length_map date), validate_dates. apply length_map.
  - intros pool t op t' He.
    destruct (proj2 (edit_outcome cfg pool t op) t' He) as [_ [Hs [Hd Hk]]].
    split; [exact Hs|]. split; [|split; [exact Hd|split; [exact Hk|]]].
    + rewrite <- (length_map date), Hd. apply length_map.
    + exact (edit_carries_other_days cfg pool t op t' He).
Qed.

(** The sample session spans two dates and has two days, also after B is
    removed from its first day. *)
Lemma produced_trip_witness :
  create sample_settings "trip_1" "New York" sample_constraints [poi_B; poi_A]
  = Ok sample_trip
  /\ edit sample_settings [poi_B; poi_A] sample_trip sample_removal = Edited sample_edited
  /\ Produced sample_settings sample_edited
  /\ Z.of_nat (List.length (days sample_edited)) = 20443 - 20442 + 1.
Proof.
  assert (H : Produced sample_settings sample_edited).
  { apply (produced_by_edit sample_settings [poi_B; poi_A] sample_trip sample_removal).
    - apply (produced_by_create sample_settings "trip_1" "New York" sample_constraints
               [poi_B; poi_A]).
      reflexivity.
    - reflexivity. }
  split; [reflexivity|]. split; [reflexivity|]. split; [exact H|].
  exact (proj1 (proj1 (produced_trip_days_span sample_settings) sample_edited H)).
Defined.

End LifecycleClaims.

Module CreationClaims.
Import Api Vocabulary ApiFacts.

(** C1. Every trip create returns has the status completed or failed, never
    any other, and carries its list of validation errors, which is not
    empty when the trip failed. In the client, whatever
    pollTripUntilComplete returns, for every sequence of getTrip outcomes,
    is a trip the server sent with the status 'completed'; and createTrip
    resolves with the ticket of an ok response as the server wrote it, its
    status string included, and with nothing else. *)
Theorem created_trip_status_and_errors :
  (forall (cfg : Engine.Settings) (id city_name : string)
          (c : Engine.TripConstraints) (poiPool : list Engine.POI) (t : Engine.Trip),
     Engine.create cfg id city_name c poiPool = Engine.Ok t ->
     (Engine.status t = Engine.completed \/ Engine.status t = Engine.failed)
     /\ Engine.status t <> Engine.processing
     /\ exists errors : list string,
          Engine.validation_errors t = errors
          /\ (Engine.status t = Engine.failed -> errors <> [])
          /\ (Engine.status t = Engine.completed ->
              forall e, In e errors ->
                e = "empty day"%string
                \/ exists v, e = ("patched: " ++ Engine.describe v)%string))
  /\ (forall (server : Server) (maxAttempts : Z) (trip : TripResponse.t),
        settled (pollTripUntilComplete server maxAttempts) = Resolved trip ->
        TripResponse.status trip = "completed"
        /\ exists k, (k < Z.to_nat maxAttempts)%nat /\ getTrip (server k) = Resolved trip)
  /\ (forall (r : Response TripTicket.t) (ticket : TripTicket.t),
        ok r = true -> body r = Json ticket ->
        createTrip (Reply r) = Resolved ticket)
  /\ (forall (f : Fetched TripTicket.t) (ticket : TripTicket.t),
        createTrip f = Resolved ticket ->
        exists r, f = Reply r /\ ok r = true /\ body r = Json ticket).
Proof.
  split; [|split; [|split]].
  - intros cfg id city_name c poiPool t Hc.
    pose proof (EngineClaims.created_status _ _ _ _ _ _ Hc) as Hs.
    split; [exact Hs|]. split; [destruct Hs as [Hs|Hs]; rewrite Hs; discriminate|].
    exists (Engine.validation_errors t). split; [reflexivity|].
    unfold Engine.create in Hc.
    destruct (Engine.end_date c <? Engine.start_date c)%Z; [discriminate|].
    inversion Hc as [Ht]. clear Hc Hs. split.
    + apply EditFacts.validate_failed_recorded.
    + intros Hs e Hin.
      destruct (EditFacts.validate_completed_records _ _ Hs e Hin) as [Hnote|Hpatch].
      * left. exact (EditFacts.empty_day_notes_In _ _ Hnote).
      * right. exact Hpatch.
  - intros server maxAttempts trip H. unfold pollTripUntilComplete in H.
    destruct (poll_loop_resolved server _ _ _ _ H) as [Hs [k [Hk Hg]]].
    split; [exact Hs|]. exists k. split; [lia|exact Hg].
  - intros r ticket Hok Hbody. unfold createTrip, json. now rewrite Hok, Hbody.
  - intros f ticket. destruct f as [r|m]; simpl; [|discriminate].
    destruct (ok r) eqn:Hok; simpl; [|discriminate].
    unfold json. destruct (body r) as [a|m] eqn:Hbody; [|discriminate].
    intros H. inversion H; subst. now exists r.
Qed.

End CreationClaims.

(** ** The client on sample inputs *)

Module Evaluations.
Import Api Vocabulary Samples.

(** Two pending answers, then the completed trip: returned after three GETs. *)
Example poll_returns_completed :
  pollTripUntilComplete (server_after_two finished_trip) default_maxAttempts
  = {| settled := Resolved finished_trip;
       calls := 3;
       reported := ["processing"; "processing"; "completed"] |}.
Proof. reflexivity. Qed.

(** Two pending answers, then a failed trip: its errors are thrown, joined. *)
Example poll_throws_failed :
  pollTripUntilComplete (server_after_two failed_trip) default_maxAttempts
  = {| settled := Rejected (Error "no POIs found, planner timed out");
       calls := 3;
       reported := ["processing"; "processing"; "failed"] |}.
Proof. reflexivity. Qed.

(** With two attempts only pending answers are seen: the loop times out. *)
Example poll_times_out :
  pollTripUntilComplete (server_after_two finished_trip) 2
  = {| settled := Rejected (Error "Trip generation timed out");
       calls := 2;
       reported := ["processing"; "processing"] |}.
Proof. reflexivity. Qed.

(** A bound that is not positive issues no GET at all. *)
Example poll_without_attempts :
  pollTripUntilComplete (server_after_two finished_trip) (-1)
  = {| settled := Rejected (Error "Trip generation timed out");
       calls := 0;
       reported := [] |}.
Proof. reflexivity. Qed.

Example editTrip_conflict :
  editTrip (reply_with 409 "Conflict" finished_trip) = Rejected (Error busy_message).
Proof. reflexivity. Qed.

Example editTrip_missing :
  editTrip (reply_with 404 "Not Found" finished_trip) = Rejected (Error "Trip not found").
Proof. reflexivity. Qed.

Example editTrip_server_error :
  editTrip (reply_with 500 "Internal Server Error" finished_trip)
  = Rejected (Error "Failed to edit trip: Internal Server Error").
Proof. reflexivity. Qed.

(** A day with neither blocks nor activities converts to an empty day. *)
Example convertDay_empty :
  TripConverter.convertDay
    {| Day.date := "2025-12-21"; Day.blocks := None; Day.activities := None |}
  = {| FrontendDay.date := "2025-12-21"; FrontendDay.activities := [] |}.
Proof. reflexivity. Qed.

Example event_of_pizza :
  @CalendarExport.event_lines sample_runtime pizza first_day "New York" "S" 0
  = [ "BEGIN:VEVENT"; "UID:S-0@wandergenie"; "DTSTAMP:S";
      "DTSTART:20251220T093000Z"; "DTEND:20251220T110000Z";
      "SUMMARY:Joe's Pizza\, SoHo";
      "LOCATION:Joe's Pizza\, SoHo\, New York";
      "DESCRIPTION:Type: food | Booking required | Link: https://example.com/a\;b";
      "URL:https://example.com/a\;b"; "END:VEVENT" ].
Proof. vm_compute. reflexivity. Qed.

Example hotels_of_weekend :
  TravelLinks.url (@TravelLinks.buildHotelsLink sample_runtime weekend)
  = "https://www.booking.com/searchresults.html?ss=New+York+near+Joe%27s+Pizza%2C+SoHo&checkin=2025-12-20&checkout=2025-12-20&group_adults=2&no_rooms=1&group_children=0&selected_latitude=40.7223&selected_longitude=40.7223&radius=5&order=distance_from_landmark".
Proof. vm_compute. reflexivity. Qed.

(** The hook on a PATCH answered with 409: the catch block runs and no
    setTrip call is made. *)
Example modifyTrip_on_conflict :
  UseTrip.modifyTrip
    {| UseTrip.trip := Some (TripConverter.convertBackendTripToFrontend finished_trip);
       UseTrip.isLoading := false; UseTrip.error := None; UseTrip.progress := None |}
    {| UseTrip.first_reply := reply_with 409 "Conflict" finished_trip;
       UseTrip.server := server_after_two finished_trip |}
  = [ UseTrip.setIsLoading true; UseTrip.setError None;
      UseTrip.setProgress (Some "Modifying trip...");
      UseTrip.setError (Some busy_message); UseTrip.setProgress None;
      UseTrip.setIsLoading false ].
Proof. reflexivity. Qed.

(** A PATCH answered 200 with a trip whose status is 'failed' does not throw:
    the hook takes the branch for a trip that is not processing and installs
    the conversion of that trip. *)
Example modifyTrip_on_failed_reply :
  UseTrip.modifyTrip
    {| UseTrip.trip := Some (TripConverter.convertBackendTripToFrontend finished_trip);
       UseTrip.isLoading := false; UseTrip.error := None; UseTrip.progress := None |}
    {| UseTrip.first_reply := reply_with 200 "OK" failed_trip;
       UseTrip.server := server_after_two finished_trip |}
  = [ UseTrip.setIsLoading true; UseTrip.setError None;
      UseTrip.setProgress (Some "Modifying trip...");
      UseTrip.setProgress (Some "Updating itinerary...");
      UseTrip.setTrip (Some (TripConverter.convertBackendTripToFrontend failed_trip));
      UseTrip.setProgress None;
      UseTrip.setIsLoading false ].
Proof. reflexivity. Qed.

End Evaluations.

(** ** Further facts about services/api.ts *)

Module ApiCoverage.
Import Api Vocabulary CoverageVocabulary StringFacts ApiFacts.

(** X1. createTrip, getTrip and createTripSync resolve exactly with the
    parsed body of an ok response: a response that is not ok, a body that
    does not parse and a failed request all reject. getTrip rejects with
    'Trip not found' exactly on a 404. *)
Theorem requests_resolve_only_from_ok :
  (forall f ticket,
     createTrip f = Resolved ticket
     <-> exists r, f = Reply r /\ ok r = true /\ body r = Json ticket)
  /\ (forall f trip,
        getTrip f = Resolved trip
        <-> exists r, f = Reply r /\ ok r = true /\ body r = Json trip)
  /\ (forall f trip,
        createTripSync f = Resolved trip
        <-> exists r, f = Reply r /\ ok r = true /\ body r = Json trip)
  /\ (forall f,
        getTrip f = Rejected (Error "Trip not found")
        <-> exists r, f = Reply r /\ status r = 404%Z).
Proof.
  split; [|split; [|split]].
  - intros f ticket. split.
    + destruct f as [r|m]; simpl; [|discriminate].
      destruct (ok r) eqn:Hok; simpl; [|discriminate].
      unfold json. destruct (body r) eqn:Hb; [|discriminate].
      intros H. inversion H; subst. now exists r.
    + intros [r [-> [Hok Hb]]]. simpl. unfold json. now rewrite Hok, Hb.
  - intros f trip. split.
    + destruct f as [r|m]; simpl; [|discriminate].
      destruct (ok r) eqn:Hok; simpl.
      * unfold json. destruct (body r) eqn:Hb; [|discriminate].
        intros H. inversion H; subst. now exists r.
      * destruct (status r =? 404)%Z; discriminate.
    + intros [r [-> [Hok Hb]]]. simpl. unfold json. now rewrite Hok, Hb.
  - intros f trip. split.
    + destruct f as [r|m]; simpl; [|discriminate].
      destruct (ok r) eqn:Hok; simpl; [|discriminate].
      unfold json. destruct (body r) eqn:Hb; [|discriminate].
      intros H. inversion H; subst. now exists r.
    + intros [r [-> [Hok Hb]]]. simpl. unfold json. now rewrite Hok, Hb.
  - intros f. split.
    + destruct f as [r|m]; simpl; [|discriminate].
      destruct (ok r) eqn:Hok; simpl.
      * unfold json. destruct (body r); discriminate.
      * destruct (Z.eqb_spec (status r) 404); [|discriminate].
        intros _. now exists r.
    + intros [r [-> H404]]. simpl. unfold ok. rewrite H404. reflexivity.
Qed.

Lemma seq_cons_sub a c : (a < c)%nat -> seq a (c - a) = a :: seq (S a) (c - S a).
Proof.
  intros H. replace (c - a)%nat with (S (c - S a)) by lia. reflexivity.
Qed.

Lemma poll_loop_reported server remaining :
  forall attempt seen,
    reported (poll_loop server remaining attempt seen)
    = seen
      ++ flat_map
           (fun k => match getTrip (server k) with
                     | Resolved trip => [TripResponse.status trip]
                     | Rejected _ => []
                     end)
           (seq attempt (calls (poll_loop server remaining attempt seen) - attempt)).
Proof.
  assert (Hone : forall a, (S a - a = 1)%nat) by (intros; lia).
  induction remaining as [|n IH]; intros attempt seen.
  - cbn [poll_loop calls reported]. rewrite Nat.sub_diag. simpl. now rewrite app_nil_r.
  - cbn [poll_loop].
    destruct (getTrip (server attempt)) as [trip|e] eqn:Hget.
    + destruct (String.eqb _ "completed").
      { cbn [calls reported]. rewrite Hone. cbn [seq flat_map]. now rewrite Hget. }
      destruct (String.eqb _ "failed").
      { cbn [calls reported]. rewrite Hone. cbn [seq flat_map]. now rewrite Hget. }
      rewrite IH.
      pose proof (poll_loop_calls server n (S attempt)
                    (seen ++ [TripResponse.status trip])) as Hc.
      rewrite (seq_cons_sub attempt) by lia. cbn [flat_map]. rewrite Hget.
      now rewrite <- app_assoc.
    + cbn [calls reported]. rewrite Hone. cbn [seq flat_map]. rewrite Hget.
      now rewrite app_nil_r.
Qed.

(** X2. onProgress is called once for every GET that resolved, with the
    status of that trip and in the order of the GETs; a GET that threw
    reports nothing. *)
Theorem poll_reports_every_status (server : Server) (maxAttempts : Z) :
  reported (pollTripUntilComplete server maxAttempts)
  = resolved_statuses server (calls (pollTripUntilComplete server maxAttempts)).
Proof.
  unfold pollTripUntilComplete, resolved_statuses.
  rewrite poll_loop_reported. simpl. now rewrite Nat.sub_0_r.
Qed.

Lemma poll_loop_more server k :
  forall remaining remaining' attempt seen,
    (k < remaining)%nat -> (remaining <= remaining')%nat ->
    (forall j, (j < k)%nat -> decides (server (attempt + j)%nat) = None) ->
    decides (server (attempt + k)%nat) <> None ->
    poll_loop server remaining' attempt seen = poll_loop server remaining attempt seen.
Proof.
  induction k as [|k IH]; intros remaining remaining' attempt seen Hlt Hle Hbefore Hk.
  - destruct remaining as [|n]; [lia|]. destruct remaining' as [|n']; [lia|].
    simpl. rewrite Nat.add_0_r in Hk. unfold decides in Hk.
    destruct (getTrip (server attempt)) as [trip|e]; [|reflexivity].
    destruct (String.eqb _ "completed"); [reflexivity|].
    destruct (String.eqb _ "failed"); [reflexivity|]. congruence.
  - destruct remaining as [|n]; [lia|]. destruct remaining' as [|n']; [lia|].
    simpl.
    destruct (getTrip (server attempt)) as [trip|e]; [|reflexivity].
    destruct (String.eqb _ "completed"); [reflexivity|].
    destruct (String.eqb _ "failed"); [reflexivity|].
    apply IH; [lia|lia| |].
    + intros j Hj. replace (S attempt + j)%nat with (attempt + S j)%nat by lia.
      apply Hbefore. lia.
    + replace (S attempt + k)%nat with (attempt + S k)%nat by lia. exact Hk.
Qed.

(** X3. Allowing more attempts never changes a run that was decided: when
    one of the first maxAttempts GETs settles the loop, every larger bound
    gives the same outcome, the same number of GETs and the same progress
    reports. *)
Theorem poll_decided_run_is_stable
    (server : Server) (maxAttempts maxAttempts' : Z) (k : nat) :
  (k < Z.to_nat maxAttempts)%nat ->
  (maxAttempts <= maxAttempts')%Z ->
  undecided_before server k ->
  decides (server k) <> None ->
  pollTripUntilComplete server maxAttempts'
  = pollTripUntilComplete server maxAttempts.
Proof.
  intros Hk Hle Hbefore Hdec. unfold pollTripUntilComplete.
  apply (poll_loop_more server k); [exact Hk|lia| |exact Hdec].
  intros j Hj. apply Hbefore, Hj.
Qed.

Lemma poll_decided_run_witness :
  pollTripUntilComplete (Samples.server_after_two finished_trip) 1000
  = pollTripUntilComplete (Samples.server_after_two finished_trip) 3.
Proof.
  apply (poll_decided_run_is_stable (Samples.server_after_two finished_trip) 3 1000 2).
  - vm_compute. lia.
  - lia.
  - intros [|[|j]] Hj; try reflexivity. lia.
  - discriminate.
Defined.

(** X4. The error thrown for a failed trip always has a message: the errors
    joined by a comma and a space when that text is not empty, and 'Trip
    generation failed' when the errors are absent, an empty list, or any
    list that joins to the empty text (a list holding one empty error, for
    one). *)
Theorem failure_message_never_empty (trip : TripResponse.t) :
  failure_message trip <> ""%string
  /\ (TripResponse.errors trip = None ->
        failure_message trip = "Trip generation failed"%string)
  /\ (TripResponse.errors trip = Some [] ->
        failure_message trip = "Trip generation failed"%string)
  /\ (forall es,
        TripResponse.errors trip = Some es -> join ", " es = ""%string ->
        failure_message trip = "Trip generation failed"%string)
  /\ (TripResponse.errors trip = Some [""%string] ->
        failure_message trip = "Trip generation failed"%string)
  /\ (forall es,
        TripResponse.errors trip = Some es -> join ", " es <> ""%string ->
        failure_message trip = join ", " es).
Proof.
  unfold failure_message, or_else.
  split; [|split; [|split; [|split; [|split]]]].
  - destruct (TripResponse.errors trip) as [es|]; [|discriminate].
    destruct (join ", " es) eqn:Hj; simpl; [discriminate|discriminate].
  - intros ->. reflexivity.
  - intros ->. reflexivity.
  - intros es -> Hj. rewrite Hj. reflexivity.
  - intros ->. reflexivity.
  - intros es -> Hne. destruct (join ", " es); [congruence|reflexivity].
Qed.

End ApiCoverage.

(** ** Further facts about hooks/useTrip.ts *)

Module UseTripCoverage.
Import Api Vocabulary CoverageVocabulary UseTrip TripConverter UseTripFacts ApiFacts.

(** A failing creation runs only progress updates and then the catch block. *)
Lemma create_body_on_failure w e :
  create_throws w = Some e ->
  exists ps,
    createNewTrip w
    = [setIsLoading true; setError None; setProgress (Some "Creating trip...")]
      ++ (map setProgress ps ++ on_catch e) ++ [setIsLoading false].
Proof.
  unfold create_throws, createNewTrip.
  destruct (createTrip (first_reply w)) as [ticket|e0].
  - destruct (settled (pollTripUntilComplete (server w) default_maxAttempts))
      as [t|e1]; [discriminate|].
    intros H. inversion H; subst.
    destruct (progress_updates_only_progress "Planning your perfect trip..."
                (reported (pollTripUntilComplete (server w) default_maxAttempts)))
      as [ps Hps].
    exists (Some "Generating itinerary..." :: ps). rewrite Hps. reflexivity.
  - intros H. inversion H; subst. now exists [].
Qed.

(** X5. When a creation fails, that is when the POST or the polling after
    it throws, createNewTrip makes no call of setTrip: a trip loaded before
    stays as it is after every single update, and the hook ends with the
    message of the error, no progress text and the loading flag down. *)
Theorem createNewTrip_failure_keeps_trip
    (s : HookState) (w : World TripTicket.t) (e : JsError) :
  create_throws w = Some e ->
  existsb is_setTrip (createNewTrip w) = false
  /\ (forall n, trip (run s (firstn n (createNewTrip w))) = trip s)
  /\ run s (createNewTrip w)
     = {| trip := trip s; isLoading := false;
          error := Some (message e); progress := None |}.
Proof.
  intros Hfail. destruct (create_body_on_failure w e Hfail) as [ps Hbody].
  assert (Hnone : existsb is_setTrip (createNewTrip w) = false).
  { rewrite Hbody, !existsb_app, map_setProgress_no_setTrip. reflexivity. }
  split; [exact Hnone|].
  split; [intros n; apply run_keeps_trip, firstn_no_setTrip, Hnone|].
  rewrite Hbody, <- !run_app.
  destruct (run_map_setProgress ps
              (run s [setIsLoading true; setError None;
                      setProgress (Some "Creating trip...")])) as [p Hp].
  rewrite Hp. reflexivity.
Qed.

Lemma createNewTrip_failure_witness :
  create_throws
    {| first_reply := NetworkError "Failed to fetch";
       server := fun _ => reply_with 200 "OK" finished_trip |}
  = Some (TypeError "Failed to fetch")
  /\ run {| trip := Some (convertBackendTripToFrontend finished_trip);
            isLoading := false; error := None; progress := None |}
         (createNewTrip
            {| first_reply := NetworkError "Failed to fetch";
               server := fun _ => reply_with 200 "OK" finished_trip |})
     = {| trip := Some (convertBackendTripToFrontend finished_trip);
          isLoading := false;
          error := Some "Failed to fetch"; progress := None |}.
Proof.
  split; [reflexivity|].
  exact (proj2 (proj2
    (createNewTrip_failure_keeps_trip
       {| trip := Some (convertBackendTripToFrontend finished_trip);
          isLoading := false; error := None; progress := None |}
       {| first_reply := NetworkError "Failed to fetch";
          server := fun _ => reply_with 200 "OK" finished_trip |}
       (TypeError "Failed to fetch") eq_refl))).
Defined.

(** X6. A creation that goes through, the POST resolving and the polling
    returning a trip, ends with the conversion of that trip installed, the
    error cleared, no progress text and the loading flag down, whatever the
    state before. *)
Theorem createNewTrip_success_installs
    (s : HookState) (w : World TripTicket.t) (ticket : TripTicket.t)
    (backendTrip : TripResponse.t) :
  createTrip (first_reply w) = Resolved ticket ->
  settled (pollTripUntilComplete (server w) default_maxAttempts) = Resolved backendTrip ->
  run s (createNewTrip w)
  = {| trip := Some (convertBackendTripToFrontend backendTrip);
       isLoading := false; error := None; progress := None |}.
Proof.
  intros Hpost Hpoll. unfold createNewTrip. rewrite Hpost, Hpoll.
  destruct (progress_updates_only_progress "Planning your perfect trip..."
              (reported (pollTripUntilComplete (server w) default_maxAttempts)))
    as [ps Hps].
  rewrite Hps.
  change (setProgress (Some "Generating itinerary...") :: map setProgress ps
          ++ [setTrip (Some (convertBackendTripToFrontend backendTrip));
              setProgress None])
    with (map setProgress (Some "Generating itinerary..." :: ps)
          ++ [setTrip (Some (convertBackendTripToFrontend backendTrip));
              setProgress None]).
  rewrite <- !run_app.
  destruct (run_map_setProgress (Some "Generating itinerary..." :: ps)
              (run s [setIsLoading true; setError None;
                      setProgress (Some "Creating trip...")])) as [p Hp].
  rewrite Hp. reflexivity.
Qed.

Lemma createNewTrip_success_witness :
  run {| trip := None; isLoading := false;
         error := Some "Trip not found"; progress := None |}
      (createNewTrip
         {| first_reply :=
              Reply {| status := 200; statusText := "OK";
                       body := Json {| TripTicket.trip_id := "trip_12345";
                                       TripTicket.status := "processing" |} |};
            server := Samples.server_after_two finished_trip |})
  = {| trip := Some (convertBackendTripToFrontend finished_trip);
       isLoading := false; error := None; progress := None |}.
Proof.
  exact (createNewTrip_success_installs _
           {| first_reply :=
                Reply {| status := 200; statusText := "OK";
                         body := Json {| TripTicket.trip_id := "trip_12345";
                                         TripTicket.status := "processing" |} |};
              server := Samples.server_after_two finished_trip |}
           _ finished_trip eq_refl eq_refl).
Defined.

(** The trips createNewTrip installs are conversions of completed trips. *)
Lemma createNewTrip_installs w t :
  In (setTrip t) (createNewTrip w) ->
  exists backendTrip,
    t = Some (convertBackendTripToFrontend backendTrip)
    /\ TripResponse.status backendTrip = "completed".
Proof.
  unfold createNewTrip. intros Hin.
  apply in_app_or in Hin. destruct Hin as [Hin|Hin].
  { simpl in Hin. repeat (destruct Hin as [Hin|Hin]; [discriminate|]). contradiction. }
  apply in_app_or in Hin. destruct Hin as [Hin|Hin].
  2:{ simpl in Hin. destruct Hin as [Hin|[]]. discriminate. }
  destruct (createTrip (first_reply w)) as [ticket|e].
  2:{ simpl in Hin. repeat (destruct Hin as [Hin|Hin]; [discriminate|]). contradiction. }
  destruct Hin as [Hin|Hin]; [discriminate|].
  apply in_app_or in Hin. destruct Hin as [Hin|Hin].
  { destruct (progress_updates_only_progress "Planning your perfect trip..."
                (reported (pollTripUntilComplete (server w) default_maxAttempts)))
      as [ps Hps].
    rewrite Hps in Hin. apply in_map_iff in Hin. destruct Hin as [p [Hp _]].
    discriminate. }
  destruct (settled (pollTripUntilComplete (server w) default_maxAttempts))
    as [backendTrip|e] eqn:Hsettled.
  2:{ simpl in Hin. repeat (destruct Hin as [Hin|Hin]; [discriminate|]). contradiction. }
  simpl in Hin. destruct Hin as [Hin|[Hin|[]]]; [|discriminate].
  inversion Hin; subst. exists backendTrip. split; [reflexivity|].
  unfold pollTripUntilComplete in Hsettled.
  now destruct (poll_loop_resolved _ _ _ _ _ Hsettled).
Qed.

(** The trips modifyTrip installs are conversions of trips that are not
    processing: the completed trip of the polling, or the reply itself. *)
Lemma modifyTrip_installs s w t :
  In (setTrip t) (modifyTrip s w) ->
  exists backendTrip,
    t = Some (convertBackendTripToFrontend backendTrip)
    /\ TripResponse.status backendTrip <> "processing".
Proof.
  unfold modifyTrip. destruct (trip s).
  2:{ intros [Hin|[]]. discriminate. }
  intros Hin. apply in_app_or in Hin. destruct Hin as [Hin|Hin].
  { simpl in Hin. repeat (destruct Hin as [Hin|Hin]; [discriminate|]). contradiction. }
  apply in_app_or in Hin. destruct Hin as [Hin|Hin].
  2:{ simpl in Hin. destruct Hin as [Hin|[]]. discriminate. }
  unfold modify_body in Hin.
  destruct (editTrip (first_reply w)) as [backendTrip|e].
  2:{ simpl in Hin. repeat (destruct Hin as [Hin|Hin]; [discriminate|]). contradiction. }
  destruct Hin as [Hin|Hin]; [discriminate|].
  destruct (String.eqb_spec (TripResponse.status backendTrip) "processing") as [Hp|Hp].
  - apply in_app_or in Hin. destruct Hin as [Hin|Hin].
    { destruct (progress_updates_only_progress "Applying your changes..."
                  (reported (pollTripUntilComplete (server w) default_maxAttempts)))
        as [ps Hps].
      rewrite Hps in Hin. apply in_map_iff in Hin. destruct Hin as [p [Hq _]].
      discriminate. }
    destruct (settled (pollTripUntilComplete (server w) default_maxAttempts))
      as [completedTrip|e] eqn:Hsettled.
    2:{ simpl in Hin. repeat (destruct Hin as [Hin|Hin]; [discriminate|]). contradiction. }
    simpl in Hin. destruct Hin as [Hin|[Hin|[]]]; [|discriminate].
    inversion Hin; subst. exists completedTrip. split; [reflexivity|].
    unfold pollTripUntilComplete in Hsettled.
    destruct (poll_loop_resolved _ _ _ _ _ Hsettled) as [Hs _].
    rewrite Hs. discriminate.
  - simpl in Hin. destruct Hin as [Hin|[Hin|[]]]; [|discriminate].
    inversion Hin; subst. now exists backendTrip.
Qed.

(** The trip after a run is the one before it or one a setTrip installed. *)
Lemma run_trip_from us :
  forall s, trip (run s us) = trip s \/ In (setTrip (trip (run s us))) us.
Proof.
  induction us as [|u us IH]; intros s; [now left|].
  change (run s (u :: us)) with (run (apply_update s u) us).
  destruct (IH (apply_update s u)) as [H|H].
  - rewrite H. destruct u; simpl; auto.
  - right. now right.
Qed.

(** Both operations finish by clearing the progress text and lowering the
    loading flag, on success and in the catch block alike. *)
Lemma createNewTrip_ends w :
  exists us, createNewTrip w = us ++ [setProgress None; setIsLoading false].
Proof.
  unfold createNewTrip, on_catch.
  destruct (createTrip (first_reply w)) as [ticket|e].
  - destruct (settled (pollTripUntilComplete (server w) default_maxAttempts))
      as [backendTrip|e].
    + eexists ([setIsLoading true; setError None; setProgress (Some "Creating trip...")]
               ++ setProgress (Some "Generating itinerary...")
                  :: progress_updates "Planning your perfect trip..." _
                  ++ [setTrip _]).
      rewrite <- !app_assoc. simpl. rewrite <- !app_assoc. reflexivity.
    + eexists ([setIsLoading true; setError None; setProgress (Some "Creating trip...")]
               ++ setProgress (Some "Generating itinerary...")
                  :: progress_updates "Planning your perfect trip..." _
                  ++ [setError _]).
      rewrite <- !app_assoc. simpl. rewrite <- !app_assoc. reflexivity.
  - eexists [setIsLoading true; setError None; setProgress (Some "Creating trip...");
             setError _].
    reflexivity.
Qed.

Lemma modifyTrip_ends s w :
  trip s <> None ->
  exists us, modifyTrip s w = us ++ [setProgress None; setIsLoading false].
Proof.
  intros Hsome. unfold modifyTrip, modify_body, on_catch.
  destruct (trip s); [|congruence].
  destruct (editTrip (first_reply w)) as [backendTrip|e].
  - destruct (String.eqb (TripResponse.status backendTrip) "processing").
    + destruct (settled (pollTripUntilComplete (server w) default_maxAttempts))
        as [completedTrip|e].
      * eexists ([setIsLoading true; setError None; setProgress (Some "Modifying trip...")]
                 ++ setProgress (Some "Updating itinerary...")
                    :: progress_updates "Applying your changes..." _
                    ++ [setTrip _]).
        rewrite <- !app_assoc. simpl. rewrite <- !app_assoc. reflexivity.
      * eexists ([setIsLoading true; setError None; setProgress (Some "Modifying trip...")]
                 ++ setProgress (Some "Updating itinerary...")
                    :: progress_updates "Applying your changes..." _
                    ++ [setError _]).
        rewrite <- !app_assoc. simpl. rewrite <- !app_assoc. reflexivity.
    + eexists [setIsLoading true; setError None; setProgress (Some "Modifying trip...");
               setProgress (Some "Updating itinerary..."); setTrip _].
      reflexivity.
  - eexists [setIsLoading true; setError None; setProgress (Some "Modifying trip...");
             setError _].
    reflexivity.
Qed.

Lemma run_ends_settled s us :
  progress (run s (us ++ [setProgress None; setIsLoading false])) = None.
Proof. now rewrite <- run_app. Qed.

(** X7. Between operations, run one after the other from the first render,
    the hook shows no progress text and no loading flag, and the trip it
    holds, if any, is never one that is still processing. *)
Theorem reachable_state_is_settled (s : HookState) :
  Reachable s ->
  isLoading s = false
  /\ progress s = None
  /\ forall t, trip s = Some t -> FrontendTrip.status t <> "processing".
Proof.
  intros Hreach. split; [now apply reachable_idle|].
  induction Hreach as [|s w Hr [IHp IHt]|s w Hr [IHp IHt]|s Hr [IHp IHt]].
  - split; [reflexivity|discriminate].
  - split.
    + destruct (createNewTrip_ends w) as [us ->]. apply run_ends_settled.
    + intros t Ht.
      destruct (run_trip_from (createNewTrip w) s) as [H|H].
      * apply IHt. now rewrite <- H.
      * rewrite Ht in H. destruct (createNewTrip_installs w _ H) as [bt [Heq Hs]].
        inversion Heq; subst. simpl. rewrite Hs. discriminate.
  - split.
    + destruct (trip s) as [t0|] eqn:Hts.
      * destruct (modifyTrip_ends s w) as [us ->]; [congruence|].
        apply run_ends_settled.
      * unfold modifyTrip. rewrite Hts. exact IHp.
    + intros t Ht.
      destruct (run_trip_from (modifyTrip s w) s) as [H|H].
      * apply IHt. now rewrite <- H.
      * rewrite Ht in H. destruct (modifyTrip_installs s w _ H) as [bt [Heq Hs]].
        inversion Heq; subst. exact Hs.
  - split; [reflexivity|]. intros t Ht. discriminate.
Qed.

Lemma reachable_state_witness :
  isLoading
    (run initial
       (createNewTrip
          {| first_reply := NetworkError "Failed to fetch";
             server := fun _ => reply_with 200 "OK" finished_trip |})) = false
  /\ progress
       (run initial
          (createNewTrip
             {| first_reply := NetworkError "Failed to fetch";
                server := fun _ => reply_with 200 "OK" finished_trip |})) = None.
Proof.
  destruct (reachable_state_is_settled _
              (reach_create initial
                 {| first_reply := NetworkError "Failed to fetch";
                    server := fun _ => reply_with 200 "OK" finished_trip |}
                 reach_initial)) as [H1 [H2 _]].
  split; [exact H1|exact H2].
Defined.

End UseTripCoverage.

(** ** Facts about components/ChatPanel.tsx and pages/Home.tsx *)

Module PageCoverage.
Import UseTrip ChatPanel HomePage.

Lemma isDisabled_blank trim prompt :
  isDisabled trim prompt = true <-> trim prompt = ""%string.
Proof.
  unfold isDisabled. destruct (trim prompt); simpl; split; congruence.
Qed.

(** X8. Submitting the chat panel calls at most one handler, with the
    trimmed prompt, and only when that is not blank: a blank prompt calls
    nothing and stays in the box, any other is cleared. onModify is called
    exactly when a trip exists and the handler was passed; otherwise onPlan
    is called if it was passed. *)
Theorem handleSubmit_routes (trim : string -> string) (props : Props) (prompt : string) :
  (trim prompt = ""%string -> handleSubmit trim props prompt = ([], prompt))
  /\ (trim prompt <> ""%string ->
        snd (handleSubmit trim props prompt) = ""%string
        /\ (hasExistingTrip props = Some true -> onModify props = true ->
              fst (handleSubmit trim props prompt) = [modify (trim prompt)])
        /\ (hasExistingTrip props <> Some true \/ onModify props = false ->
              fst (handleSubmit trim props prompt)
              = if onPlan props then [plan (trim prompt)] else []))
  /\ (List.length (fst (handleSubmit trim props prompt)) <= 1)%nat
  /\ (forall c, In c (fst (handleSubmit trim props prompt)) ->
        trim prompt <> ""%string
        /\ (c = plan (trim prompt) \/ c = modify (trim prompt))).
Proof.
  unfold handleSubmit.
  destruct (isDisabled trim prompt) eqn:Hd.
  - apply isDisabled_blank in Hd.
    split; [reflexivity|]. split; [congruence|]. split; [simpl; lia|].
    intros c [].
  - assert (Hne : trim prompt <> ""%string).
    { intros H. apply isDisabled_blank in H. congruence. }
    split; [congruence|]. split; [|split].
    + intros _. split; [reflexivity|]. split.
      * intros -> ->. reflexivity.
      * intros [H|H]; simpl.
        -- destruct (hasExistingTrip props) as [[|]|]; simpl; try reflexivity.
           congruence.
        -- rewrite H, andb_false_r. reflexivity.
    + simpl.
      destruct (CalendarExport.nullish (hasExistingTrip props) false && onModify props)%bool;
        [simpl; lia|].
      destruct (onPlan props); simpl; lia.
    + intros c Hin. split; [exact Hne|]. simpl in Hin.
      destruct (CalendarExport.nullish (hasExistingTrip props) false && onModify props)%bool.
      * destruct Hin as [<-|[]]. now right.
      * destruct (onPlan props); [|contradiction].
        destruct Hin as [<-|[]]. now left.
Qed.

(** X9. As the page wires the panel to the hook, a submit reaches
    modifyTrip only while a completed trip is loaded, so never through its
    'No trip to modify' exit; with no trip, or with a trip that is not
    completed, a submit reaches createNewTrip instead. *)
Theorem page_modifies_only_completed
    (trim : string -> string) (s : HookState) (prompt : string) :
  (forall instruction,
     In (modify instruction) (fst (handleSubmit trim (panel_props s) prompt)) ->
     exists t, trip s = Some t /\ FrontendTrip.status t = "completed"%string
               /\ forall w, hd_error (modifyTrip s w) = Some (setIsLoading true))
  /\ (forall p,
        In (plan p) (fst (handleSubmit trim (panel_props s) prompt)) ->
        hasPlan s = false)
  /\ (trim prompt <> ""%string ->
        fst (handleSubmit trim (panel_props s) prompt)
        = if hasPlan s then [modify (trim prompt)] else [plan (trim prompt)]).
Proof.
  unfold handleSubmit, panel_props. simpl.
  destruct (isDisabled trim prompt) eqn:Hd.
  - split; [intros i []|]. split; [intros p []|].
    intros Hne. apply isDisabled_blank in Hd. congruence.
  - rewrite andb_true_r. simpl. destruct (hasPlan s) eqn:Hp; simpl.
    + split; [|split; [|reflexivity]].
      * intros i _. unfold hasPlan in Hp.
        destruct (trip s) as [t|] eqn:Ht; [|discriminate].
        exists t. split; [reflexivity|]. split; [now apply String.eqb_eq|].
        intros w. unfold modifyTrip. rewrite Ht. reflexivity.
      * intros p [H|[]]. discriminate.
    + split; [|split; [|reflexivity]].
      * intros i [H|[]]. discriminate.
      * reflexivity.
Qed.

End PageCoverage.

(** ** Further facts about utils/tripConverter.ts *)

Module ConverterCoverage.
Import TripConverter.

Lemma or_undefined_spec value :
  or_undefined value <> Some ""%string
  /\ (forall s, value = Some s -> s <> ""%string -> or_undefined value = Some s)
  /\ (or_undefined value = None <-> value = None \/ value = Some ""%string).
Proof.
  unfold or_undefined. destruct value as [[|a s]|]; simpl.
  - split; [discriminate|]. split; [congruence|]. split; auto.
  - split; [discriminate|]. split; [congruence|].
    split; [discriminate|]. intros [H|H]; discriminate.
  - split; [discriminate|]. split; [discriminate|]. split; auto.
Qed.

(** X10. getActivityType answers 'food' exactly when the POI has at least
    one tag and either its name contains 'lunch' or one of its tags
    contains food, restaurant, cafe, pizza, lunch or dinner, letter case
    aside. A POI without tags is an attraction whatever its name. *)
Theorem getActivityType_food_iff (poi : POI.t) :
  (getActivityType poi = food
   <-> POI.tags poi <> []
       /\ (includes (toLowerCase (POI.name poi)) "lunch" = true
           \/ exists tag keyword,
                In tag (POI.tags poi)
                /\ In keyword ["food"; "restaurant"; "cafe"; "pizza"; "lunch"; "dinner"]%string
                /\ includes (toLowerCase tag) keyword = true))
  /\ (POI.tags poi = [] -> getActivityType poi = attraction).
Proof.
  unfold getActivityType. split.
  - destruct (existsb (food_tag poi) (map toLowerCase (POI.tags poi))) eqn:He.
    + split; [intros _|reflexivity].
      apply existsb_exists in He. destruct He as [low [Hin Hfood]].
      apply in_map_iff in Hin. destruct Hin as [tag [<- Hin]].
      split; [intros Hnil; rewrite Hnil in Hin; contradiction|].
      unfold food_tag in Hfood. repeat rewrite orb_true_iff in Hfood.
      destruct Hfood as [[[[[[H|H]|H]|H]|H]|H]|H]; [..|now left];
        right; exists tag; eexists; (split; [exact Hin|]);
        (split; [|exact H]); simpl; tauto.
    + split; [discriminate|]. intros [Hne Hor]. exfalso.
      assert (Ht : existsb (food_tag poi) (map toLowerCase (POI.tags poi)) = true);
        [|congruence].
      apply existsb_exists. destruct Hor as [Hname|[tag [kw [Hin [Hkw Hinc]]]]].
      * destruct (POI.tags poi) as [|tag rest]; [congruence|].
        exists (toLowerCase tag). split; [now left|].
        unfold food_tag. rewrite Hname. now rewrite !orb_true_r.
      * exists (toLowerCase tag). split; [now apply in_map|].
        unfold food_tag. simpl in Hkw.
        destruct Hkw as [<-|[<-|[<-|[<-|[<-|[<-|[]]]]]]]; rewrite Hinc;
          now rewrite ?orb_true_r.
  - intros ->. reflexivity.
Qed.

(** X11. A converted activity never carries an empty booking link or an
    empty note: null and the empty text both become undefined, nothing else
    does, and any other text is kept. The conversion of a trip keeps its
    days in order, each with its date, and keeps the status the server
    sent. *)
Theorem conversion_drops_empty_texts :
  (forall block : TimeBlock.t,
     FrontendActivity.booking_url (convertTimeBlockToActivity block) <> Some ""%string
     /\ FrontendActivity.notes (convertTimeBlockToActivity block) <> Some ""%string
     /\ (FrontendActivity.booking_url (convertTimeBlockToActivity block) = None
         <-> POI.booking_url (TimeBlock.poi block) = None
             \/ POI.booking_url (TimeBlock.poi block) = Some ""%string)
     /\ (FrontendActivity.notes (convertTimeBlockToActivity block) = None
         <-> POI.notes (TimeBlock.poi block) = None
             \/ POI.notes (TimeBlock.poi block) = Some ""%string)
     /\ (forall u, POI.booking_url (TimeBlock.poi block) = Some u -> u <> ""%string ->
           FrontendActivity.booking_url (convertTimeBlockToActivity block) = Some u)
     /\ (forall n, POI.notes (TimeBlock.poi block) = Some n -> n <> ""%string ->
           FrontendActivity.notes (convertTimeBlockToActivity block) = Some n))
  /\ (forall (backendTrip : TripResponse.t) (days : list Day.t),
        TripResponse.days backendTrip = Some days ->
        map FrontendDay.date (FrontendTrip.days (convertBackendTripToFrontend backendTrip))
        = map Day.date days)
  /\ (forall backendTrip : TripResponse.t,
        FrontendTrip.status (convertBackendTripToFrontend backendTrip)
        = TripResponse.status backendTrip).
Proof.
  split; [|split].
  - intros block. simpl.
    destruct (or_undefined_spec (POI.booking_url (TimeBlock.poi block)))
      as [Hu [Hku Hnu]].
    destruct (or_undefined_spec (POI.notes (TimeBlock.poi block))) as [Hn [Hkn Hnn]].
    split; [exact Hu|]. split; [exact Hn|]. split; [exact Hnu|].
    split; [exact Hnn|]. split; [exact Hku|exact Hkn].
  - intros backendTrip days H. unfold convertBackendTripToFrontend. rewrite H. simpl.
    rewrite map_map. apply map_ext. intros d. unfold convertDay.
    destruct (Day.blocks d); [reflexivity|]. now destruct (Day.activities d).
  - reflexivity.
Qed.

End ConverterCoverage.

(** ** Further facts about utils/calendarExport.ts *)

Module CalendarCoverage.
Import CalendarExport ExportVocabulary CoverageVocabulary StringFacts CalendarFacts.

Lemma escape_append a b : escape (a ++ b) = (escape a ++ escape b)%string.
Proof.
  induction a as [|x a IH]; simpl; [reflexivity|].
  now rewrite IH, append_assoc.
Qed.

Lemma escape_plain s : plain s -> escape s = s.
Proof.
  unfold plain. induction s as [|a s IH]; intros Hp; [reflexivity|].
  simpl. destruct (Hp a (or_introl eq_refl)) as [Hb [Hc [Hs Hn]]].
  unfold escape_char.
  destruct (Ascii.eqb_spec a "\"); [contradiction|].
  destruct (Ascii.eqb_spec a ","); [contradiction|].
  destruct (Ascii.eqb_spec a ";"); [contradiction|].
  destruct (Ascii.eqb_spec a (ascii_of_nat 10)); [contradiction|].
  simpl. rewrite IH; [reflexivity|]. intros b Hb'. apply Hp. now right.
Qed.

(** X12. sanitize works piece by piece: the escape of a concatenation is
    the concatenation of the escapes, a text without backslash, comma,
    semicolon and newline is left as it is, and so the LOCATION text is the
    escaped name, an escaped comma, a space and the escaped city. *)
Theorem sanitize_composes :
  (forall a b,
     sanitize (Some (a ++ b)%string) = (sanitize (Some a) ++ sanitize (Some b))%string)
  /\ (forall s, plain s -> sanitize (Some s) = s)
  /\ (forall name city,
        sanitize (Some (name ++ ", " ++ city)%string)
        = (sanitize (Some name) ++ "\, " ++ sanitize (Some city))%string).
Proof.
  split; [|split].
  - intros a b. rewrite !sanitize_escape. apply escape_append.
  - intros s Hp. rewrite sanitize_escape. now apply escape_plain.
  - intros name city. rewrite !sanitize_escape, !escape_append. reflexivity.
Qed.

Section WithRuntime.
Context {runtime : JsRuntime}.

Lemma numbered_nil trip : all_activities trip = [] -> numbered trip = [].
Proof.
  unfold numbered, all_activities. intros H.
  rewrite <- (numbered_from_activities (Trip.days trip) 0) in H.
  now apply map_eq_nil in H.
Qed.

(** X13. A trip without activities, with no days or with empty days only,
    exports as the bare calendar: the four header lines and the footer,
    whatever the clock says. *)
Theorem generateICS_without_activities (trip : Trip.t) :
  all_activities trip = [] ->
  generateICS trip
  = join newline
      [ "BEGIN:VCALENDAR"; "VERSION:2.0";
        "PRODID:-//WanderGenie//Trip Export//EN"; "CALSCALE:GREGORIAN";
        "END:VCALENDAR" ]%string.
Proof.
  intros H. unfold generateICS.
  assert (He : events trip (formatICSDate date_now) = []).
  { transitivity (map (build (Trip.city trip) (formatICSDate date_now)) (numbered trip)).
    - unfold events, numbered, mapi.
      apply (events_from (Trip.city trip) (formatICSDate date_now)).
    - now rewrite (numbered_nil trip H). }
  now rewrite He.
Qed.

End WithRuntime.

Lemma generateICS_empty_witness :
  @generateICS Samples.sample_runtime
    {| Trip.trip_id := None; Trip.status := None; Trip.city := "New York";
       Trip.origin := None; Trip.start_date := "2025-12-20"; Trip.end_date := None;
       Trip.days := [ {| TripDay.date := "2025-12-20"; TripDay.activities := [] |} ];
       Trip.booking_links := None |}
  = join newline
      [ "BEGIN:VCALENDAR"; "VERSION:2.0";
        "PRODID:-//WanderGenie//Trip Export//EN"; "CALSCALE:GREGORIAN";
        "END:VCALENDAR" ]%string.
Proof.
  exact (@generateICS_without_activities Samples.sample_runtime
           {| Trip.trip_id := None; Trip.status := None; Trip.city := "New York";
              Trip.origin := None; Trip.start_date := "2025-12-20";
              Trip.end_date := None;
              Trip.days := [ {| TripDay.date := "2025-12-20";
                                TripDay.activities := [] |} ];
              Trip.booking_links := None |}
           eq_refl).
Defined.

(** Printing an integer is injective. *)
Lemma num_toString_inj a b : num_toString (Some a) = num_toString (Some b) -> a = b.
Proof.
  unfold num_toString. intros H.
  assert (Hnn : forall z, Z.to_int z <> Decimal.Pos Decimal.Nil
                          /\ Z.to_int z <> Decimal.Neg Decimal.Nil).
  { intros [|p|p]; simpl; split; try discriminate;
      intros Hc; inversion Hc as [Hp];
      now apply Stdlib.Numbers.DecimalPos.Unsigned.to_uint_nonnil in Hp. }
  destruct (Hnn a) as [Ha1 Ha2]. destruct (Hnn b) as [Hb1 Hb2].
  pose proof (NilZero.isi _ Ha1 Ha2) as Ia. pose proof (NilZero.isi _ Hb1 Hb2) as Ib.
  rewrite H in Ia. rewrite Ia in Ib. inversion Ib as [Heq].
  now apply Stdlib.Numbers.DecimalZ.to_int_inj.
Qed.

Lemma append_inv_head (p a b : string) : (p ++ a)%string = (p ++ b)%string -> a = b.
Proof. induction p as [|x p IH]; simpl; intros H; [exact H|]. inversion H. auto. Qed.

Lemma append_inv_tail (c : string) :
  forall a b : string, (a ++ c)%string = (b ++ c)%string -> a = b.
Proof.
  induction a as [|x a IH]; intros [|y b] H; simpl in H.
  - reflexivity.
  - exfalso. apply (f_equal String.length) in H. simpl in H.
    rewrite length_append in H. lia.
  - exfalso. apply (f_equal String.length) in H. simpl in H.
    rewrite length_append in H. lia.
  - inversion H. f_equal. auto.
Qed.

Lemma uid_line_inj stamp i j : uid_line stamp i = uid_line stamp j -> i = j.
Proof.
  unfold uid_line. intros H.
  apply (append_inv_head "UID:") in H. apply append_inv_head in H.
  apply (append_inv_head "-") in H. apply append_inv_tail in H.
  now apply num_toString_inj.
Qed.

Lemma mapi_from_index {A} (f : A -> nat -> Z) (xs : list A) :
  forall i e, In e (mapi_from i f xs) ->
    exists x k, (i <= k < i + List.length xs)%nat /\ e = f x k.
Proof.
  induction xs as [|x xs IH]; intros i e Hin; [contradiction|].
  simpl in Hin. destruct Hin as [<-|Hin].
  - exists x, i. simpl. split; [lia|reflexivity].
  - destruct (IH (S i) e Hin) as [y [k [Hk He]]]. exists y, k. simpl. split; [lia|exact He].
Qed.

Lemma mapi_from_NoDup {A} (f : A -> nat -> Z) (xs : list A) :
  (forall x y k l, f x k = f y l -> k = l) ->
  forall i, NoDup (mapi_from i f xs).
Proof.
  intros Hinj. induction xs as [|x xs IH]; intros i; simpl; constructor.
  - intros Hin. destruct (mapi_from_index f xs (S i) _ Hin) as [y [k [Hk He]]].
    apply Hinj in He. lia.
  - apply IH.
Qed.

Lemma NoDup_map_injective {A B} (f : A -> B) (l : list A) :
  (forall x y, f x = f y -> x = y) -> NoDup l -> NoDup (map f l).
Proof.
  intros Hinj. induction 1 as [|x l Hx Hl IH]; simpl; constructor; [|exact IH].
  intros Hin. apply in_map_iff in Hin. destruct Hin as [y [Hy Hin]].
  apply Hinj in Hy. now subst.
Qed.

(** The indices of the numbered activities, day by day. *)
Lemma numbered_indices days :
  forall i,
    map snd (numbered_from i days)
    = List.concat
        (mapi_from i
           (fun day dayIndex =>
              mapi_from 0
                (fun (_ : TripActivity.t) activityIndex =>
                   (Z.of_nat dayIndex * 100 + Z.of_nat activityIndex)%Z)
                (TripDay.activities day))
           days).
Proof.
  induction days as [|day rest IH]; intros i; simpl; [reflexivity|].
  rewrite map_app, IH. f_equal. unfold mapi. now rewrite map_mapi_from.
Qed.

Lemma numbered_indices_NoDup days :
  (forall day, In day days -> (List.length (TripDay.activities day) <= 100)%nat) ->
  forall i,
    NoDup (map snd (numbered_from i days))
    /\ forall e, In e (map snd (numbered_from i days)) -> (Z.of_nat i * 100 <= e)%Z.
Proof.
  induction days as [|day rest IH]; intros Hsmall i.
  - simpl. split; [constructor|contradiction].
  - destruct (IH (fun d Hd => Hsmall d (or_intror Hd)) (S i)) as [Hnd Hlow].
    pose proof (Hsmall day (or_introl eq_refl)) as Hday.
    simpl. rewrite map_app. unfold mapi. rewrite map_mapi_from. simpl.
    assert (Hfirst : forall e,
              In e (mapi_from 0
                      (fun (_ : TripActivity.t) k => (Z.of_nat i * 100 + Z.of_nat k)%Z)
                      (TripDay.activities day)) ->
              (Z.of_nat i * 100 <= e < Z.of_nat (S i) * 100)%Z).
    { intros e He. destruct (mapi_from_index _ _ _ _ He) as [x [k [Hk ->]]]. lia. }
    split.
    + apply NoDup_app.
      * apply mapi_from_NoDup. intros x y k l H. lia.
      * exact Hnd.
      * intros e He1 He2. apply Hfirst in He1. apply Hlow in He2. lia.
    + intros e He. apply in_app_or in He. destruct He as [He|He].
      * apply Hfirst in He. lia.
      * apply Hlow in He. lia.
Qed.

Section WithRuntimeUid.
Context {runtime : JsRuntime}.

(** X14. While no day has more than 100 activities, the events of one
    export have pairwise distinct UID lines: the index, a hundred times the
    day plus the position in the day, never repeats, and it is printed in
    full between the stamp and the domain. *)
Theorem uids_are_distinct (trip : Trip.t) (stamp : string) :
  (forall day, In day (Trip.days trip) ->
     (List.length (TripDay.activities day) <= 100)%nat) ->
  NoDup (map (fun e : TripDay.t * TripActivity.t * Z => uid_line stamp (snd e))
           (numbered trip))
  /\ (forall activity day city index,
        nth_error (event_lines activity day city stamp index) 1
        = Some (uid_line stamp index)).
Proof.
  intros Hsmall. split; [|reflexivity].
  destruct (numbered_indices_NoDup (Trip.days trip) Hsmall 0) as [Hnd _].
  fold (numbered trip) in Hnd.
  rewrite <- (map_map snd (uid_line stamp)).
  apply NoDup_map_injective; [|exact Hnd].
  intros i j. apply uid_line_inj.
Qed.

End WithRuntimeUid.

Lemma uids_distinct_witness :
  NoDup (map (fun e : TripDay.t * TripActivity.t * Z => uid_line "S" (snd e))
           (numbered
              {| Trip.trip_id := None; Trip.status := None; Trip.city := "New York";
                 Trip.origin := None; Trip.start_date := "2025-12-20";
                 Trip.end_date := None;
                 Trip.days := [Samples.first_day; Samples.first_day];
                 Trip.booking_links := None |})).
Proof.
  refine (proj1 (@uids_are_distinct Samples.sample_runtime _ "S" _)).
  intros day [<-|[<-|[]]]; simpl; lia.
Defined.

End CalendarCoverage.

(** ** Further facts about utils/travelLinks.ts *)

Module LinksCoverage.
Import TravelLinks Vocabulary CoverageVocabulary StringFacts ApiFacts LinksFacts.

Lemma find_first {A} (f : A -> bool) (l : list A) a :
  find f l = Some a ->
  f a = true
  /\ exists before after,
       l = before ++ a :: after /\ forall b, In b before -> f b = false.
Proof.
  induction l as [|x l IH]; simpl; [discriminate|].
  destruct (f x) eqn:Hx.
  - intros H. inversion H; subst. split; [exact Hx|].
    exists [], l. split; [reflexivity|]. intros b [].
  - intros H. destruct (IH H) as [Ha [before [after [-> Hbefore]]]].
    split; [exact Ha|]. exists (x :: before), after. split; [reflexivity|].
    intros b [<-|Hb]; [exact Hx|now apply Hbefore].
Qed.

Lemma getPrimaryPOI_of_nil trip : getAllActivities trip = [] -> getPrimaryPOI trip = None.
Proof. unfold getPrimaryPOI. intros ->. reflexivity. Qed.

(** X15. getPrimaryPOI finds no anchor exactly when the trip has no
    activity. Otherwise the anchor is an activity of the trip: the first
    one, in day order, whose two coordinates are numbers, and when no
    activity has such coordinates the very first activity. *)
Theorem getPrimaryPOI_choice (trip : Trip.t) :
  (getPrimaryPOI trip = None <-> getAllActivities trip = [])
  /\ (forall anchor,
        getPrimaryPOI trip = Some anchor ->
        In anchor (getAllActivities trip)
        /\ (usable anchor = true ->
              exists before after,
                getAllActivities trip = before ++ anchor :: after
                /\ forall b, In b before -> usable b = false)
        /\ (usable anchor = false ->
              hd_error (getAllActivities trip) = Some anchor
              /\ forall b, In b (getAllActivities trip) -> usable b = false)).
Proof.
  unfold getPrimaryPOI. fold usable.
  change (fun activity : TripActivity.t =>
            (negb (isNaN (TripActivity.lat activity))
             && negb (isNaN (TripActivity.lon activity)))%bool) with usable.
  destruct (find usable (getAllActivities trip)) as [a|] eqn:Hfind.
  - destruct (find_first _ _ _ Hfind) as [Ha [before [after [Hl Hbefore]]]].
    split.
    + split; [discriminate|]. intros Hnil. rewrite Hnil in Hfind. discriminate.
    + intros anchor H. inversion H; subst anchor.
      split; [rewrite Hl; apply in_elt|]. split.
      * intros _. now exists before, after.
      * congruence.
  - pose proof (find_none _ _ Hfind) as Hnone. split.
    + destruct (getAllActivities trip); simpl; split; congruence.
    + intros anchor H. split; [|split].
      * destruct (getAllActivities trip); simpl in H; [discriminate|].
        inversion H. now left.
      * intros Hu. exfalso.
        assert (Hin : In anchor (getAllActivities trip)).
        { destruct (getAllActivities trip); simpl in H; [discriminate|].
          inversion H. now left. }
        rewrite (Hnone _ Hin) in Hu. discriminate.
      * intros _. split; [exact H|exact Hnone].
Qed.

Section WithRuntime.
Context {runtime : JsRuntime}.

(** X16. The search parameters of the hotels link never repeat a name. The
    four map parameters are there exactly when the anchor has two truthy
    coordinates, so an anchor on the equator or on the prime meridian goes
    without them though its name is still searched for; and with no
    activity at all the search is for the city centre. *)
Theorem hotel_params_coordinates (trip : Trip.t) :
  NoDup (map fst (hotel_params trip))
  /\ get "ss" (hotel_params trip)
     = Some (Trip.city trip ++ " near "
             ++ anchor_name (getPrimaryPOI trip) "city center")%string
  /\ (forall anchor,
        getPrimaryPOI trip = Some anchor ->
        truthy (TripActivity.lat anchor) = true ->
        truthy (TripActivity.lon anchor) = true ->
        get "selected_latitude" (hotel_params trip)
        = Some (float_toString (TripActivity.lat anchor))
        /\ get "selected_longitude" (hotel_params trip)
           = Some (float_toString (TripActivity.lon anchor))
        /\ get "radius" (hotel_params trip) = Some "5"%string
        /\ get "order" (hotel_params trip) = Some "distance_from_landmark"%string)
  /\ (has_coordinates (getPrimaryPOI trip) = false ->
        get "selected_latitude" (hotel_params trip) = None
        /\ get "selected_longitude" (hotel_params trip) = None
        /\ get "radius" (hotel_params trip) = None
        /\ get "order" (hotel_params trip) = None)
  /\ (forall anchor,
        getPrimaryPOI trip = Some anchor ->
        TripActivity.lat anchor = 0%float \/ TripActivity.lon anchor = 0%float ->
        has_coordinates (getPrimaryPOI trip) = false)
  /\ (getAllActivities trip = [] ->
        get "ss" (hotel_params trip) = Some (Trip.city trip ++ " near city center")%string
        /\ landmark (buildHotelsLink trip) = Trip.city trip).
Proof.
  assert (Hnd : forall (a b c d e f g h i j : string),
            NoDup (map fst [("ss", a); ("checkin", b); ("checkout", c);
                            ("group_adults", d); ("no_rooms", e);
                            ("group_children", f); ("selected_latitude", g);
                            ("selected_longitude", h); ("radius", i); ("order", j)]%string)).
  { intros. simpl.
    repeat (constructor; [simpl; intros Hin;
                          repeat (destruct Hin as [Hin|Hin]; [discriminate|]);
                          contradiction|]).
    constructor. }
  assert (Hnd6 : forall (a b c d e f : string),
            NoDup (map fst [("ss", a); ("checkin", b); ("checkout", c);
                            ("group_adults", d); ("no_rooms", e);
                            ("group_children", f)]%string)).
  { intros. simpl.
    repeat (constructor; [simpl; intros Hin;
                          repeat (destruct Hin as [Hin|Hin]; [discriminate|]);
                          contradiction|]).
    constructor. }
  unfold hotel_params, buildHotelsLink. simpl landmark.
  destruct (getPrimaryPOI trip) as [a|] eqn:Hp.
  - destruct (has_coordinates (Some a)) eqn:Hc.
    + split; [apply Hnd|]. split; [reflexivity|]. split; [|split; [|split]].
      * intros anchor H _ _. inversion H; subst. repeat split; reflexivity.
      * discriminate.
      * intros anchor H Hz. inversion H; subst. exfalso.
        simpl in Hc. apply andb_true_iff in Hc. destruct Hc as [H1 H2].
        destruct Hz as [Hz|Hz]; rewrite Hz in *; discriminate.
      * intros Hnil. exfalso.
        rewrite (getPrimaryPOI_of_nil trip Hnil) in Hp. discriminate.
    + split; [apply Hnd6|]. split; [reflexivity|]. split; [|split; [|split]].
      * intros anchor H H1 H2. inversion H; subst. simpl in Hc.
        rewrite H1, H2 in Hc. discriminate.
      * intros _. repeat split; reflexivity.
      * reflexivity.
      * intros Hnil. exfalso.
        rewrite (getPrimaryPOI_of_nil trip Hnil) in Hp. discriminate.
  - split; [apply Hnd6|]. split; [reflexivity|]. split; [|split; [|split]].
    + discriminate.
    + intros _. repeat split; reflexivity.
    + discriminate.
    + intros _. split; reflexivity.
Qed.

End WithRuntime.
End LinksCoverage.

(** ** Facts about the encoders of utils/travelLinks.ts *)

Module EncodingCoverage.
Import TravelLinks FlightsLink Vocabulary CoverageVocabulary StringFacts ApiFacts.

Section WithAllowed.
Variable allowed : ascii -> bool.

Lemma made_of_append a b :
  made_of allowed a -> made_of allowed b -> made_of allowed (a ++ b).
Proof.
  unfold made_of. intros Ha Hb c Hin.
  rewrite CalendarFacts.list_ascii_append in Hin.
  apply in_app_or in Hin. destruct Hin; auto.
Qed.

Lemma made_of_forallb s :
  forallb allowed (list_ascii_of_string s) = true -> made_of allowed s.
Proof. unfold made_of. intros H a Hin. now apply (proj1 (forallb_forall _ _) H). Qed.

Lemma join_made_of sep xs :
  made_of allowed sep -> (forall x, In x xs -> made_of allowed x) ->
  made_of allowed (join sep xs).
Proof.
  intros Hsep. unfold join. induction xs as [|x rest IH]; intros Hxs.
  - intros c [].
  - destruct rest as [|y rest'].
    + simpl. apply Hxs. now left.
    + change (String.concat sep (x :: y :: rest'))
        with (x ++ sep ++ String.concat sep (y :: rest'))%string.
      apply made_of_append; [apply Hxs; now left|].
      apply made_of_append; [exact Hsep|].
      apply IH. intros z Hz. apply Hxs. now right.
Qed.

End WithAllowed.

Lemma made_of_weaken (allowed allowed' : ascii -> bool) s :
  (forall a, allowed a = true -> allowed' a = true) ->
  made_of allowed s -> made_of allowed' s.
Proof. unfold made_of. auto. Qed.

Lemma urlencode_byte_form a : made_of form_char (urlencode_byte a).
Proof.
  apply made_of_forallb.
  destruct a as [[] [] [] [] [] [] [] []]; reflexivity.
Qed.

Lemma encode_byte_component a : made_of component_char (encode_byte a).
Proof.
  apply made_of_forallb.
  destruct a as [[] [] [] [] [] [] [] []]; reflexivity.
Qed.

Lemma urlencode_form s : made_of form_char (urlencode s).
Proof.
  induction s as [|a s IH]; simpl; [intros c []|].
  apply made_of_append; [apply urlencode_byte_form|exact IH].
Qed.

Lemma encodeURIComponent_component s : made_of component_char (encodeURIComponent s).
Proof.
  induction s as [|a s IH]; simpl; [intros c []|].
  apply made_of_append; [apply encode_byte_component|exact IH].
Qed.

Lemma form_char_query a : form_char a = true -> form_query_char a = true.
Proof. unfold form_query_char. now intros ->. Qed.

(** What the characters the two encoders emit are not: none is outside
    ASCII and none is a breaking character; the form encoder emits no
    separator and no apostrophe, parenthesis, exclamation mark or tilde; the
    component encoder emits no separator and no plus sign. *)
Lemma emitted_chars a :
  (form_query_char a = true ->
     (nat_of_ascii a < 128)%nat /\ existsb (Ascii.eqb a) breaking = false
     /\ existsb (Ascii.eqb a) sub_delims = false)
  /\ (form_char a = true -> a <> "&"%char /\ a <> "="%char)
  /\ (component_char a = true ->
      (nat_of_ascii a < 128)%nat /\ existsb (Ascii.eqb a) breaking = false
      /\ a <> "&"%char /\ a <> "="%char /\ a <> "+"%char).
Proof.
  destruct a as [[] [] [] [] [] [] [] []];
    (split; [|split]); intros H; try discriminate H;
    repeat split; try reflexivity; try discriminate; vm_compute; lia.
Qed.

Section WithRuntime.
Context {runtime : JsRuntime} {locale : JsLocale}.

(** X17. Whatever the city, the names of the activities and the printed
    coordinates contain, the query of the generated hotels address is made
    of ASCII letters and digits, the marks * - . _, plus signs for spaces,
    percent escapes and the separators & and =; the encoded text of the
    generated flights address is made of ASCII letters and digits, the marks
    - _ . ! ~ * ' ( ) and percent escapes. So neither holds a raw space,
    double quote, number sign, slash, angle bracket, question mark or byte
    outside ASCII, and no value holds a raw & or =. An apostrophe, a
    parenthesis, an exclamation mark and a tilde are escaped in the hotels
    query and stay as they are in the flights text. *)
Theorem generated_queries_are_safe (trip : Trip.t) :
  TravelLinks.generatedUrl trip
  = ("https://www.booking.com/searchresults.html?"
     ++ params_toString (hotel_params trip))%string
  /\ made_of form_query_char (params_toString (hotel_params trip))
  /\ FlightsLink.generatedUrl trip
     = ("https://www.google.com/travel/flights?q="
        ++ encodeURIComponent (flights_query trip))%string
  /\ made_of component_char (encodeURIComponent (flights_query trip))
  /\ (forall params : Params, made_of form_query_char (params_toString params))
  /\ (forall s, made_of form_char (urlencode s)
                /\ made_of component_char (encodeURIComponent s))
  /\ (forall a,
        form_query_char a = true ->
        (nat_of_ascii a < 128)%nat /\ existsb (Ascii.eqb a) breaking = false
        /\ existsb (Ascii.eqb a) sub_delims = false)
  /\ (forall a, form_char a = true -> a <> "&"%char /\ a <> "="%char)
  /\ (forall a,
        component_char a = true ->
        (nat_of_ascii a < 128)%nat /\ existsb (Ascii.eqb a) breaking = false
        /\ a <> "&"%char /\ a <> "="%char /\ a <> "+"%char)
  /\ (forall a, In a sub_delims ->
        encodeURIComponent (String a EmptyString) = String a EmptyString
        /\ urlencode (String a EmptyString) <> String a EmptyString
        /\ String.length (urlencode (String a EmptyString)) = 3%nat)
  /\ urlencode "Coeur d'Alene (ID)!" = "Coeur+d%27Alene+%28ID%29%21"%string
  /\ encodeURIComponent "Coeur d'Alene (ID)!" = "Coeur%20d'Alene%20(ID)!"%string.
Proof.
  assert (Hparams : forall params : Params,
             made_of form_query_char (params_toString params)).
  { intros params. unfold params_toString. apply join_made_of.
    - apply made_of_forallb. reflexivity.
    - intros x Hin. apply in_map_iff in Hin. destruct Hin as [[n v] [<- _]].
      cbn [fst snd].
      apply made_of_append;
        [apply (made_of_weaken form_char); [exact form_char_query|apply urlencode_form]|].
      apply made_of_append; [apply made_of_forallb; reflexivity|].
      apply (made_of_weaken form_char); [exact form_char_query|apply urlencode_form]. }
  split; [reflexivity|]. split; [apply Hparams|].
  split; [reflexivity|]. split; [apply encodeURIComponent_component|].
  split; [exact Hparams|].
  split; [intros s; split; [apply urlencode_form|apply encodeURIComponent_component]|].
  split; [intros a; exact (proj1 (emitted_chars a))|].
  split; [intros a; exact (proj1 (proj2 (emitted_chars a)))|].
  split; [intros a; exact (proj2 (proj2 (emitted_chars a)))|].
  split; [|split; reflexivity].
  intros a Hin. simpl in Hin.
  destruct Hin as [<-|[<-|[<-|[<-|[<-|[]]]]]];
    (split; [reflexivity|split; [discriminate|reflexivity]]).
Qed.

End WithRuntime.
End EncodingCoverage.

(** ** Further facts about components/ItineraryTimeline.tsx *)

Module TimelineCoverage.
Import DurationLabel.
Local Open Scope Z_scope.

(** X19. A positive duration is labelled by its whole hours and its
    remaining minutes, which add up to it, and a part that is zero is left
    out: minutes alone under an hour, hours alone on the hour. A duration
    that is absent or zero has no label. *)
Theorem durationLabel_parts (d : Z) :
  0 < d ->
  durationLabel None = None
  /\ durationLabel (Some 0) = None
  /\ 60 * (d / 60) + d mod 60 = d
  /\ 0 <= d mod 60 < 60
  /\ durationLabel (Some d)
     = Some (if d <? 60 then (num_toString (Some d) ++ "m")%string
             else if d mod 60 =? 0 then (num_toString (Some (d / 60)) ++ "h")%string
             else (num_toString (Some (d / 60)) ++ "h "
                   ++ num_toString (Some (d mod 60)) ++ "m")%string).
Proof.
  intros Hd. split; [reflexivity|]. split; [reflexivity|].
  pose proof (Z.div_mod d 60 ltac:(lia)) as Hdm.
  pose proof (Z.mod_pos_bound d 60 ltac:(lia)) as Hm.
  split; [lia|]. split; [lia|].
  unfold durationLabel.
  destruct (Z.eqb_spec d 0) as [|_]; [lia|].
  rewrite Z.rem_mod_nonneg by lia.
  destruct (Z.ltb_spec d 60) as [Hlt|Hge].
  - rewrite Z.div_small by lia. rewrite Z.mod_small by lia. reflexivity.
  - assert (Hh : d / 60 <> 0).
    { intros H0. rewrite H0 in Hdm. lia. }
    destruct (Z.eqb_spec (d / 60) 0) as [|_]; [contradiction|].
    destruct (Z.eqb_spec (d mod 60) 0); reflexivity.
Qed.

Lemma durationLabel_witness :
  durationLabel (Some 90) = Some "1h 30m"%string
  /\ durationLabel (Some 120) = Some "2h"%string
  /\ durationLabel (Some 45) = Some "45m"%string.
Proof.
  split; [|split].
  - exact (proj2 (proj2 (proj2 (proj2 (durationLabel_parts 90 eq_refl))))).
  - exact (proj2 (proj2 (proj2 (proj2 (durationLabel_parts 120 eq_refl))))).
  - exact (proj2 (proj2 (proj2 (proj2 (durationLabel_parts 45 eq_refl))))).
Defined.

End TimelineCoverage.

(** ** Facts about the date stamps of utils/calendarExport.ts *)

Module StampCoverage.
Import CalendarExport StringFacts.

Lemma pad_two_digits z : (0 <= z <= 99)%Z -> String.length (pad (Some z)) = 2%nat.
Proof.
  intros Hz.
  assert (Hall : forallb
                   (fun n => Nat.eqb (String.length (pad (Some (Z.of_nat n)))) 2)
                   (seq 0 100) = true) by (vm_compute; reflexivity).
  pose proof (proj1 (forallb_forall _ _) Hall (Z.to_nat z)) as H.
  cbv beta in H. rewrite Z2Nat.id in H by lia.
  apply Nat.eqb_eq, H, in_seq. lia.
Qed.

Lemma year_four_digits z :
  (1000 <= z <= 9999)%Z -> String.length (num_toString (Some z)) = 4%nat.
Proof.
  intros Hz.
  assert (Hall : forallb
                   (fun n => Nat.eqb (String.length (num_toString (Some (Z.of_nat n)))) 4)
                   (seq (Z.to_nat 1000) (Z.to_nat 9000)) = true)
    by (vm_compute; reflexivity).
  pose proof (proj1 (forallb_forall _ _) Hall (Z.to_nat z)) as H.
  cbv beta in H. rewrite Z2Nat.id in H by lia.
  apply Nat.eqb_eq, H, in_seq. lia.
Qed.

Section WithRuntime.
Context {runtime : JsRuntime}.

(** X21. For a valid date whose UTC year has four digits, and with the
    calendar getters in their ranges, formatICSDate gives the sixteen
    characters of a UTC date-time: eight for the date, a T, six for the time
    and a Z. Every field but the year is padded to two digits; the year is
    printed as it is. An invalid date is printed too, as NaN fields. *)
Theorem formatICSDate_shape (t : Z) :
  (1000 <= getUTCFullYear t <= 9999)%Z ->
  (0 <= getUTCMonth t <= 11)%Z ->
  (1 <= getUTCDate t <= 31)%Z ->
  (0 <= getUTCHours t <= 23)%Z ->
  (0 <= getUTCMinutes t <= 59)%Z ->
  (0 <= getUTCSeconds t <= 59)%Z ->
  (exists date time,
     formatICSDate (Some t) = (date ++ "T" ++ time ++ "Z")%string
     /\ String.length date = 8%nat /\ String.length time = 6%nat)
  /\ String.length (formatICSDate (Some t)) = 16%nat
  /\ formatICSDate None = "NaNNaNNaNTNaNNaNNaNZ"%string.
Proof.
  intros Hy Hm Hd Hh Hmin Hs.
  assert (Hform :
            formatICSDate (Some t)
            = ((num_toString (Some (getUTCFullYear t))
                ++ pad (Some (getUTCMonth t + 1)%Z)
                ++ pad (Some (getUTCDate t)))
               ++ "T"
               ++ (pad (Some (getUTCHours t))
                   ++ pad (Some (getUTCMinutes t))
                   ++ pad (Some (getUTCSeconds t)))
               ++ "Z")%string).
  { unfold formatICSDate, getter. simpl option_map. unfold num_add.
    now rewrite !append_assoc. }
  assert (Hdate : String.length
                    (num_toString (Some (getUTCFullYear t))
                     ++ pad (Some (getUTCMonth t + 1)%Z)
                     ++ pad (Some (getUTCDate t))) = 8%nat).
  { rewrite !length_append, year_four_digits, !pad_two_digits by lia. reflexivity. }
  assert (Htime : String.length
                    (pad (Some (getUTCHours t))
                     ++ pad (Some (getUTCMinutes t))
                     ++ pad (Some (getUTCSeconds t))) = 6%nat).
  { rewrite !length_append, !pad_two_digits by lia. reflexivity. }
  split; [|split; [|reflexivity]].
  - eexists _, _. split; [exact Hform|]. split; [exact Hdate|exact Htime].
  - rewrite Hform, length_append, Hdate.
    change (String.length ("T" ++ ?x)) with (S (String.length x)).
    rewrite length_append, Htime. reflexivity.
Qed.

End WithRuntime.

Lemma formatICSDate_witness :
  String.length (@formatICSDate Samples.sample_runtime (Some 34200000%Z)) = 16%nat.
Proof.
  refine (proj1 (proj2 (@formatICSDate_shape Samples.sample_runtime 34200000 _ _ _ _ _ _)));
    vm_compute; split; discriminate.
Defined.

End StampCoverage.

(** ** A successful edit in hooks/useTrip.ts *)

Module EditCoverage.
Import Api Vocabulary CoverageVocabulary UseTrip TripConverter UseTripFacts.

(** X22. An edit that does not throw installs a trip and clears the error:
    the reply of the PATCH itself when its status is not 'processing',
    a failed trip included, and otherwise the trip the polling returned. The
    hook ends with no progress text and the loading flag down. *)
Theorem modifyTrip_success_installs (s : HookState) (w : World TripResponse.t) :
  trip s <> None ->
  edit_throws w = None ->
  exists backendTrip,
    run s (modifyTrip s w)
    = {| trip := Some (convertBackendTripToFrontend backendTrip);
         isLoading := false; error := None; progress := None |}
    /\ (forall reply,
          editTrip (first_reply w) = Resolved reply ->
          TripResponse.status reply <> "processing"%string ->
          backendTrip = reply)
    /\ (forall reply,
          editTrip (first_reply w) = Resolved reply ->
          TripResponse.status reply = "processing"%string ->
          settled (pollTripUntilComplete (server w) default_maxAttempts)
          = Resolved backendTrip).
Proof.
  intros Hsome Hok. unfold edit_throws in Hok. unfold modifyTrip, modify_body.
  destruct (trip s) as [t0|] eqn:Ht; [|congruence].
  destruct (editTrip (first_reply w)) as [reply|e]; [|discriminate].
  destruct (String.eqb_spec (TripResponse.status reply) "processing") as [Hp|Hp].
  - destruct (settled (pollTripUntilComplete (server w) default_maxAttempts))
      as [completedTrip|e]; [|discriminate].
    exists completedTrip. split; [|split].
    + destruct (progress_updates_only_progress "Applying your changes..."
                  (reported (pollTripUntilComplete (server w) default_maxAttempts)))
        as [ps Hps].
      rewrite Hps.
      change (setProgress (Some "Updating itinerary...") :: map setProgress ps
              ++ [setTrip (Some (convertBackendTripToFrontend completedTrip));
                  setProgress None])
        with (map setProgress (Some "Updating itinerary..." :: ps)
              ++ [setTrip (Some (convertBackendTripToFrontend completedTrip));
                  setProgress None]).
      rewrite <- !run_app.
      destruct (run_map_setProgress (Some "Updating itinerary..." :: ps)
                  (run s [setIsLoading true; setError None;
                          setProgress (Some "Modifying trip...")])) as [p Hq].
      rewrite Hq. reflexivity.
    + intros r Hr Hnp. inversion Hr; subst. contradiction.
    + intros r _ _. reflexivity.
  - exists reply. split; [reflexivity|]. split.
    + intros r Hr _. now inversion Hr.
    + intros r Hr Hproc. inversion Hr; subst. contradiction.
Qed.

Lemma modifyTrip_success_witness :
  exists backendTrip,
    run {| trip := Some (convertBackendTripToFrontend finished_trip);
           isLoading := false; error := Some "Trip not found"; progress := None |}
        (modifyTrip
           {| trip := Some (convertBackendTripToFrontend finished_trip);
              isLoading := false; error := Some "Trip not found"; progress := None |}
           {| first_reply := reply_with 200 "OK" (with_status "processing" finished_trip);
              server := Samples.server_after_two finished_trip |})
    = {| trip := Some (convertBackendTripToFrontend backendTrip);
         isLoading := false; error := None; progress := None |}.
Proof.
  destruct (modifyTrip_success_installs
              {| trip := Some (convertBackendTripToFrontend finished_trip);
                 isLoading := false; error := Some "Trip not found"; progress := None |}
              {| first_reply := reply_with 200 "OK" (with_status "processing" finished_trip);
                 server := Samples.server_after_two finished_trip |})
    as [backendTrip [H _]].
  - discriminate.
  - reflexivity.
  - exists backendTrip. exact H.
Defined.

End EditCoverage.
